(** * Forest-guided clustering: the k-selection core of [interpret_rf.py]

    A shallow embedding of the stability-driven model selection of
    [src/interpret_rf.py] and the proofs of its specification.

    Modelling conventions.
    - A NumPy [float64] is an exact rational kept in lowest terms, extended
      with the three special values the code can produce or write
      ([-inf], [+inf], [nan]); rounding is not modelled, and the theorems
      state what survives it. Where rounding decides a claim, the lines in
      question are also evaluated on IEEE binary64 ([Binary64]).
    - NumPy arrays live in a heap and are addressed by object identity, so
      that in-place writes ([a[i] = v]) and fresh copies (fancy indexing)
      are told apart.
    - Python exceptions are values of [exn]; a computation is a function
      from the interpreter state ([world]) to a result and a new state.
    - The global NumPy generator and the k-medoids estimator are external
      libraries: they are interfaces ([RandomState], [KMedoidsLib]). *)

From Stdlib Require Import QArith Qreduction Qround Lqa ZArith String.
From Stdlib Require PrimFloat Uint63.
From stdpp Require Import base list gmap sets sorting strings.

Local Open Scope Q_scope.
Local Open Scope nat_scope.

(** ** Floating-point values *)

Inductive float64 :=
| NaN
| NInf
| Num (q : Q)
| PInf.

(** A finite value, in lowest terms. *)
Definition num (q : Q) : float64 := Num (Qred q).

Definition of_nat (n : nat) : float64 := Num (inject_Z (Z.of_nat n)).

Definition fadd (x y : float64) : float64 :=
  match x, y with
  | NaN, _ | _, NaN => NaN
  | PInf, NInf | NInf, PInf => NaN
  | PInf, _ | _, PInf => PInf
  | NInf, _ | _, NInf => NInf
  | Num a, Num b => num (a + b)
  end.

Definition fneg (x : float64) : float64 :=
  match x with
  | NaN => NaN
  | NInf => PInf
  | PInf => NInf
  | Num a => num (- a)
  end.

Definition fsub (x y : float64) : float64 := fadd x (fneg y).

Definition signed_inf (c : comparison) (pos : float64) (neg : float64) : float64 :=
  match c with
  | Eq => NaN
  | Gt => pos
  | Lt => neg
  end.

Definition fmul (x y : float64) : float64 :=
  match x, y with
  | NaN, _ | _, NaN => NaN
  | Num a, Num b => num (a * b)
  | Num a, PInf | PInf, Num a => signed_inf (a ?= 0)%Q PInf NInf
  | Num a, NInf | NInf, Num a => signed_inf (a ?= 0)%Q NInf PInf
  | PInf, PInf | NInf, NInf => PInf
  | PInf, NInf | NInf, PInf => NInf
  end.

(** NumPy's [true_divide] on [float64]/[int64] scalars: a zero divisor gives
    [inf] or [nan] (and a warning), never an exception. *)
Definition fdiv (x y : float64) : float64 :=
  match x, y with
  | NaN, _ | _, NaN => NaN
  | Num a, Num b =>
      match (b ?= 0)%Q with
      | Eq => signed_inf (a ?= 0)%Q PInf NInf
      | _ => num (a / b)
      end
  | Num _, PInf | Num _, NInf => Num 0
  | PInf, Num b => match (b ?= 0)%Q with Lt => NInf | _ => PInf end
  | NInf, Num b => match (b ?= 0)%Q with Lt => PInf | _ => NInf end
  | PInf, PInf | PInf, NInf | NInf, PInf | NInf, NInf => NaN
  end.

(** [x < y]; every comparison with [nan] is false. *)
Definition flt (x y : float64) : bool :=
  match x, y with
  | NaN, _ | _, NaN => false
  | _, NInf => false
  | NInf, _ => true
  | PInf, _ => false
  | Num _, PInf => true
  | Num a, Num b => match (a ?= b)%Q with Lt => true | _ => false end
  end.

(** [x <= y]. *)
Definition fle (x y : float64) : bool :=
  match x, y with
  | NaN, _ | _, NaN => false
  | NInf, _ => true
  | _, PInf => true
  | _, NInf => false
  | PInf, _ => false
  | Num a, Num b => match (a ?= b)%Q with Gt => false | _ => true end
  end.

(** [x == y]. *)
Definition feqb (x y : float64) : bool :=
  match x, y with
  | NInf, NInf | PInf, PInf => true
  | Num a, Num b => Qeq_bool a b
  | _, _ => false
  end.

Definition is_nan (x : float64) : bool :=
  match x with NaN => true | _ => false end.

Definition is_num (x : float64) : Prop :=
  match x with Num _ => True | _ => False end.

(** ** Exceptions and results *)

Inductive exn :=
| KeyError (key : nat)
| KeyErrorStr (key : string)
| IndexError
| ZeroDivisionError
| ValueError (msg : string)
| AssertionError (msg : string)
| AttributeError
| UnboundLocalError (var : string)
| DanglingReference.

Inductive res (A : Type) :=
| Ok (a : A)
| Raise (e : exn).
Arguments Ok {A} a.
Arguments Raise {A} e.

Definition rbind {A B} (r : res A) (k : A -> res B) : res B :=
  match r with
  | Ok a => k a
  | Raise e => Raise e
  end.

Notation "x <-- r ;; k" := (rbind r (fun x => k))
  (at level 100, r at next level, right associativity, only parsing).

Fixpoint mapR {A B} (f : A -> res B) (l : list A) : res (list B) :=
  match l with
  | [] => Ok []
  | x :: l' => y <-- f x ;; ys <-- mapR f l' ;; Ok (y :: ys)
  end.

Fixpoint foldR {A S} (f : A -> S -> res S) (l : list A) (s : S) : res S :=
  match l with
  | [] => Ok s
  | x :: l' => s' <-- f x s ;; foldR f l' s'
  end.

(** Sequence indexing [l[i]] and dictionary lookup [d[k]]. *)
Definition index {A} (l : list A) (i : nat) : res A :=
  match l !! i with
  | Some x => Ok x
  | None => Raise IndexError
  end.

Definition dict_get {V} (d : gmap nat V) (k : nat) : res V :=
  match d !! k with
  | Some v => Ok v
  | None => Raise (KeyError k)
  end.

(** ** Arrays *)

(** A two-dimensional [float64] array, row-major. *)
Abbreviation ndarray := (list (list float64)).

(** A table of named numeric columns. *)
Abbreviation DataFrame := (list (string * list float64)).

Definition shape (a : ndarray) : nat * nat := (length a, length (hd [] a)).

(** [np.unique]: the sorted distinct values. *)
Definition np_unique (l : list nat) : list nat := merge_sort Nat.le (remove_dups l).

(** [a.max()] and [a.argmax()] on a one-dimensional array: [nan] propagates,
    [argmax] is the first position of the maximum, and an empty array is a
    [ValueError]. *)
Definition fmax (x y : float64) : float64 :=
  match x, y with
  | NaN, _ | _, NaN => NaN
  | _, _ => if flt x y then y else x
  end.

Definition np_max (l : list float64) : res float64 :=
  match l with
  | [] => Raise (ValueError "zero-size array to reduction operation maximum which has no identity")
  | x :: l' => Ok (foldl fmax x l')
  end.

Definition same_value (x y : float64) : bool := feqb x y || (is_nan x && is_nan y).

Fixpoint first_index (m : float64) (l : list float64) : nat :=
  match l with
  | [] => 0
  | x :: l' => if same_value x m then 0 else S (first_index m l')
  end.

Definition np_argmax (l : list float64) : res nat :=
  m <-- np_max l ;; Ok (first_index m l).

(** [a[r] = v], [a[:, c] = v] and [a[i, j] = v] as functions on the array's
    contents; the heap operation [np_update] below performs them in place. *)
Definition set_row (r : nat) (v : float64) (a : ndarray) : res ndarray :=
  row <-- index a r ;; Ok (<[r := replicate (length row) v]> a).

Definition set_col (c : nat) (v : float64) (a : ndarray) : res ndarray :=
  if decide (c < (shape a).2) then Ok ((fun row => <[c := v]> row) <$> a)
  else Raise IndexError.

Definition set_entry (i j : nat) (v : float64) (a : ndarray) : res ndarray :=
  row <-- index a i ;;
  if decide (j < length row) then Ok (<[i := <[j := v]> row]> a)
  else Raise IndexError.

(** [M[:, s]] and [M[s, :]]: fancy indexing builds a new array. *)
Definition take_cols (a : ndarray) (s : list nat) : res ndarray :=
  mapR (fun row => mapR (index row) s) a.

Definition take_rows (a : ndarray) (s : list nat) : res ndarray :=
  mapR (index a) s.

(** ** The interpreter state *)

(** The global generator of [numpy.random]: [choice g n] is the result of
    [np.random.choice(np.arange(n), n)] in state [g], with the next state. *)
Class RandomState (G : Type) := {
  choice : G -> nat -> list nat * G;
  choice_length : forall g n, length (choice g n).1 = n;
  choice_range : forall g n i, i ∈ (choice g n).1 -> i < n
}.

(** [KMedoids(n_clusters, random_state, init = 'build', method = 'pam',
    max_iter).fit(X).labels_]: a function of its arguments that leaves [X]
    as it is. [fit] can raise; it raises [ValueError] when it is asked for
    more medoids than [X] has rows ("The number of medoids (k) must be less
    than the number of samples n."), and the labels of a fit that returns
    are one per row. *)
Class KMedoidsLib := {
  KMedoids_fit_labels : nat -> Z -> nat -> ndarray -> res (list nat);
  KMedoids_more_medoids_than_samples : forall k random_state max_iter X,
    length X < k ->
    exists msg, KMedoids_fit_labels k random_state max_iter X = Raise (ValueError msg);
  KMedoids_one_label_per_sample : forall k random_state max_iter X labels,
    KMedoids_fit_labels k random_state max_iter X = Ok labels ->
    length labels = length X
}.

(** What the name [numpy.random.seed] is bound to. *)
Inductive seed_binding :=
| SeedFunction
| SeedValue (z : Z).

Inductive event :=
| PrintInterpreting (kind : string)
| PrintJaccard (k : nat) (min_index : float64)
| PrintScore (k : nat) (score : float64)
| PrintUnstable
| SaveFigure (k : nat) (output : string).

Abbreviation loc := nat (only parsing).

Section Interpreter.
Context {G : Type} {RS : RandomState G}.

Record world := World {
  heap : gmap loc ndarray;
  np_random : G;
  np_random_seed : seed_binding;
  stdout : list event
}.

Definition M (A : Type) : Type := world -> res A * world.

Definition ret {A} (a : A) : M A := fun w => (Ok a, w).

Definition bind {A B} (m : M A) (k : A -> M B) : M B :=
  fun w =>
    match m w with
    | (Ok a, w') => k a w'
    | (Raise e, w') => (Raise e, w')
    end.

Definition lift {A} (r : res A) : M A := fun w => (r, w).

Definition raise {A} (e : exn) : M A := lift (Raise e).


(** [for x in xs: body], threading the local variables the body assigns. *)
Fixpoint for_each {X S} (xs : list X) (body : X -> S -> M S) (s : S) : M S :=
  match xs with
  | [] => ret s
  | x :: xs' => bind (body x s) (for_each xs' body)
  end.

Definition with_heap (h : gmap loc ndarray) (w : world) : world :=
  World h (np_random w) (np_random_seed w) (stdout w).

(** A new array object. *)
Definition np_alloc (a : ndarray) : M loc :=
  fun w =>
    let l := fresh (dom (heap w)) in
    (Ok l, with_heap (<[l := a]> (heap w)) w).

Definition np_read (l : loc) : M ndarray :=
  fun w =>
    match heap w !! l with
    | Some a => (Ok a, w)
    | None => (Raise DanglingReference, w)
    end.

(** An in-place write to the array object at [l]. *)
Definition np_update (l : loc) (f : ndarray -> res ndarray) : M unit :=
  fun w =>
    match heap w !! l with
    | Some a =>
        match f a with
        | Ok a' => (Ok tt, with_heap (<[l := a']> (heap w)) w)
        | Raise e => (Raise e, w)
        end
    | None => (Raise DanglingReference, w)
    end.

(** [np.random.choice(np.arange(n), n)]: draws from the global generator. *)
Definition np_random_choice (n : nat) : M (list nat) :=
  fun w =>
    let '(s, g) := choice (np_random w) n in
    (Ok s, World (heap w) g (np_random_seed w) (stdout w)).

(** [np.random.seed = z]: rebinds the name, the generator is not touched. *)
Definition assign_np_random_seed (z : Z) : M unit :=
  fun w => (Ok tt, World (heap w) (np_random w) (SeedValue z) (stdout w)).

Definition print (e : event) : M unit :=
  fun w => (Ok tt, World (heap w) (np_random w) (np_random_seed w) (stdout w ++ [e])).

Definition py_assert (b : bool) (msg : string) : M unit :=
  if b then ret tt else raise (AssertionError msg).

End Interpreter.

Arguments world G : clear implicits.
Arguments M G A : clear implicits.

Notation "x <- m ;; k" := (bind m (fun x => k))
  (at level 100, m at next level, right associativity, only parsing).
Notation "m ;;; k" := (bind m (fun _ => k))
  (at level 100, right associativity, only parsing).

Section Program.
Context {G : Type} {RS : RandomState G}.
#[local] Abbreviation M := (M G).

(** ** [bootstrap_matrix] (lines 169-176) *)

Definition bootstrap_matrix (M_ : loc) : M (loc * gmap nat nat) :=
  a <- np_read M_ ;;
  let lm := length a in
  bootstrapped_samples <- np_random_choice lm ;;
  cols <- lift (take_cols a bootstrapped_samples) ;;
  M_cols <- np_alloc cols ;;
  rows <- lift (take_rows cols bootstrapped_samples) ;;
  M_bootstrapped <- np_alloc rows ;;
  let mapping_bootstrapped_indices_to_original_indices : gmap nat nat :=
    map_seq 0 bootstrapped_samples in
  ret (M_bootstrapped, mapping_bootstrapped_indices_to_original_indices).

(** ** [_translate_cluster_labels_to_dictionary_of_index_sets_per_cluster]
    (lines 197-214) *)

(** The value stored per cluster: a [set] without a mapping, the [list] built
    by the comprehension with one. *)
Inductive indices :=
| IdxSet (s : gset nat)
| IdxList (l : list nat).

(** [index_vector[labels == cluster]]. *)
Definition members (labels : list nat) (cluster : nat) : list nat :=
  filter (fun i => labels !! i = Some cluster) (seq 0 (length labels)).

(** The comprehension iterates over a [set]; its order is not modelled (we
    take the ascending one), the list is only read through set operations. *)
Definition _translate_cluster_labels_to_dictionary_of_index_sets_per_cluster
    (labels : list nat) (mapping : option (gmap nat nat)) : res (gmap nat indices) :=
  let clusters := np_unique labels in
  foldR (fun cluster (indices_clusters : gmap nat indices) =>
           let position_set := members labels cluster in
           idx <-- match mapping with
                   | None => Ok (IdxSet (list_to_set position_set))
                   | Some mp => l <-- mapR (dict_get mp) position_set ;; Ok (IdxList l)
                   end ;;
           Ok (<[cluster := idx]> indices_clusters))
        clusters ∅.

(** ** [_compute_jaccard_matrix] (lines 216-229) *)

Definition as_set (i : indices) : gset nat :=
  match i with
  | IdxSet s => s
  | IdxList l => list_to_set l
  end.

(** [len(intersection)/len(union)] for one pair of clusters; the receiver of
    [.intersection] and [.union] must be a [set], and the quotient of two
    Python integers raises on a zero divisor. *)
Definition jaccard_index (indices_original indices_bootstrap : indices) : res float64 :=
  match indices_original with
  | IdxList _ => Raise AttributeError
  | IdxSet so =>
      let intersection := so ∩ as_set indices_bootstrap in
      let union := so ∪ as_set indices_bootstrap in
      if decide (size union = 0) then Raise ZeroDivisionError
      else Ok (fdiv (of_nat (size intersection)) (of_nat (size union)))
  end.

Fixpoint enumerate_from {A} (n : nat) (l : list A) : list (nat * A) :=
  match l with
  | [] => []
  | x :: l' => (n, x) :: enumerate_from (S n) l'
  end.

Definition enumerate {A} (l : list A) : list (nat * A) := enumerate_from 0 l.

Definition np_zeros (rows cols : nat) : ndarray := replicate rows (replicate cols (Num 0)).

Definition _compute_jaccard_matrix (clusters : list nat)
    (indices_bootstrap_clusters indices_original_clusters : gmap nat indices) : M loc :=
  jaccard_matrix <- np_alloc (np_zeros (length clusters) (length clusters)) ;;
  for_each (enumerate clusters) (fun '(i, cluster_original) (_ : unit) =>
    for_each (enumerate clusters) (fun '(j, cluster_bootstrap) (_ : unit) =>
      indices_bootstrap <- lift (dict_get indices_bootstrap_clusters cluster_bootstrap) ;;
      indices_original <- lift (dict_get indices_original_clusters cluster_original) ;;
      v <- lift (jaccard_index indices_original indices_bootstrap) ;;
      np_update jaccard_matrix (set_entry i j v)) tt) tt ;;;
  ret jaccard_matrix.

(** ** [compute_stability_indices] (lines 128-167) *)

(** Lines 155-157: the largest entry, the first row that holds it and the
    first column of that row's largest entry. *)
Definition argmax_entry (a : ndarray) : res (float64 * nat * nat) :=
  row_maxima <-- mapR np_max a ;;
  best_index <-- np_max row_maxima ;;
  original_cluster_number <-- np_argmax row_maxima ;;
  row <-- index a original_cluster_number ;;
  bootstrapped_cluster_number <-- np_argmax row ;;
  Ok (best_index, original_cluster_number, bootstrapped_cluster_number).

(** One pass of the matching loop (lines 155-162). *)
Definition matching_step (jaccard_matrix : loc) (clusters : list nat)
    (index_per_cluster : gmap nat float64) : M (gmap nat float64) :=
  a <- np_read jaccard_matrix ;;
  best <- lift (argmax_entry a) ;;
  let '(best_index, original_cluster_number, bootstrapped_cluster_number) := best in
  np_update jaccard_matrix (set_row original_cluster_number NInf) ;;;
  np_update jaccard_matrix (set_col bootstrapped_cluster_number NInf) ;;;
  original_cluster <- lift (index clusters original_cluster_number) ;;
  total <- lift (dict_get index_per_cluster original_cluster) ;;
  ret (<[original_cluster := fadd total best_index]> index_per_cluster).

(** The matching loop (lines 154-162). *)
Definition greedy_matching (jaccard_matrix : loc) (clusters : list nat)
    (index_per_cluster : gmap nat float64) : M (gmap nat float64) :=
  a <- np_read jaccard_matrix ;;
  for_each (seq 0 (length a))
    (fun cluster_round ipc => matching_step jaccard_matrix clusters ipc)
    index_per_cluster.

(** One bootstrap round (lines 144-162). *)
Definition bootstrap_round (distance_matrix : loc)
    (cluster_method : ndarray -> res (list nat))
    (clusters : list nat) (indices_original_clusters : gmap nat indices)
    (index_per_cluster : gmap nat float64) : M (gmap nat float64) :=
  sample <- bootstrap_matrix distance_matrix ;;
  let '(bootsrapped_distance_matrix, mapping_bootstrapped_indices_to_original_indices) :=
    sample in
  b <- np_read bootsrapped_distance_matrix ;;
  bootstrapped_labels <- lift (cluster_method b) ;;
  indices_bootstrap_clusters <-
    lift (_translate_cluster_labels_to_dictionary_of_index_sets_per_cluster
            bootstrapped_labels (Some mapping_bootstrapped_indices_to_original_indices)) ;;
  jaccard_matrix <-
    _compute_jaccard_matrix clusters indices_bootstrap_clusters indices_original_clusters ;;
  greedy_matching jaccard_matrix clusters index_per_cluster.

(** [index_per_cluster[cluster]/bootstraps]. With [bootstraps = 0] no round
    ran, the totals are still the Python integers [0] they were initialised
    to, and the quotient of two integers raises. *)
Definition normalize_total (total : float64) (bootstraps : nat) : res float64 :=
  if decide (bootstraps = 0) then Raise ZeroDivisionError
  else Ok (fdiv total (of_nat bootstraps)).

Definition compute_stability_indices (distance_matrix : loc)
    (cluster_method : ndarray -> res (list nat)) (bootstraps : nat) (seed : Z)
    : M (gmap nat float64) :=
  d <- np_read distance_matrix ;;
  let matrix_shape := shape d in
  (* every array of the heap has two dimensions: the first assertion holds *)
  py_assert (bool_decide (matrix_shape.1 = matrix_shape.2))
    "error distance matrix is not square" ;;;
  assign_np_random_seed seed ;;;
  labels <- lift (cluster_method d) ;;
  let clusters := np_unique labels in
  indices_original_clusters <-
    lift (_translate_cluster_labels_to_dictionary_of_index_sets_per_cluster labels None) ;;
  let index_per_cluster : gmap nat float64 :=
    list_to_map ((fun cluster => (cluster, Num 0)) <$> clusters) in
  index_per_cluster <-
    for_each (seq 0 bootstraps)
      (fun i ipc => bootstrap_round distance_matrix cluster_method clusters
                      indices_original_clusters ipc)
      index_per_cluster ;;
  lift (foldR (fun cluster (normalized : gmap nat float64) =>
                 total <-- dict_get index_per_cluster cluster ;;
                 v <-- normalize_total total bootstraps ;;
                 Ok (<[cluster := v]> normalized))
              clusters ∅).

(** ** The quality scores (lines 92-125) *)

(** [y[labels == cluster]]: a Boolean mask must be as long as the array. *)
Definition mask_select (y : list float64) (labels : list nat) (cluster : nat)
    : res (list float64) :=
  if decide (length y = length labels)
  then Ok ((filter (fun p => p.1 = cluster) (zip labels y)).*2)
  else Raise IndexError.

(** [sum(y == v)]. *)
Definition count_equal (v : float64) (y : list float64) : nat :=
  length (filter (fun x => feqb x v = true) y).

Definition fsum (l : list float64) : float64 := foldl fadd (Num 0) l.

Definition np_mean (l : list float64) : float64 := fdiv (fsum l) (of_nat (length l)).

Definition np_var (l : list float64) : float64 :=
  let m := np_mean l in
  np_mean ((fun v => fmul (fsub v m) (fsub v m)) <$> l).

Definition compute_total_within_cluster_variation (y : list float64) (labels : list nat)
    : res float64 :=
  foldR (fun cluster score =>
           y_cluster <-- mask_select y labels cluster ;;
           Ok (fadd score (fmul (np_var y_cluster) (of_nat (length y_cluster)))))
        (np_unique labels) (Num 0).

(** Lines 101-111: the labels and the factor. *)
Definition up_scaling (n0 n1 : nat) : float64 * float64 * float64 :=
  if decide (n0 <= n1)
  then (Num 0, Num 1, fdiv (of_nat n1) (of_nat n0))
  else (Num 1, Num 0, fdiv (of_nat n0) (of_nat n1)).

(** Lines 116-120: the value appended for one cluster. *)
Definition normalized_balanced_purity (small_label large_label up_scaling_factor : float64)
    (y_cluster : list float64) : float64 :=
  let x_small := fmul (of_nat (count_equal small_label y_cluster)) up_scaling_factor in
  let x_large := of_nat (count_equal large_label y_cluster) in
  let x_tot := fadd x_small x_large in
  let balanced_purity := fmul (fdiv x_small x_tot) (fdiv x_large x_tot) in
  fdiv balanced_purity (Num (1 # 4)).

(** The list [balanced_purities] (lines 112-122). *)
Definition balanced_purities (y : list float64) (labels : list nat) : res (list float64) :=
  let '(small_label, large_label, up_scaling_factor) :=
    up_scaling (count_equal (Num 0) y) (count_equal (Num 1) y) in
  mapR (fun cluster =>
          y_cluster <-- mask_select y labels cluster ;;
          Ok (normalized_balanced_purity small_label large_label up_scaling_factor y_cluster))
       (np_unique labels).

(** On an empty [y] the two counts are the Python integers [0], whose
    quotient raises; otherwise they are NumPy integers. *)
Definition compute_balanced_average_purity (y : list float64) (labels : list nat)
    : res float64 :=
  match y with
  | [] => Raise ZeroDivisionError
  | _ => purities <-- balanced_purities y labels ;; Ok (np_mean purities)
  end.

(** ** [optimizeK] (lines 50-90) *)

Context {KM : KMedoidsLib}.

(** Lines 78-83: the score of the chosen method. With any other method
    [score] is not bound when line 84 reads it. *)
Definition quality_score (method : string) (y : list float64) (labels : list nat)
    : res float64 :=
  if String.eqb method "clustering" then compute_balanced_average_purity y labels
  else if String.eqb method "regression" then compute_total_within_cluster_variation y labels
  else Raise (UnboundLocalError "score").

(** Python's [min] over a list: the first least element by [<]. *)
Definition py_min (l : list float64) : res float64 :=
  match l with
  | [] => Raise (ValueError "min() arg is an empty sequence")
  | x :: l' => Ok (foldl (fun least v => if flt v least then v else least) x l')
  end.

(** The values of a dictionary in the order of its keys. The dictionaries
    read this way were filled in the order of [np.unique], which is the
    ascending one. *)
Definition dict_values (d : gmap nat float64) : list float64 :=
  omap (fun cluster => d !! cluster) (merge_sort Nat.le (elements (dom d))).

(** The body of the loop over [k] (lines 62-89), on the two variables the
    loop updates. *)
Definition optimizeK_candidate (distance_matrix : loc) (y : list float64)
    (random_state : Z) (discart_value : float64) (bootstraps max_iter_clustering : nat)
    (method : string) (k : nat) (best : float64 * nat) : M (float64 * nat) :=
  let '(score_min, optimal_k) := best in
  let cluster_method := KMedoids_fit_labels k random_state max_iter_clustering in
  d <- np_read distance_matrix ;;
  labels <- lift (cluster_method d) ;;
  index_per_cluster <-
    compute_stability_indices distance_matrix cluster_method bootstraps random_state ;;
  min_index <- lift (py_min (dict_values index_per_cluster)) ;;
  print (PrintJaccard k min_index) ;;;
  if flt discart_value min_index then
    score <- lift (quality_score method y labels) ;;
    let best' := if flt score score_min then (score, k) else (score_min, optimal_k) in
    print (PrintScore k score) ;;;
    ret best'
  else
    print PrintUnstable ;;;
    ret (score_min, optimal_k).

Definition optimizeK (distance_matrix : loc) (x : ndarray) (y : list float64)
    (max_K : nat) (random_state : Z) (discart_value : float64)
    (bootstraps max_iter_clustering : nat) (method : string) : M nat :=
  let score_min := PInf in
  let optimal_k := 1 in
  best <- for_each (seq 2 (max_K - 2))
            (optimizeK_candidate distance_matrix y random_state discart_value
               bootstraps max_iter_clustering method)
            (score_min, optimal_k) ;;
  ret best.2.

(** ** [proximityMatrix] (lines 178-194) and [forest_guided_clustering]
    (lines 15-48) *)

(** [model.apply(X)]: one row of leaf identifiers per sample, one column per
    tree. *)
Record leaf_ids := {
  leaf_rows : list (list nat);
  n_trees : nat
}.

(** The fitted forest: [str(type(model))] and [model.apply]. *)
Record Model := {
  type_str : string;
  apply : ndarray -> leaf_ids
}.


Definition column (data : DataFrame) (name : string) : res (list float64) :=
  match list_find (fun c => c.1 = name) data with
  | Some (_, c) => Ok c.2
  | None => Raise (KeyErrorStr name)
  end.

Definition drop_column (data : DataFrame) (name : string) : DataFrame :=
  filter (fun c => c.1 ≠ name) data.

Definition to_numpy (n : nat) (data : DataFrame) : ndarray :=
  (fun i => (fun c => default NaN (c.2 !! i)) <$> data) <$> seq 0 n.

(** [needle in hay]. *)
Fixpoint contains (needle hay : string) : bool :=
  String.prefix needle hay ||
  match hay with
  | EmptyString => false
  | String _ rest => contains needle rest
  end.

(** The number of trees in which two samples share a leaf. *)
Definition shared_leaves (a b : list nat) (nTrees : nat) : nat :=
  length (filter (fun t => a !! t = b !! t) (seq 0 nTrees)).

(** [normalize] is left at its default [True] by both callers; without a
    tree [proxMat] is still the integer [0] and the quotient raises. *)
Definition proximityMatrix (model : Model) (X : ndarray) : M loc :=
  let terminals := apply model X in
  let nTrees := n_trees terminals in
  if decide (nTrees = 0) then raise ZeroDivisionError
  else
    np_alloc ((fun a => (fun b => fdiv (of_nat (shared_leaves a b nTrees)) (of_nat nTrees))
                          <$> leaf_rows terminals) <$> leaf_rows terminals).

(** The renderer (lines 255-298) is outside the core: only the fact that it
    is called with [k] and [output] is kept. *)
Definition plot_forest_guided_clustering (k : nat) (output : string) : M unit :=
  print (SaveFigure k output).

Definition forest_guided_clustering (model : Model) (data : DataFrame)
    (target_column output : string) (max_K : nat) (thr_pvalue : float64)
    (random_state : Z) (bootstraps max_iter_clustering : nat)
    (number_of_clusters : option nat) : M nat :=
  let is_regressor := contains "RandomForestRegressor" (type_str model) in
  let is_classifier := contains "RandomForestClassifier" (type_str model) in
  method <- (if is_regressor then
               print (PrintInterpreting "RandomForestRegressor") ;;; ret "regression"%string
             else if is_classifier then
               print (PrintInterpreting "RandomForestClassifier") ;;; ret "clustering"%string
             else
               raise (ValueError ("Do not recognize " +:+ type_str model +:+
                 ". Can only work with sklearn RandomForestRegressor or RandomForestClassifier."))) ;;
  y <- lift (column data target_column) ;;
  let X := to_numpy (length y) (drop_column data target_column) in
  proximity <- proximityMatrix model X ;;
  p <- np_read proximity ;;
  distanceMatrix <- np_alloc ((fun row : list float64 => (fun v => fsub (Num 1) v) <$> row) <$> p) ;;
  k <- match number_of_clusters with
       | None =>
           optimizeK distanceMatrix X y 6 random_state (Num (3 # 5))
             bootstraps max_iter_clustering method
       | Some k => ret k
       end ;;
  plot_forest_guided_clustering k output ;;;
  ret k.

End Program.

(** ** The purity of one cluster in IEEE binary64

    Lines 104-120 on the kernel's binary64 numbers, whose operations round
    to nearest even as NumPy's [float64] operations do. The class labels
    and the counts are the exact ones. *)

Module Binary64.
Import PrimFloat.

(** A NumPy integer as a [float64]. *)
Definition of_nat (n : nat) : float := of_uint63 (Uint63.of_Z (Z.of_nat n)).

(** Lines 104-111: the labels and the factor. *)
Definition up_scaling (n0 n1 : nat) : float64 * float64 * float :=
  if decide (n0 <= n1)
  then (Num 0, Num 1, (of_nat n1 / of_nat n0)%float)
  else (Num 1, Num 0, (of_nat n0 / of_nat n1)%float).

(** Lines 116-120: the value appended for one cluster. *)
Definition normalized_balanced_purity (small_label large_label : float64)
    (up_scaling_factor : float) (y_cluster : list float64) : float :=
  let x_small := (of_nat (count_equal small_label y_cluster) * up_scaling_factor)%float in
  let x_large := of_nat (count_equal large_label y_cluster) in
  let x_tot := (x_small + x_large)%float in
  let balanced_purity := ((x_small / x_tot) * (x_large / x_tot))%float in
  (balanced_purity / 0.25)%float.

End Binary64.

(** ** Stand-ins for the external libraries, for concrete runs *)

(** A generator whose state is a multiplier [a] and an increment [d]: the
    draw of size [n] is [i * a mod n] for [i < n], and the multiplier then
    grows by [d]. With [a = 1] and [d = 0] every draw is the identity. *)
Definition stride_choice (g : nat * nat) (n : nat) : list nat * (nat * nat) :=
  ((fun i => (i * g.1) `mod` n) <$> seq 0 n, (g.1 + g.2, g.2)).

#[export] Program Instance stride_generator : RandomState (nat * nat) := {
  choice := stride_choice
}.
Next Obligation.
  intros g n. unfold stride_choice. simpl. by rewrite length_fmap, length_seq.
Qed.
Next Obligation.
  intros g n i. unfold stride_choice. simpl.
  intros [j [-> Hj]]%list_elem_of_fmap.
  apply elem_of_seq in Hj. apply Nat.mod_upper_bound. lia.
Qed.

(** A clusterer that looks at the distance to the first sample only: sample
    [i] gets the label [min (k - 1) (floor (k * d[i][0]))]. Like the
    estimator it refuses more medoids than samples. *)
Definition threshold_label (k : nat) (row : list float64) : nat :=
  match row with
  | Num q :: _ => Nat.min (k - 1) (Z.to_nat (Qfloor (q * inject_Z (Z.of_nat k))))
  | _ => 0
  end.

Definition threshold_fit (k : nat) (X : ndarray) : res (list nat) :=
  if decide (length X < k)
  then Raise (ValueError "The number of medoids must be less than the number of samples.")
  else Ok (threshold_label k <$> X).

#[export] Program Instance threshold_clusterer : KMedoidsLib := {
  KMedoids_fit_labels k random_state max_iter X := threshold_fit k X
}.
Next Obligation.
  intros k rs mi X Hk. simpl. unfold threshold_fit. rewrite decide_True by done. by eexists.
Qed.
Next Obligation.
  intros k rs mi X labels. simpl. unfold threshold_fit.
  destruct (decide (length X < k)); [done|]. intros [= <-]. by rewrite length_fmap.
Qed.

(** Four samples in two pairs: distance 0 inside a pair, 1 across. *)
Definition two_pairs : ndarray :=
  [ [Num 0; Num 0; Num 1; Num 1];
    [Num 0; Num 0; Num 1; Num 1];
    [Num 1; Num 1; Num 0; Num 0];
    [Num 1; Num 1; Num 0; Num 0] ].

Definition world0 (a g : nat) (d : ndarray) : world (nat * nat) :=
  World (<[0 := d]> ∅) (a, g) SeedFunction [].

(** A fitted classifier with one tree that separates the two pairs, and its
    table: one feature column and the target. *)
Definition two_pairs_forest : Model := {|
  type_str := "<class 'sklearn.ensemble._forest.RandomForestClassifier'>";
  apply := fun _ => {| leaf_rows := [[0]; [0]; [1]; [1]]; n_trees := 1 |}
|}.

Definition two_pairs_table : DataFrame :=
  [ ("feature"%string, [Num 0; Num 0; Num 1; Num 1]);
    ("target"%string, [Num 0; Num 0; Num 1; Num 1]) ].

(** A target with 90 zeros and 10 ones. *)
Definition ninety_ten : list float64 := replicate 90 (Num 0) ++ replicate 10 (Num 1).

(** * Specification vocabulary *)

(** ** Arrays *)

Definition entry (a : ndarray) (i j : nat) : option float64 :=
  a !! i ≫= fun row => row !! j.

Definition square (n : nat) (a : ndarray) : Prop :=
  length a = n /\ Forall (fun row => length row = n) a.

Definition symmetric (a : ndarray) : Prop :=
  forall i j, entry a i j = entry a j i.

(** What every NumPy array with two axes is: all rows as long as the first. *)
Definition two_dimensional (a : ndarray) : Prop :=
  Forall (fun row => length row = (shape a).2) a.

(** Values that compare: everything but [nan]. *)
Definition comparable (x : float64) : Prop := is_nan x = false.

Definition comparable_entries (a : ndarray) : Prop :=
  Forall (Forall comparable) a.

(** ** The quality scores *)

(** A binary target: every label is 0 or 1. *)
Definition binary (y : list float64) : Prop :=
  Forall (fun v => feqb v (Num 0) = true \/ feqb v (Num 1) = true) y.

(** The value of [y[labels == cluster]] when the lengths agree. *)
Definition masked (y : list float64) (labels : list nat) (cluster : nat) : list float64 :=
  (filter (fun p => p.1 = cluster) (zip labels y)).*2.

Definition between (lo hi : Q) (v : float64) : Prop :=
  match v with
  | Num q => (lo <= q)%Q /\ (q <= hi)%Q
  | _ => False
  end.

(** ** The matching *)

(** Lines 158-159 on the array's contents. *)
Definition strike (r c : nat) (a : ndarray) : res ndarray :=
  a1 <-- set_row r NInf a ;; set_col c NInf a1.

(** The picks [(row, column, best_index)] of [n] passes of the matching
    loop on an array with contents [a], and the contents left. *)
Fixpoint matching_replay (n : nat) (a : ndarray)
    : res (list (nat * nat * float64) * ndarray) :=
  match n with
  | 0 => Ok ([], a)
  | S n' =>
      best <-- argmax_entry a ;;
      let '(best_index, r, c) := best in
      a' <-- strike r c a ;;
      rest <-- matching_replay n' a' ;;
      Ok ((r, c, best_index) :: rest.1, rest.2)
  end.

Definition pick_rows (picks : list (nat * nat * float64)) : list nat := picks.*1.*1.

Definition pick_cols (picks : list (nat * nat * float64)) : list nat := picks.*1.*2.

(** Lines 161-162 for one pick. *)
Definition credit (clusters : list nat) (ipc : gmap nat float64)
    (p : nat * nat * float64) : res (gmap nat float64) :=
  original_cluster <-- index clusters p.1.1 ;;
  total <-- dict_get ipc original_cluster ;;
  Ok (<[original_cluster := fadd total p.2]> ipc).

(** [a] is [J] with the rows [R] and the columns [C] set to [-inf]. *)
Definition struck (J : ndarray) (R C : list nat) (a : ndarray) : Prop :=
  forall i j v, entry J i j = Some v ->
    entry a i j = Some (if decide (i ∈ R \/ j ∈ C) then NInf else v).

(** A sequence of picks on [J] after the rows [R] and the columns [C] were
    eliminated: every pick is a largest entry outside the eliminated rows
    and columns, and eliminates its own row and column for the next ones. *)
Inductive greedy_from (J : ndarray) (n : nat)
    : list nat -> list nat -> list (nat * nat * float64) -> Prop :=
| greedy_done R C : greedy_from J n R C []
| greedy_pick R C r c best v picks :
    r < n -> c < n -> r ∉ R -> c ∉ C ->
    entry J r c = Some v -> feqb v best = true ->
    (forall i j x, i ∉ R -> j ∉ C -> entry J i j = Some x -> fle x best = true) ->
    greedy_from J n (r :: R) (c :: C) picks ->
    greedy_from J n R C ((r, c, best) :: picks).

(** Every total is the number of rounds run so far. *)
Definition totals_are (clusters : list nat) (t : nat) (ipc : gmap nat float64) : Prop :=
  forall c, c ∈ clusters ->
    exists q, ipc !! c = Some (Num q) /\ (q == inject_Z (Z.of_nat t))%Q.

(** The bootstrap dictionary holds, for every original cluster, the same
    set of sample indices as the original one. *)
Definition same_index_sets (clusters : list nat) (io ib : gmap nat indices) : Prop :=
  forall c, c ∈ clusters ->
    exists o b, io !! c = Some o /\ ib !! c = Some b /\ as_set b = as_set o.

(** ** The search *)

(** What the search did with one candidate [k]: the minimum stability it
    printed and, when the candidate was scored, the score it printed. *)
Record candidate_outcome := {
  cand_k : nat;
  cand_min_index : float64;
  cand_score : option float64
}.

Definition outcome_events (o : candidate_outcome) : list event :=
  PrintJaccard (cand_k o) (cand_min_index o) ::
  match cand_score o with
  | Some s => [PrintScore (cand_k o) s]
  | None => [PrintUnstable]
  end.

(** Lines 84-86 on the pair [(score_min, optimal_k)]. *)
Definition keep_best (best : float64 * nat) (o : candidate_outcome) : float64 * nat :=
  match cand_score o with
  | Some s => if flt s best.1 then (s, cand_k o) else best
  | None => best
  end.

(** The candidates whose stability was printed, and those whose score was. *)
Definition evaluated_candidates (log : list event) : list nat :=
  omap (fun e => match e with PrintJaccard k _ => Some k | _ => None end) log.

Definition scored_candidates (log : list event) : list (nat * float64) :=
  omap (fun e => match e with PrintScore k s => Some (k, s) | _ => None end) log.

(** ** Index sets, sums and equal values *)

(** The Jaccard index of two sets of sample indices. *)
Definition jaccard (A B : gset nat) : Q :=
  inject_Z (Z.of_nat (size (A ∩ B))) / inject_Z (Z.of_nat (size (A ∪ B))).

(** The rational value of a number, and exact sums. *)
Definition rat (v : float64) : Q :=
  match v with
  | Num q => q
  | _ => 0
  end.

Definition Qsum (l : list Q) : Q := foldr Qplus 0%Q l.

(** The sum of the squared deviations of [l] from [m]. *)
Definition squared_deviations (m : Q) (l : list float64) : Q :=
  Qsum ((fun v => (rat v - m) * (rat v - m))%Q <$> l).

(** The within-cluster sum of squares of one cluster. *)
Definition cluster_variation (y : list float64) (labels : list nat) (c : nat) : Q :=
  squared_deviations (rat (np_mean (masked y labels c))) (masked y labels c).

(** Two representations of one value: the same special value, or two
    fractions of the same rational. *)
Definition feq (x y : float64) : Prop :=
  match x, y with
  | NaN, NaN | NInf, NInf | PInf, PInf => True
  | Num a, Num b => (a == b)%Q
  | _, _ => False
  end.

(** ** States *)

Section Vocabulary.
Context {G : Type} {RS : RandomState G}.

(** Computations whose every run relates the state before to the state
    after by [R]. *)
Definition respects (R : relation (world G)) {A} (m : M G A) : Prop :=
  forall w, R w (m w).2.

(** Nothing allocated before is written and nothing is printed. *)
Definition grows : relation (world G) :=
  fun w w' => heap w ⊆ heap w' /\ stdout w' = stdout w.

(** Only the array at [j] is written, nothing is allocated or printed. *)
Definition writes_only (j : loc) : relation (world G) :=
  fun w w' => (forall l, l <> j -> heap w' !! l = heap w !! l) /\ stdout w' = stdout w.

(** Nothing allocated before is written. *)
Definition keeps_heap : relation (world G) := fun w w' => heap w ⊆ heap w'.

(** The generator after one draw of size [n]. *)
Definition next_generator (n : nat) (g : G) : G := (choice g n).2.

(** [M[:, s][s, :]] on the array's contents. *)
Definition resample (a : ndarray) (s : list nat) : res ndarray :=
  cols <-- take_cols a s ;; take_rows cols s.

(** The dictionary of bootstrap index sets of the round that starts with the
    generator in state [g] (lines 144-148). *)
Definition bootstrap_index_sets (cluster_method : ndarray -> res (list nat)) (d : ndarray)
    (g : G) : res (gmap nat indices) :=
  let s := (choice g (length d)).1 in
  b <-- resample d s ;;
  bootstrapped_labels <-- cluster_method b ;;
  _translate_cluster_labels_to_dictionary_of_index_sets_per_cluster
    bootstrapped_labels (Some (map_seq 0 s)).

(** The state with [numpy.random.seed] bound to [b]. *)
Definition set_seed (b : seed_binding) (w : world G) : world G :=
  World (heap w) (np_random w) b (stdout w).

(** Computations that neither read nor rebind [numpy.random.seed]. *)
Definition seed_blind {A} (m : M G A) : Prop :=
  forall b w, m (set_seed b w) = ((m w).1, set_seed b (m w).2).

End Vocabulary.

(** * Proofs *)

Section FloatFacts.

Lemma num_eq q q' : (q == q')%Q -> num q = num q'.
Proof. intros H. unfold num. f_equal. by apply Qred_complete. Qed.

Lemma num_zero q : (q == 0)%Q -> num q = Num 0.
Proof. intros H. by rewrite (num_eq _ _ H). Qed.

Lemma num_one q : (q == 1)%Q -> num q = Num 1.
Proof. intros H. by rewrite (num_eq _ _ H). Qed.

Lemma fdiv_Num a b : ~ (b == 0)%Q -> fdiv (Num a) (Num b) = num (a / b).
Proof.
  intros Hb. unfold fdiv. destruct (b ?= 0)%Q eqn:E; try done.
  by apply Qeq_alt in E.
Qed.

Lemma inject_nat_pos n : 0 < n -> (0 < inject_Z (Z.of_nat n))%Q.
Proof. intros H. change 0%Q with (inject_Z 0). rewrite <- Zlt_Qlt. lia. Qed.

Lemma inject_nat_nonneg n : (0 <= inject_Z (Z.of_nat n))%Q.
Proof. change 0%Q with (inject_Z 0). rewrite <- Zle_Qle. lia. Qed.

Lemma Qsquare_nonneg (x : Q) : (0 <= x * x)%Q.
Proof. destruct (Qlt_le_dec x 0); nra. Qed.

Lemma four_pq_le_1 (p r : Q) : (0 <= p -> 0 <= r -> p + r == 1 -> 4 * (p * r) <= 1)%Q.
Proof.
  intros Hp Hr Hs. pose proof (Qsquare_nonneg (p - r)) as H.
  assert (E : ((p - r) * (p - r) == (p + r) * (p + r) - 4 * (p * r))%Q) by ring.
  rewrite E, Hs in H. lra.
Qed.

Lemma Qratio_bounds (a b : Q) :
  (0 <= a)%Q -> (a <= b)%Q -> (0 < b)%Q ->
  (0 <= a / b)%Q /\ (a / b <= 1)%Q /\
  ((a / b == 1)%Q <-> (a == b)%Q) /\ ((a / b == 0)%Q <-> (a == 0)%Q).
Proof.
  intros Ha Hab Hb.
  assert (E : (a == a / b * b)%Q) by (field; lra).
  split; [apply Qle_shift_div_l; lra|]. split; [apply Qle_shift_div_r; lra|]. split.
  - split; intros H.
    + rewrite H, Qmult_1_l in E. done.
    + rewrite H. field. lra.
  - split; intros H.
    + rewrite H, Qmult_0_l in E. done.
    + rewrite H. field. lra.
Qed.

End FloatFacts.

Lemma purity_bounds small large (u : Q) y_cluster :
  (0 < u)%Q ->
  0 < count_equal small y_cluster + count_equal large y_cluster ->
  exists q, normalized_balanced_purity small large (Num u) y_cluster = Num q
            /\ (0 <= q)%Q /\ (q <= 1)%Q
            /\ (count_equal small y_cluster = 0 \/ count_equal large y_cluster = 0 -> q = 0%Q).
Proof.
  intros Hu Hab. unfold normalized_balanced_purity.
  set (a := count_equal small y_cluster) in *.
  set (b := count_equal large y_cluster) in *.
  pose proof (inject_nat_nonneg a) as Ha.
  pose proof (inject_nat_nonneg b) as Hb.
  set (qa := inject_Z (Z.of_nat a)) in *.
  set (qb := inject_Z (Z.of_nat b)) in *.
  assert (Hpos : (0 < qa * u + qb)%Q).
  { destruct (decide (a = 0)) as [Ha0|Ha0].
    - assert (0 < qb)%Q by (apply inject_nat_pos; lia). nra.
    - assert (0 < qa)%Q by (apply inject_nat_pos; lia). nra. }
  unfold of_nat. fold qa qb. simpl fmul at 2. simpl fadd.
  unfold num at 1 2 3.
  set (xs := Qred (qa * u)). set (xt := Qred (xs + qb)).
  assert (Hxs : (xs == qa * u)%Q) by apply Qred_correct.
  assert (Hxt : (xt == qa * u + qb)%Q) by (unfold xt; rewrite Qred_correct, Hxs; reflexivity).
  assert (Hxt0 : ~ (xt == 0)%Q) by (rewrite Hxt; lra).
  rewrite !fdiv_Num by done. unfold num. simpl fmul. unfold num. rewrite fdiv_Num by done. unfold num.
  eexists. split; [reflexivity|].
  set (p := (xs / xt)%Q). set (r := (qb / xt)%Q).
  assert (Hp : (0 <= p)%Q).
  { unfold p. apply Qle_shift_div_l; [rewrite Hxt; lra|]. rewrite Hxs. nra. }
  assert (Hr : (0 <= r)%Q).
  { unfold r. apply Qle_shift_div_l; [rewrite Hxt; lra|]. lra. }
  assert (Hsum : (p + r == 1)%Q).
  { unfold p, r. field_simplify_eq; [|done]. rewrite Hxt, Hxs. ring. }
  assert (Hval : (Qred (Qred p * Qred r) / (1 # 4) == 4 * (p * r))%Q).
  { rewrite !Qred_correct. field. }
  assert (Hzero : a = 0 \/ b = 0 -> (p * r == 0)%Q).
  { intros [H0|H0].
    - assert (p == 0)%Q as ->; [|ring]. unfold p. rewrite Hxs. unfold qa. rewrite H0.
      simpl. field. done.
    - assert (r == 0)%Q as ->; [|ring]. unfold r, qb. rewrite H0. simpl. field. done. }
  clearbody p r. clear -Hp Hr Hsum Hval Hzero.
  repeat split.
  - rewrite Qred_correct, Hval. nra.
  - rewrite Qred_correct, Hval. by apply four_pq_le_1.
  - intros H0. apply (Qred_complete _ 0). rewrite Hval, (Hzero H0). ring.
Qed.

Section QualityFacts.

Lemma elem_of_np_unique (l : list nat) c : c ∈ np_unique l <-> c ∈ l.
Proof.
  unfold np_unique. rewrite merge_sort_Permutation. apply elem_of_remove_dups.
Qed.

Lemma NoDup_np_unique (l : list nat) : NoDup (np_unique l).
Proof.
  unfold np_unique. rewrite merge_sort_Permutation. apply NoDup_remove_dups.
Qed.

Lemma mapR_Forall2 {A B} (f : A -> res B) l l' :
  mapR f l = Ok l' <-> Forall2 (fun x y => f x = Ok y) l l'.
Proof.
  revert l'. induction l as [|x l IH]; intros l'; simpl.
  - split; [intros [= <-]; constructor | by inversion 1].
  - split.
    + destruct (f x) as [y|] eqn:Hx; simpl; [|done].
      destruct (mapR f l) as [ys|] eqn:Hl; simpl; [|done].
      intros [= <-]. constructor; [done|]. by apply IH.
    + inversion 1 as [|? y ? ys Hx Hl]; subst. rewrite Hx. simpl.
      apply IH in Hl. by rewrite Hl.
Qed.

Lemma mapR_Ok_intro {A B} (f : A -> res B) (g : A -> B) l :
  (forall x, x ∈ l -> f x = Ok (g x)) -> mapR f l = Ok (g <$> l).
Proof.
  intros H. apply mapR_Forall2. apply Forall2_fmap_r, Forall_Forall2_diag.
  apply Forall_forall. auto.
Qed.

Lemma feqb_0_1 v : feqb v (Num 0) = true -> feqb v (Num 1) = true -> False.
Proof.
  destruct v as [| |q|]; simpl; try done.
  intros H0%Qeq_bool_iff H1%Qeq_bool_iff. rewrite H0 in H1. discriminate.
Qed.

Lemma binary_counts (y : list float64) :
  binary y -> count_equal (Num 0) y + count_equal (Num 1) y = length y.
Proof.
  unfold count_equal. induction 1 as [|v y Hv Hy IH]; [done|].
  rewrite !filter_cons. simpl.
  destruct Hv as [Hv|Hv].
  - rewrite decide_True by done.
    rewrite decide_False; [simpl; lia|]. intros H1. by eapply feqb_0_1.
  - rewrite (decide_True (P := feqb v (Num 1) = true)) by done.
    rewrite decide_False; [simpl; lia|]. intros H0. by eapply feqb_0_1.
Qed.

Lemma mask_select_Ok y labels c :
  length y = length labels -> mask_select y labels c = Ok (masked y labels c).
Proof. intros H. unfold mask_select. by rewrite decide_True. Qed.

Lemma masked_subset y labels c v : v ∈ masked y labels c -> v ∈ y.
Proof.
  unfold masked. intros [[l v'] [-> [_ Hin]%list_elem_of_filter]]%list_elem_of_fmap.
  simpl. by apply elem_of_zip_r in Hin.
Qed.

Lemma masked_binary y labels c : binary y -> binary (masked y labels c).
Proof.
  unfold binary. rewrite !Forall_forall. intros H v Hv. eapply H, masked_subset, Hv.
Qed.

Lemma masked_nonempty y labels c :
  length y = length labels -> c ∈ labels -> 0 < length (masked y labels c).
Proof.
  intros Hlen [i Hi]%list_elem_of_lookup.
  destruct (lookup_lt_is_Some_2 y i) as [v Hv].
  { rewrite Hlen. by eapply lookup_lt_Some. }
  assert (Hin : v ∈ masked y labels c).
  { unfold masked. apply list_elem_of_fmap. exists (c, v). split; [done|].
    apply list_elem_of_filter. split; [done|].
    apply list_elem_of_lookup. exists i. by apply lookup_zip_with_Some; eauto. }
  destruct (masked y labels c); [by apply elem_of_nil in Hin | simpl; lia].
Qed.


Lemma count_equal_pos v (y : list float64) : 0 < count_equal v y -> y <> [].
Proof. intros H ->. unfold count_equal in H. simpl in H. lia. Qed.


Lemma fsum_zeros (l : list float64) :
  Forall (fun v => v = Num 0) l -> fsum l = Num 0.
Proof.
  unfold fsum. induction 1 as [|x l -> _ IH]; [done|]. simpl. apply IH.
Qed.




Lemma np_mean_zeros (l : list float64) :
  l <> [] -> Forall (fun v => v = Num 0) l -> np_mean l = Num 0.
Proof.
  intros Hne Hl. unfold np_mean. rewrite (fsum_zeros l Hl).
  unfold of_nat. rewrite fdiv_Num.
  - apply num_zero. field.
    assert (0 < inject_Z (Z.of_nat (length l)))%Q; [|lra].
    apply inject_nat_pos. destruct l; [done|simpl; lia].
  - assert (0 < inject_Z (Z.of_nat (length l)))%Q; [|lra].
    apply inject_nat_pos. destruct l; [done|simpl; lia].
Qed.

(** The factor is the majority count over the minority count. *)
Lemma up_scaling_defined n0 n1 :
  0 < n0 -> 0 < n1 ->
  exists small large u,
    up_scaling n0 n1 = (small, large, Num u) /\
    (0 < u)%Q /\
    (u == inject_Z (Z.of_nat (n0 `max` n1)) / inject_Z (Z.of_nat (n0 `min` n1)))%Q /\
    ((small = Num 0 /\ large = Num 1) \/ (small = Num 1 /\ large = Num 0)).
Proof.
  intros H0 H1. unfold up_scaling.
  pose proof (inject_nat_pos n0 H0). pose proof (inject_nat_pos n1 H1).
  destruct (decide (n0 <= n1)).
  - exists (Num 0), (Num 1). eexists. unfold of_nat. rewrite fdiv_Num by lra.
    split; [reflexivity|]. rewrite Qred_correct.
    rewrite Nat.max_r, Nat.min_l by lia.
    split; [|split; [reflexivity|by left]].
    apply Qlt_shift_div_l; lra.
  - exists (Num 1), (Num 0). eexists. unfold of_nat. rewrite fdiv_Num by lra.
    split; [reflexivity|]. rewrite Qred_correct.
    rewrite Nat.max_l, Nat.min_r by lia.
    split; [|split; [reflexivity|by right]].
    apply Qlt_shift_div_l; lra.
Qed.

Lemma balanced_purities_defined (y : list float64) (labels : list nat) :
  binary y -> length y = length labels ->
  0 < count_equal (Num 0) y -> 0 < count_equal (Num 1) y ->
  exists ps,
    balanced_purities y labels = Ok ps /\
    length ps = length (np_unique labels) /\
    ps <> [] /\
    Forall (between 0 1) ps /\
    ((forall cluster, cluster ∈ np_unique labels ->
        count_equal (Num 0) (masked y labels cluster) = 0 \/
        count_equal (Num 1) (masked y labels cluster) = 0) ->
     Forall (fun v => v = Num 0) ps).
Proof.
  intros Hbin Hlen H0 H1. unfold balanced_purities.
  destruct (up_scaling_defined _ _ H0 H1) as (small & large & u & -> & Hu & _ & Hlab).
  eexists. split.
  { apply (mapR_Ok_intro _ (fun cluster =>
      normalized_balanced_purity small large (Num u) (masked y labels cluster))).
    intros c _. by rewrite mask_select_Ok. }
  assert (Hc : forall c, c ∈ np_unique labels ->
             0 < count_equal small (masked y labels c) + count_equal large (masked y labels c)).
  { intros c Hin. rewrite elem_of_np_unique in Hin.
    pose proof (binary_counts _ (masked_binary y labels c Hbin)) as Hsum.
    pose proof (masked_nonempty y labels c Hlen Hin).
    destruct Hlab as [[-> ->]|[-> ->]]; lia. }
  split; [by rewrite length_fmap|]. split; [|split].
  - assert (Hne : np_unique labels <> []).
    { destruct y as [|v y]; [by apply count_equal_pos in H0|].
      destruct labels as [|c labels]; [done|].
      assert (c ∈ np_unique (c :: labels)) as Hin by (apply elem_of_np_unique; by left).
      intros E. rewrite E in Hin. by apply elem_of_nil in Hin. }
    destruct (np_unique labels); [done|]. done.
  - apply Forall_fmap, Forall_forall. intros c Hin. simpl.
    destruct (purity_bounds small large u (masked y labels c) Hu (Hc c Hin))
      as (q & -> & Hq0 & Hq1 & _). done.
  - intros Hsep. apply Forall_fmap, Forall_forall. intros c Hin. simpl.
    destruct (purity_bounds small large u (masked y labels c) Hu (Hc c Hin))
      as (q & -> & _ & _ & Hz). f_equal. apply Hz.
    destruct Hlab as [[-> ->]|[-> ->]]; destruct (Hsep c Hin); auto.
Qed.






End QualityFacts.

Section ArrayFacts.

Lemma index_Ok {A} (l : list A) i x : index l i = Ok x <-> l !! i = Some x.
Proof. unfold index. destruct (l !! i); split; congruence. Qed.

Lemma mapR_is_Ok {A B} (f : A -> res B) l :
  (forall x, x ∈ l -> exists y, f x = Ok y) -> exists l', mapR f l = Ok l'.
Proof.
  induction l as [|x l IH]; intros H; simpl; [by eexists|].
  destruct (H x) as [y ->]; [by left|].
  destruct IH as [l' ->]; [intros z Hz; apply H; by right|]. by eexists.
Qed.

Lemma square_lookup n a i row : square n a -> a !! i = Some row -> length row = n.
Proof.
  intros [_ H] Hi. rewrite Forall_forall in H. apply H. by eapply list_elem_of_lookup_2.
Qed.

Lemma square_entry n a i j : square n a -> i < n -> j < n -> is_Some (entry a i j).
Proof.
  intros Hsq Hi Hj. unfold entry.
  destruct (lookup_lt_is_Some_2 a i) as [row Hrow]; [by rewrite (proj1 Hsq)|].
  rewrite Hrow. simpl. apply lookup_lt_is_Some_2.
  by rewrite (square_lookup _ _ _ _ Hsq Hrow).
Qed.

Lemma take_cols_is_Ok n a s :
  square n a -> (forall i, i ∈ s -> i < n) -> exists cols, take_cols a s = Ok cols.
Proof.
  intros Hsq Hs. apply mapR_is_Ok. intros row [i Hrow]%list_elem_of_lookup.
  apply mapR_is_Ok. intros j Hj.
  destruct (lookup_lt_is_Some_2 row j) as [v Hv].
  { rewrite (square_lookup _ _ _ _ Hsq Hrow). by apply Hs. }
  exists v. by apply index_Ok.
Qed.

Lemma take_cols_length a s cols : take_cols a s = Ok cols -> length cols = length a.
Proof. intros H%mapR_Forall2. symmetry. by eapply Forall2_length. Qed.

Lemma take_rows_is_Ok a s :
  (forall i, i ∈ s -> i < length a) -> exists b, take_rows a s = Ok b.
Proof.
  intros Hs. apply mapR_is_Ok. intros i Hi.
  destruct (lookup_lt_is_Some_2 a i) as [row Hrow]; [by apply Hs|].
  exists row. by apply index_Ok.
Qed.

(** [M[:, s][s, :]] entry by entry. *)
Lemma resample_entry a s cols b p q :
  take_cols a s = Ok cols -> take_rows cols s = Ok b ->
  entry b p q = s !! p ≫= fun i => s !! q ≫= fun j => entry a i j.
Proof.
  intros Hc%mapR_Forall2 Hr%mapR_Forall2. unfold entry.
  destruct (s !! p) as [i|] eqn:Hp; simpl.
  - destruct (Forall2_lookup_l _ _ _ _ _ Hr Hp) as (row & -> & Hrow%index_Ok). simpl.
    destruct (Forall2_lookup_r _ _ _ _ _ Hc Hrow) as (arow & -> & Hcols%mapR_Forall2). simpl.
    destruct (s !! q) as [j|] eqn:Hq; simpl.
    + by destruct (Forall2_lookup_l _ _ _ _ _ Hcols Hq) as (v & -> & ->%index_Ok).
    + apply lookup_ge_None. rewrite <- (Forall2_length _ _ _ Hcols).
      by apply lookup_ge_None.
  - rewrite (proj2 (lookup_ge_None b p)); [done|].
    rewrite <- (Forall2_length _ _ _ Hr). by apply lookup_ge_None.
Qed.

Lemma resample_square n a s cols b :
  square n a -> length s = n ->
  take_cols a s = Ok cols -> take_rows cols s = Ok b -> square n b.
Proof.
  intros Hsq Hs Hc%mapR_Forall2 Hr%mapR_Forall2. split.
  - by rewrite <- (Forall2_length _ _ _ Hr).
  - apply Forall_forall. intros row [p Hp]%list_elem_of_lookup.
    destruct (Forall2_lookup_r _ _ _ _ _ Hr Hp) as (i & _ & Hrow%index_Ok).
    destruct (Forall2_lookup_r _ _ _ _ _ Hc Hrow) as (arow & _ & Hcols%mapR_Forall2).
    by rewrite <- (Forall2_length _ _ _ Hcols).
Qed.

End ArrayFacts.

Section BootstrapFacts.
Context {G : Type} {RS : RandomState G}.

Lemma bootstrap_matrix_run dm (w : world G) a cols b :
  let s := (choice (np_random w) (length a)).1 in
  let l1 := fresh (dom (heap w)) in
  let l2 := fresh (dom (<[l1 := cols]> (heap w))) in
  heap w !! dm = Some a ->
  take_cols a s = Ok cols -> take_rows cols s = Ok b ->
  bootstrap_matrix dm w =
    (Ok (l2, map_seq 0 s),
     World (<[l2 := b]> (<[l1 := cols]> (heap w)))
       (choice (np_random w) (length a)).2 (np_random_seed w) (stdout w)).
Proof.
  intros s l1 l2 Hdm Hc Hr. unfold bootstrap_matrix, bind, np_read, np_random_choice.
  rewrite Hdm. destruct (choice (np_random w) (length a)) as [s' g'] eqn:E.
  subst s. simpl in *. unfold lift. rewrite Hc. simpl. rewrite Hr. reflexivity.
Qed.

End BootstrapFacts.

Section OrderFacts.

Lemma is_num_comparable x : is_num x -> comparable x.
Proof. by destruct x. Qed.

Lemma fle_refl x : comparable x -> fle x x = true.
Proof.
  destruct x as [| |a|]; try done. intros _. simpl.
  by rewrite (proj1 (Qeq_alt a a) (Qeq_refl a)).
Qed.

Lemma fle_Num a b : fle (Num a) (Num b) = true <-> (a <= b)%Q.
Proof.
  simpl. rewrite Qle_alt. destruct (a ?= b)%Q; split; congruence.
Qed.

Lemma flt_Num a b : flt (Num a) (Num b) = true <-> (a < b)%Q.
Proof.
  simpl. rewrite Qlt_alt. destruct (a ?= b)%Q; split; congruence.
Qed.

Lemma feqb_Num a b : feqb (Num a) (Num b) = true <-> (a == b)%Q.
Proof. simpl. apply Qeq_bool_iff. Qed.

Lemma fle_trans x y z : fle x y = true -> fle y z = true -> fle x z = true.
Proof.
  destruct x as [| |a|], y as [| |b|], z as [| |c|]; try done.
  rewrite !fle_Num. apply Qle_trans.
Qed.

Lemma flt_false_fle x y :
  comparable x -> comparable y -> flt x y = false -> fle y x = true.
Proof.
  destruct x as [| |a|], y as [| |b|]; try done. intros _ _ H.
  apply fle_Num. apply Qnot_lt_le. intros Hlt%flt_Num. congruence.
Qed.

Lemma flt_fle x y : flt x y = true -> fle x y = true.
Proof.
  destruct x as [| |a|], y as [| |b|]; try done.
  rewrite flt_Num, fle_Num. apply Qlt_le_weak.
Qed.

Lemma feqb_refl x : comparable x -> feqb x x = true.
Proof. destruct x as [| |a|]; try done. intros _. by apply feqb_Num. Qed.

Lemma feqb_trans x y z : feqb x y = true -> feqb y z = true -> feqb x z = true.
Proof.
  destruct x as [| |a|], y as [| |b|], z as [| |c|]; try done.
  rewrite !feqb_Num. apply Qeq_trans.
Qed.

Lemma feqb_fle x y : feqb x y = true -> fle x y = true.
Proof.
  destruct x as [| |a|], y as [| |b|]; try done.
  rewrite feqb_Num, fle_Num. intros ->. apply Qle_refl.
Qed.

Lemma feqb_comparable x y : feqb x y = true -> comparable x /\ comparable y.
Proof. by destruct x, y. Qed.

Lemma fmax_cases x y :
  comparable x -> comparable y ->
  (fmax x y = x \/ fmax x y = y) /\ fle x (fmax x y) = true /\ fle y (fmax x y) = true.
Proof.
  intros Hx Hy. unfold fmax.
  assert (E : match x, y with NaN, _ | _, NaN => NaN | _, _ => if flt x y then y else x end
              = if flt x y then y else x) by (by destruct x, y).
  rewrite E. destruct (flt x y) eqn:Hlt.
  - split; [by right|]. split; [by apply flt_fle|by apply fle_refl].
  - split; [by left|]. split; [by apply fle_refl|by apply flt_false_fle].
Qed.

Lemma foldl_fmax_spec (l : list float64) : forall x,
  comparable x -> Forall comparable l ->
  foldl fmax x l ∈ x :: l /\ forall y, y ∈ x :: l -> fle y (foldl fmax x l) = true.
Proof.
  induction l as [|z l IH]; intros x Hx Hl; simpl.
  - split; [by left|]. intros y ->%list_elem_of_singleton. by apply fle_refl.
  - inversion Hl as [|? ? Hz Hl']; subst.
    destruct (fmax_cases x z Hx Hz) as ([E|E] & Hxm & Hzm).
    + rewrite E. destruct (IH x Hx Hl') as [Hin Hub]. split.
      * apply elem_of_cons in Hin as [->|Hin]; [by left|by right; right].
      * intros y [->|[->|Hy]%elem_of_cons]%elem_of_cons.
        -- apply Hub. by left.
        -- rewrite E in Hzm. eapply fle_trans; [exact Hzm|]. apply Hub. by left.
        -- apply Hub. by right.
    + rewrite E. destruct (IH z Hz Hl') as [Hin Hub]. split.
      * by right.
      * intros y [->|Hy]%elem_of_cons.
        -- rewrite E in Hxm. eapply fle_trans; [exact Hxm|]. apply Hub. by left.
        -- by apply Hub.
Qed.

Lemma np_max_spec (l : list float64) :
  l <> [] -> Forall comparable l ->
  exists m, np_max l = Ok m /\ m ∈ l /\ forall y, y ∈ l -> fle y m = true.
Proof.
  destruct l as [|x l]; [done|]. intros _ Hl. inversion Hl; subst.
  eexists. split; [reflexivity|]. by apply foldl_fmax_spec.
Qed.

Lemma first_index_spec (m : float64) (l : list float64) :
  comparable m -> m ∈ l ->
  exists y, l !! first_index m l = Some y /\ feqb y m = true.
Proof.
  intros Hm. induction l as [|x l IH]; intros Hin; [by apply elem_of_nil in Hin|].
  simpl. destruct (same_value x m) eqn:E.
  - exists x. split; [done|]. unfold same_value in E.
    apply orb_true_iff in E as [E|E]; [done|].
    apply andb_true_iff in E as [_ E]. unfold comparable in Hm. congruence.
  - apply elem_of_cons in Hin as [->|Hin].
    + unfold same_value in E. rewrite feqb_refl in E by done. done.
    + by apply IH.
Qed.

Lemma np_argmax_spec (l : list float64) :
  l <> [] -> Forall comparable l ->
  exists m c y, np_max l = Ok m /\ np_argmax l = Ok c /\ l !! c = Some y /\
                feqb y m = true /\ forall z, z ∈ l -> fle z m = true.
Proof.
  intros Hne Hl. destruct (np_max_spec l Hne Hl) as (m & Hm & Hin & Hub).
  assert (comparable m) by (rewrite Forall_forall in Hl; by apply Hl).
  destruct (first_index_spec m l) as (y & Hy & Heq); [done..|].
  exists m, (first_index m l), y. unfold np_argmax. rewrite Hm. done.
Qed.

End OrderFacts.

Section MonadFacts.
Context {G : Type} {RS : RandomState G}.
Implicit Types w : world G.
#[local] Abbreviation grows := (@grows G).
#[local] Abbreviation writes_only := (@writes_only G).
#[local] Abbreviation keeps_heap := (@keeps_heap G).

Lemma bind_Ok {A B} (m : M G A) (k : A -> M G B) w a w' :
  m w = (Ok a, w') -> bind m k w = k a w'.
Proof. unfold bind. by intros ->. Qed.

Lemma bind_Raise {A B} (m : M G A) (k : A -> M G B) w e w' :
  m w = (Raise e, w') -> bind m k w = (Raise e, w').
Proof. unfold bind. by intros ->. Qed.

Lemma bind_inv_Ok {A B} (m : M G A) (k : A -> M G B) w b w' :
  bind m k w = (Ok b, w') -> exists a w1, m w = (Ok a, w1) /\ k a w1 = (Ok b, w').
Proof.
  unfold bind. destruct (m w) as [[a|e] w1]; [|done]. intros H. by exists a, w1.
Qed.

Lemma bind_assoc {A B C} (m : M G A) (f : A -> M G B) (g : B -> M G C) w :
  bind (bind m f) g w = bind m (fun a => bind (f a) g) w.
Proof. unfold bind. by destruct (m w) as [[a|e] w1]. Qed.

Lemma lift_inv_Ok {A} (r : res A) w a w' : lift r w = (Ok a, w') -> r = Ok a /\ w' = w.
Proof. unfold lift. by intros [= -> ->]. Qed.

Section Respects.
Context (R : relation (world G)) `{!PreOrder R}.

Lemma respects_ret {A} (a : A) : respects R (ret a).
Proof. intros w. simpl. reflexivity. Qed.

Lemma respects_lift {A} (r : res A) : respects R (lift r).
Proof. intros w. simpl. reflexivity. Qed.

Lemma respects_raise {A} e : respects R (raise (A := A) e).
Proof. apply respects_lift. Qed.

Lemma respects_bind {A B} (m : M G A) (k : A -> M G B) :
  respects R m -> (forall a, respects R (k a)) -> respects R (bind m k).
Proof.
  intros Hm Hk w. unfold bind. specialize (Hm w).
  destruct (m w) as [[a|e] w1]; simpl in *; [|done].
  etrans; [exact Hm|apply Hk].
Qed.

Lemma respects_for_each {X S} (xs : list X) (body : X -> S -> M G S) s :
  (forall x s, respects R (body x s)) -> respects R (for_each xs body s).
Proof.
  intros Hb. revert s. induction xs as [|x xs IH]; intros s; simpl.
  - apply respects_ret.
  - apply respects_bind; [apply Hb|apply IH].
Qed.

Lemma respects_py_assert b msg : respects R (py_assert b msg).
Proof. destruct b; [apply respects_ret|apply respects_raise]. Qed.

End Respects.

Lemma grows_preorder : PreOrder grows.
Proof.
  split.
  - intros w. split; done.
  - intros w1 w2 w3 [H1 E1] [H2 E2]. split; [by etrans|congruence].
Qed.

Lemma writes_only_preorder j : PreOrder (writes_only j).
Proof.
  split.
  - intros w. split; done.
  - intros w1 w2 w3 [H1 E1] [H2 E2]. split; [|congruence].
    intros l Hl. by rewrite H2, H1.
Qed.

Lemma keeps_heap_preorder : PreOrder keeps_heap.
Proof.
  split; [intros w; by unfold keeps_heap|].
  intros w1 w2 w3 H1 H2. unfold keeps_heap in *. by etrans.
Qed.

#[local] Existing Instances grows_preorder writes_only_preorder keeps_heap_preorder.

Lemma np_read_respects (R : relation (world G)) `{!PreOrder R} l : respects R (np_read l).
Proof. intros w. unfold np_read. destruct (heap w !! l); simpl; reflexivity. Qed.

Lemma np_update_writes_only j f : respects (writes_only j) (np_update j f).
Proof.
  intros w. unfold np_update. destruct (heap w !! j) as [a|]; [|reflexivity].
  destruct (f a); [|reflexivity]. split; [|done]. simpl.
  intros l Hl. by rewrite lookup_insert_ne.
Qed.

Lemma np_alloc_grows a : respects grows (np_alloc a).
Proof.
  intros w. unfold np_alloc. split; [|done]. simpl.
  apply insert_subseteq. apply not_elem_of_dom, is_fresh.
Qed.

Lemma np_random_choice_grows n : respects grows (np_random_choice n).
Proof.
  intros w. unfold np_random_choice. destruct (choice _ _). split; done.
Qed.

Lemma assign_np_random_seed_grows z : respects grows (assign_np_random_seed z).
Proof. intros w. split; done. Qed.

(** Writing to an array allocated in between is not seen from before. *)
Lemma alloc_then_writes_only {B} a (k : loc -> M G B) :
  (forall j, respects (writes_only j) (k j)) ->
  respects grows (bind (np_alloc a) k).
Proof.
  intros Hk w. unfold bind, np_alloc.
  set (j := fresh (dom (heap w))).
  destruct (Hk j (with_heap (<[j := a]> (heap w)) w)) as [Hh Hs].
  split; [|by rewrite Hs].
  apply map_subseteq_spec. intros l v Hl.
  assert (l <> j).
  { intros ->. assert (j ∉ dom (heap w)) as Hj by apply is_fresh.
    apply Hj, elem_of_dom. eauto. }
  rewrite Hh by done. simpl. by rewrite lookup_insert_ne.
Qed.

Lemma respects_weaken (R R' : relation (world G)) {A} (m : M G A) :
  (forall w w', R w w' -> R' w w') -> respects R m -> respects R' m.
Proof. intros H Hm w. apply H, Hm. Qed.

Lemma respects_ext (R : relation (world G)) {A} (m m' : M G A) :
  (forall w, m w = m' w) -> respects R m -> respects R m'.
Proof. intros H Hm w. rewrite <- H. apply Hm. Qed.

Ltac respects_step :=
  first
    [ apply respects_ret; tc_solve
    | apply respects_lift; tc_solve
    | apply respects_raise; tc_solve
    | apply respects_py_assert; tc_solve
    | apply np_read_respects; tc_solve
    | apply np_update_writes_only
    | apply np_alloc_grows
    | apply np_random_choice_grows
    | apply assign_np_random_seed_grows
    | apply respects_for_each; [tc_solve|intros]
    | apply respects_bind; [tc_solve| |intros]
    | match goal with |- context [let '(_, _) := ?p in _] => is_var p; destruct p end
    | match goal with |- respects _ (match ?p with _ => _ end) => destruct p end ].

Lemma matching_step_writes_only j clusters ipc :
  respects (writes_only j) (matching_step j clusters ipc).
Proof. unfold matching_step. repeat respects_step. Qed.

Lemma greedy_matching_writes_only j clusters ipc :
  respects (writes_only j) (greedy_matching j clusters ipc).
Proof.
  unfold greedy_matching. repeat respects_step.
Qed.

Lemma bootstrap_matrix_grows dm : respects grows (bootstrap_matrix dm).
Proof. unfold bootstrap_matrix. repeat respects_step. Qed.

Lemma bind_bind_ret {A B C} (m : M G A) (c : B) (k : B -> M G C) w :
  bind (bind m (fun _ => ret c)) k w = bind m (fun _ => k c) w.
Proof. unfold bind, ret. by destruct (m w) as [[a|e] w1]. Qed.

Lemma jaccard_then_grows {B} clusters ib io (k : loc -> M G B) :
  (forall j, respects (writes_only j) (k j)) ->
  respects grows (bind (_compute_jaccard_matrix clusters ib io) k).
Proof.
  intros Hk. unfold _compute_jaccard_matrix.
  eapply respects_ext; [intros w; symmetry; apply bind_assoc|].
  apply alloc_then_writes_only. intros j.
  eapply respects_ext; [intros w; symmetry; apply bind_bind_ret|].
  repeat respects_step. apply Hk.
Qed.

Lemma bootstrap_round_grows dm cm clusters io ipc :
  respects grows (bootstrap_round dm cm clusters io ipc).
Proof.
  unfold bootstrap_round.
  apply respects_bind; [tc_solve|apply bootstrap_matrix_grows|]. intros [b mapping].
  apply respects_bind; [tc_solve|apply np_read_respects; tc_solve|]. intros a.
  apply respects_bind; [tc_solve|apply respects_lift; tc_solve|]. intros bootstrapped_labels.
  apply respects_bind; [tc_solve|apply respects_lift; tc_solve|]. intros ib.
  apply jaccard_then_grows. intros j. apply greedy_matching_writes_only.
Qed.

Lemma compute_stability_indices_grows dm cm bootstraps seed :
  respects grows (compute_stability_indices dm cm bootstraps seed).
Proof.
  unfold compute_stability_indices.
  repeat first [apply bootstrap_round_grows | respects_step].
Qed.

Lemma print_keeps_heap e : respects keeps_heap (print e).
Proof. intros w. by unfold keeps_heap. Qed.

Lemma grows_keeps_heap w w' : grows w w' -> keeps_heap w w'.
Proof. by intros [H _]. Qed.

Context {KM : KMedoidsLib}.

Lemma optimizeK_candidate_keeps_heap dm y rs dv bs mi method k best :
  respects keeps_heap (optimizeK_candidate dm y rs dv bs mi method k best).
Proof.
  unfold optimizeK_candidate. destruct best as [score_min optimal_k].
  repeat first
    [ apply print_keeps_heap
    | eapply respects_weaken;
        [exact grows_keeps_heap | apply compute_stability_indices_grows]
    | match goal with |- respects _ (if ?b then _ else _) => destruct b end
    | respects_step ].
Qed.

Lemma optimizeK_keeps_heap dm x y max_K rs dv bs mi method :
  respects keeps_heap (optimizeK dm x y max_K rs dv bs mi method).
Proof.
  unfold optimizeK.
  repeat first [apply optimizeK_candidate_keeps_heap | respects_step].
Qed.

Lemma bootstrap_matrix_fresh dm w l mapping w' :
  bootstrap_matrix dm w = (Ok (l, mapping), w') -> (l ∉ dom (heap w)) ∧ l ≠ dm.
Proof.
  unfold bootstrap_matrix. intros H.
  apply bind_inv_Ok in H as (a & w0 & Hr & H).
  unfold np_read in Hr. destruct (heap w !! dm) eqn:Hdm; [|done].
  injection Hr as -> <-.
  apply bind_inv_Ok in H as (s & w1 & Hs & H).
  apply bind_inv_Ok in H as (cols & w1' & Hc & H). apply lift_inv_Ok in Hc as [Hc ->].
  apply bind_inv_Ok in H as (lc & w2 & Ha & H).
  apply bind_inv_Ok in H as (rows & w2' & Hrows & H). apply lift_inv_Ok in Hrows as [Hrows ->].
  apply bind_inv_Ok in H as (lr & w3 & Ha' & H).
  injection H as -> _ _.
  pose proof (np_random_choice_grows (length a) w) as [Hg1 _]. rewrite Hs in Hg1.
  pose proof (np_alloc_grows cols w1) as [Hg2 _]. rewrite Ha in Hg2.
  unfold np_alloc in Ha'. injection Ha' as <- _.
  assert (Hf : fresh (dom (heap w2)) ∉ dom (heap w)).
  { intros Hin. apply (is_fresh (dom (heap w2))).
    eapply subseteq_dom; [|exact Hin]. simpl in *. by etrans. }
  split; [done|]. intros E. apply Hf. rewrite E. apply elem_of_dom. eauto.
Qed.

End MonadFacts.

Section HeapFacts.
Context {G : Type} {RS : RandomState G}.
Implicit Types w : world G.

Lemma with_heap_id w j a : heap w !! j = Some a -> with_heap (<[j := a]> (heap w)) w = w.
Proof. intros H. rewrite insert_id by done. by destruct w. Qed.

Lemma with_heap_twice w h1 h2 : with_heap h2 (with_heap h1 w) = with_heap h2 w.
Proof. done. Qed.

Lemma np_update_run w j a f a' :
  heap w !! j = Some a -> f a = Ok a' ->
  np_update j f w = (Ok tt, with_heap (<[j := a']> (heap w)) w).
Proof. intros Hj Hf. unfold np_update. by rewrite Hj, Hf. Qed.

Lemma lift_run {A} (r : res A) w : lift r w = (r, w).
Proof. done. Qed.

Lemma np_read_run w j a : heap w !! j = Some a -> np_read j w = (Ok a, w).
Proof. intros Hj. unfold np_read. by rewrite Hj. Qed.

Lemma set_entry_Ok a i j v row :
  a !! i = Some row -> j < length row -> set_entry i j v a = Ok (<[i := <[j := v]> row]> a).
Proof.
  intros Hi Hj. unfold set_entry, index. rewrite Hi. simpl. by rewrite decide_True.
Qed.

(** The inner loop of [_compute_jaccard_matrix] writes one row. *)
Lemma jaccard_row_run (jm i co : nat) (ib io : gmap nat indices) (val : nat -> float64) cs :
  forall n w a row,
    heap w !! jm = Some a -> a !! i = Some row -> n + length cs <= length row ->
    (forall t cb, cs !! t = Some cb ->
       exists bi oi, ib !! cb = Some bi /\ io !! co = Some oi /\
                     jaccard_index oi bi = Ok (val (n + t))) ->
    exists row',
      for_each (enumerate_from n cs)
        (fun '(j, cluster_bootstrap) (_ : unit) =>
           indices_bootstrap <- lift (dict_get ib cluster_bootstrap) ;;
           indices_original <- lift (dict_get io co) ;;
           v <- lift (jaccard_index indices_original indices_bootstrap) ;;
           np_update jm (set_entry i j v)) tt w
      = (Ok tt, with_heap (<[jm := <[i := row']> a]> (heap w)) w) /\
      length row' = length row /\
      forall t, row' !! t =
                if decide (n <= t < n + length cs) then Some (val t) else row !! t.
Proof.
  induction cs as [|cb cs IH]; intros n w a row Hjm Hi Hlen Hval; simpl.
  - exists row. rewrite list_insert_id by done. rewrite with_heap_id by done.
    split; [done|]. split; [done|]. intros t. rewrite decide_False by lia. done.
  - destruct (Hval 0 cb eq_refl) as (bi & oi & Hbi & Hoi & Hv).
    rewrite Nat.add_0_r in Hv. simpl in Hlen.
    set (row1 := <[n := val n]> row).
    set (a1 := <[i := row1]> a).
    set (w1 := with_heap (<[jm := a1]> (heap w)) w).
    assert (Hi_lt : i < length a) by (by eapply lookup_lt_Some).
    destruct (IH (S n) w1 a1 row1) as (row' & Hrun & Hlen' & Hrow').
    + simpl. apply lookup_insert_eq.
    + unfold a1. by apply list_lookup_insert_eq.
    + unfold row1. rewrite length_insert. lia.
    + intros t cb' Ht. destruct (Hval (S t) cb' Ht) as (bi' & oi' & ? & ? & Hv').
      exists bi', oi'. replace (S n + t) with (n + S t) by lia. done.
    + exists row'. split; [|split].
      * match goal with |- bind ?m _ w = _ => assert (Hbody : m w = (Ok tt, w1)) end.
        { rewrite (bind_Ok _ _ w bi w) by (unfold lift, dict_get; by rewrite Hbi).
          rewrite (bind_Ok _ _ w oi w) by (unfold lift, dict_get; by rewrite Hoi).
          rewrite (bind_Ok _ _ w (val n) w) by (unfold lift; by rewrite Hv).
          eapply np_update_run; [exact Hjm|]. apply set_entry_Ok; [done|lia]. }
        rewrite (bind_Ok _ _ w tt w1 Hbody), Hrun.
        f_equal. unfold w1, a1. simpl.
        by rewrite with_heap_twice, insert_insert_eq, list_insert_insert_eq.
      * rewrite Hlen'. unfold row1. by rewrite length_insert.
      * intros t. rewrite Hrow'. unfold row1.
        destruct (decide (t = n)) as [->|Hne].
        -- rewrite decide_False by lia. rewrite decide_True by lia.
           apply list_lookup_insert_eq. lia.
        -- rewrite list_lookup_insert_ne by done.
           destruct (decide (S n <= t < S n + length cs)).
           ++ by rewrite decide_True by lia.
           ++ by rewrite decide_False by lia.
Qed.

(** The outer loop writes the rows one after the other. *)
Lemma jaccard_rows_run (jm : nat) (ib io : gmap nat indices) (val : nat -> nat -> float64)
    (clusters cs : list nat) :
  forall n w a,
    heap w !! jm = Some a -> n + length cs <= length a ->
    (forall i row, a !! i = Some row -> length row = length clusters) ->
    (forall s co t cb, cs !! s = Some co -> clusters !! t = Some cb ->
       exists bi oi, ib !! cb = Some bi /\ io !! co = Some oi /\
                     jaccard_index oi bi = Ok (val (n + s) t)) ->
    exists a',
      for_each (enumerate_from n cs)
        (fun '(i, cluster_original) (_ : unit) =>
           for_each (enumerate clusters)
             (fun '(j, cluster_bootstrap) (_ : unit) =>
                indices_bootstrap <- lift (dict_get ib cluster_bootstrap) ;;
                indices_original <- lift (dict_get io cluster_original) ;;
                v <- lift (jaccard_index indices_original indices_bootstrap) ;;
                np_update jm (set_entry i j v)) tt) tt w
      = (Ok tt, with_heap (<[jm := a']> (heap w)) w) /\
      length a' = length a /\
      (forall i, ~ (n <= i < n + length cs) -> a' !! i = a !! i) /\
      (forall i, n <= i < n + length cs ->
         exists row', a' !! i = Some row' /\ length row' = length clusters /\
                      forall t, t < length clusters -> row' !! t = Some (val i t)).
Proof.
  induction cs as [|co cs IH]; intros n w a Hjm Hlen Hshape Hval; simpl.
  - exists a. rewrite with_heap_id by done. split; [done|]. split; [done|].
    split; [done|]. intros i Hi. lia.
  - simpl in Hlen.
    destruct (lookup_lt_is_Some_2 a n) as [row Hrow]; [lia|].
    pose proof (Hshape n row Hrow) as Hrowlen.
    destruct (jaccard_row_run jm n co ib io (val n) clusters 0 w a row Hjm Hrow)
      as (row1 & Hrun1 & Hlen1 & Hrow1).
    { simpl. lia. }
    { intros t cb Ht. destruct (Hval 0 co t cb eq_refl Ht) as (bi & oi & ? & ? & Hv).
      rewrite Nat.add_0_r in Hv. by exists bi, oi. }
    set (a1 := <[n := row1]> a) in *.
    set (w1 := with_heap (<[jm := a1]> (heap w)) w) in *.
    destruct (IH (S n) w1 a1) as (a' & Hrun & Hlen' & Hother & Hfilled).
    + simpl. apply lookup_insert_eq.
    + unfold a1. rewrite length_insert. lia.
    + intros i r. unfold a1. destruct (decide (i = n)) as [->|Hne].
      * rewrite list_lookup_insert_eq by lia. intros [= <-]. congruence.
      * rewrite list_lookup_insert_ne by done. apply Hshape.
    + intros s co' t cb Hs Ht.
      destruct (Hval (S s) co' t cb Hs Ht) as (bi & oi & ? & ? & Hv).
      exists bi, oi. replace (S n + s) with (n + S s) by lia. done.
    + exists a'. split; [|split; [|split]].
      * rewrite (bind_Ok _ _ w tt w1 Hrun1), Hrun. f_equal. unfold w1. simpl.
        by rewrite with_heap_twice, insert_insert_eq.
      * rewrite Hlen'. unfold a1. by rewrite length_insert.
      * intros i Hi. rewrite Hother by lia. unfold a1.
        apply list_lookup_insert_ne. lia.
      * intros i Hi. destruct (decide (i = n)) as [->|Hne].
        -- rewrite Hother by lia. unfold a1. rewrite list_lookup_insert_eq by lia.
           exists row1. split; [done|]. split; [congruence|].
           intros t Ht. rewrite Hrow1. rewrite decide_True by (simpl; lia). done.
        -- apply Hfilled. lia.
Qed.

Lemma jaccard_matrix_run (clusters : list nat) (ib io : gmap nat indices)
    (val : nat -> nat -> float64) w :
  (forall s co t cb, clusters !! s = Some co -> clusters !! t = Some cb ->
     exists bi oi, ib !! cb = Some bi /\ io !! co = Some oi /\
                   jaccard_index oi bi = Ok (val s t)) ->
  let jm := fresh (dom (heap w)) in
  exists J,
    _compute_jaccard_matrix clusters ib io w
      = (Ok jm, with_heap (<[jm := J]> (heap w)) w) /\
    square (length clusters) J /\
    forall i j, i < length clusters -> j < length clusters ->
                entry J i j = Some (val i j).
Proof.
  intros Hval jm. set (k := length clusters).
  set (w0 := with_heap (<[jm := np_zeros k k]> (heap w)) w).
  destruct (jaccard_rows_run jm ib io val clusters clusters 0 w0 (np_zeros k k))
    as (J & Hrun & Hlen & _ & Hfilled).
  - simpl. apply lookup_insert_eq.
  - unfold np_zeros. rewrite length_replicate. simpl. lia.
  - unfold np_zeros. intros i row [-> _]%lookup_replicate. apply length_replicate.
  - intros s co t cb Hs Ht. simpl. by apply Hval.
  - exists J. split; [|split].
    + unfold _compute_jaccard_matrix.
      rewrite (bind_Ok _ _ w jm w0) by done.
      unfold enumerate at 1. rewrite (bind_Ok _ _ _ _ _ Hrun).
      unfold ret, w0. simpl. by rewrite with_heap_twice, insert_insert_eq.
    + unfold np_zeros in Hlen. rewrite length_replicate in Hlen. split; [done|].
      apply Forall_forall. intros row [i Hi]%list_elem_of_lookup.
      destruct (Hfilled i) as (row' & Hrow' & Hl & _).
      { apply lookup_lt_Some in Hi. simpl. fold k. lia. }
      rewrite Hi in Hrow'. by injection Hrow' as <-.
    + intros i j Hi Hj. destruct (Hfilled i) as (row' & Hrow' & _ & Hv); [simpl; lia|].
      unfold entry. rewrite Hrow'. simpl. by apply Hv.
Qed.

End HeapFacts.

Section MatchingFacts.

Lemma entry_Some a i j v :
  entry a i j = Some v <-> exists row, a !! i = Some row /\ row !! j = Some v.
Proof.
  unfold entry. destruct (a !! i) as [row|]; simpl.
  - split; [by exists row|]. by intros (? & [= <-] & ?).
  - split; [done|]. by intros (? & ? & ?).
Qed.

(** Lines 155-157 on an array without [nan]: the entry found is a largest
    one. *)
Lemma argmax_entry_spec n a :
  0 < n -> square n a -> comparable_entries a ->
  exists best r c v,
    argmax_entry a = Ok (best, r, c) /\
    entry a r c = Some v /\ feqb v best = true /\
    forall i j x, entry a i j = Some x -> fle x best = true.
Proof.
  intros Hn Hsq Hcmp.
  set (rowmax := fun row : list float64 =>
                   match row with x :: l => foldl fmax x l | [] => NaN end).
  assert (Hrows : forall row, row ∈ a ->
            row <> [] /\ Forall comparable row /\ np_max row = Ok (rowmax row) /\
            rowmax row ∈ row /\ forall y, y ∈ row -> fle y (rowmax row) = true).
  { intros row Hrow.
    assert (length row = n) as Hlen.
    { destruct Hsq as [_ H]. rewrite Forall_forall in H. by apply H. }
    assert (Forall comparable row) as Hc.
    { unfold comparable_entries in Hcmp. rewrite Forall_forall in Hcmp. by apply Hcmp. }
    destruct row as [|x l]; [simpl in Hlen; lia|].
    split; [done|]. split; [done|]. split; [done|].
    inversion Hc; subst. by apply foldl_fmax_spec. }
  assert (Hmax : mapR np_max a = Ok (rowmax <$> a)).
  { apply mapR_Ok_intro. intros row Hrow. by apply Hrows. }
  assert (Hne : rowmax <$> a <> []).
  { destruct a; [|done]. destruct Hsq as [Hl _]. simpl in Hl. lia. }
  assert (Hcm : Forall comparable (rowmax <$> a)).
  { apply Forall_fmap, Forall_forall. intros row Hrow. simpl.
    destruct (Hrows row Hrow) as (_ & Hc & _ & Hin & _).
    rewrite Forall_forall in Hc. by apply Hc. }
  destruct (np_argmax_spec _ Hne Hcm) as (best & r & y & Hbest & Hr & Hy & Hyb & Hub).
  apply list_lookup_fmap_Some in Hy as (row & -> & Hrow).
  destruct (Hrows row) as (Hrne & Hrc & _ & _ & Hrub); [by eapply list_elem_of_lookup_2|].
  destruct (np_argmax_spec _ Hrne Hrc) as (m & c & v & Hm & Hc & Hv & Hvm & _).
  assert (m = rowmax row) as ->.
  { destruct (Hrows row) as (_ & _ & E & _); [by eapply list_elem_of_lookup_2|]. congruence. }
  exists best, r, c, v. split; [|split; [|split]].
  - unfold argmax_entry. rewrite Hmax. simpl. rewrite Hbest. simpl. rewrite Hr. simpl.
    unfold index. rewrite Hrow. simpl. by rewrite Hc.
  - apply entry_Some. by exists row.
  - by eapply feqb_trans.
  - intros i j x (row' & Hrow' & Hx)%entry_Some.
    destruct (Hrows row') as (_ & _ & _ & _ & Hrub'); [by eapply list_elem_of_lookup_2|].
    eapply fle_trans; [apply Hrub'; by eapply list_elem_of_lookup_2|].
    apply Hub. apply list_elem_of_fmap. exists row'. split; [done|].
    by eapply list_elem_of_lookup_2.
Qed.

Lemma entry_square_lt n a i j v : square n a -> entry a i j = Some v -> i < n /\ j < n.
Proof.
  intros Hsq (row & Hrow & Hv)%entry_Some. split.
  - rewrite <- (proj1 Hsq). by eapply lookup_lt_Some.
  - rewrite <- (square_lookup _ _ _ _ Hsq Hrow). by eapply lookup_lt_Some.
Qed.

Lemma shape_square n a : square n a -> 0 < n -> (shape a).2 = n.
Proof.
  intros Hsq Hn. unfold shape. simpl. destruct a as [|row a].
  - destruct Hsq as [Hl _]. simpl in Hl. lia.
  - simpl. by apply (square_lookup n (row :: a) 0).
Qed.

Lemma strike_spec n a r c :
  square n a -> r < n -> c < n ->
  exists a', strike r c a = Ok a' /\ square n a' /\
    forall i j v, entry a i j = Some v ->
      entry a' i j = Some (if decide (i = r \/ j = c) then NInf else v).
Proof.
  intros Hsq Hr Hc.
  destruct (lookup_lt_is_Some_2 a r) as [rowr Hrowr]; [by rewrite (proj1 Hsq)|].
  pose proof (square_lookup _ _ _ _ Hsq Hrowr) as Hlenr.
  set (a1 := <[r := replicate (length rowr) NInf]> a).
  assert (Hsq1 : square n a1).
  { split; [unfold a1; rewrite length_insert; apply Hsq|].
    apply Forall_insert; [apply Hsq|]. by rewrite length_replicate. }
  assert (Hshape : (shape a1).2 = n) by (apply shape_square; [done|lia]).
  exists ((fun row => <[c := NInf]> row) <$> a1). split; [|split].
  - unfold strike, set_row, index. rewrite Hrowr. simpl. fold a1.
    unfold set_col. rewrite Hshape. by rewrite decide_True.
  - split; [rewrite length_fmap; apply Hsq1|].
    apply Forall_fmap, Forall_forall. intros row Hrow. simpl. rewrite length_insert.
    destruct Hsq1 as [_ H]. rewrite Forall_forall in H. by apply H.
  - intros i j v Hv. pose proof (entry_square_lt _ _ _ _ _ Hsq Hv) as [Hi Hj].
    apply entry_Some in Hv as (row & Hrow & Hv).
    unfold entry. rewrite list_lookup_fmap. unfold a1.
    rewrite list_lookup_insert. destruct (decide (r = i /\ r < length a)) as [[-> _]|Hne].
    + simpl. rewrite list_lookup_insert, length_replicate.
      destruct (decide (c = j /\ c < length rowr)) as [[-> _]|Hne].
      * by rewrite decide_True by auto.
      * rewrite lookup_replicate_2 by lia. by rewrite decide_True by auto.
    + rewrite Hrow. simpl. rewrite list_lookup_insert.
      rewrite (square_lookup _ _ _ _ Hsq Hrow).
      destruct (decide (c = j /\ c < n)) as [[-> _]|Hne'].
      * by rewrite decide_True by auto.
      * rewrite Hv. rewrite decide_False; [done|]. rewrite (proj1 Hsq) in Hne. lia.
Qed.

Lemma free_index n (R : list nat) :
  NoDup R -> length R < n -> exists i, i < n /\ i ∉ R.
Proof.
  intros Hnd Hlen.
  destruct (decide (Forall (fun i => i ∈ R) (seq 0 n))) as [Hall|Hex].
  - assert (seq 0 n ⊆+ R) as Hsub.
    { apply NoDup_submseteq; [apply NoDup_seq|]. rewrite Forall_forall in Hall. done. }
    apply submseteq_length in Hsub. rewrite length_seq in Hsub. lia.
  - apply not_Forall_Exists in Hex; [|tc_solve].
    apply Exists_exists in Hex as (i & Hi%elem_of_seq & Hni). exists i. split; [lia|done].
Qed.

Lemma struck_comparable J n R C a :
  square n J -> (forall i j v, entry J i j = Some v -> is_num v) ->
  square n a -> struck J R C a -> comparable_entries a.
Proof.
  intros HJ Hnum Ha Hst. apply Forall_forall. intros row [i Hrow]%list_elem_of_lookup.
  apply Forall_forall. intros x [j Hx]%list_elem_of_lookup.
  assert (entry a i j = Some x) as He by (apply entry_Some; eauto).
  destruct (entry_square_lt _ _ _ _ _ Ha He) as [Hi Hj].
  destruct (square_entry n J i j HJ Hi Hj) as [v Hv].
  rewrite (Hst i j v Hv) in He. injection He as <-.
  destruct (decide _); [done|]. apply is_num_comparable. by eapply Hnum.
Qed.

Lemma struck_step J R C a a' r c :
  struck J R C a ->
  (forall i j v, entry a i j = Some v ->
     entry a' i j = Some (if decide (i = r \/ j = c) then NInf else v)) ->
  struck J (r :: R) (c :: C) a'.
Proof.
  intros Hst Ha' i j v Hv. rewrite (Ha' i j _ (Hst i j v Hv)). f_equal.
  destruct (decide (i = r \/ j = c)) as [H|H].
  - rewrite decide_True; [done|]. rewrite !elem_of_cons. tauto.
  - destruct (decide (i ∈ R \/ j ∈ C)) as [H'|H'].
    + rewrite decide_True; [done|]. rewrite !elem_of_cons. tauto.
    + rewrite decide_False; [done|]. rewrite !elem_of_cons. tauto.
Qed.

Lemma struck_equiv J R C R' C' a :
  (forall i, i ∈ R <-> i ∈ R') -> (forall j, j ∈ C <-> j ∈ C') ->
  struck J R C a -> struck J R' C' a.
Proof.
  intros HR HC Hst i j v Hv. rewrite (Hst i j v Hv). f_equal.
  destruct (decide (i ∈ R \/ j ∈ C)) as [H|H].
  - rewrite decide_True; [done|]. rewrite <- HR, <- HC. done.
  - rewrite decide_False; [done|]. rewrite <- HR, <- HC. done.
Qed.

Lemma matching_replay_spec J n :
  square n J -> (forall i j v, entry J i j = Some v -> is_num v) ->
  forall m R C a,
    square n a -> struck J R C a -> NoDup R -> NoDup C ->
    length C = length R -> length R + m <= n ->
    exists picks a',
      matching_replay m a = Ok (picks, a') /\ length picks = m /\
      greedy_from J n R C picks /\ square n a' /\
      struck J (pick_rows picks ++ R) (pick_cols picks ++ C) a'.
Proof.
  intros HJ Hnum. induction m as [|m IH]; intros R C a Ha Hst HR HC HCR Hlen.
  - exists [], a. simpl. split; [done|]. split; [done|]. split; [constructor|]. done.
  - assert (0 < n) as Hn by lia.
    destruct (free_index n R HR) as (i0 & Hi0 & Hi0R); [lia|].
    destruct (free_index n C HC) as (j0 & Hj0 & Hj0C); [lia|].
    pose proof (struck_comparable J n R C a HJ Hnum Ha Hst) as Hcmp.
    destruct (argmax_entry_spec n a Hn Ha Hcmp) as (best & r & c & v0 & Harg & Hrc & Hv0 & Hub).
    destruct (entry_square_lt _ _ _ _ _ Ha Hrc) as [Hr Hc].
    destruct (square_entry n J r c HJ Hr Hc) as [vJ HvJ].
    destruct (square_entry n J i0 j0 HJ Hi0 Hj0) as [v00 Hv00].
    assert (fle v00 best = true) as Hfree.
    { apply (Hub i0 j0). rewrite (Hst i0 j0 v00 Hv00).
      rewrite decide_False; [done|]. tauto. }
    assert (is_num v00) as Hnum00 by (by eapply Hnum).
    assert (~ (r ∈ R \/ c ∈ C) /\ v0 = vJ) as [Hfresh ->].
    { rewrite (Hst r c vJ HvJ) in Hrc. injection Hrc as <-.
      destruct (decide (r ∈ R \/ c ∈ C)) as [H|H]; [|done].
      exfalso. destruct best; try done. by destruct v00. }
    destruct (strike_spec n a r c Ha Hr Hc) as (a1 & Hstrike & Ha1 & Hent).
    destruct (IH (r :: R) (c :: C) a1) as (picks & a' & Hrun & Hlp & Hgreedy & Ha' & Hst').
    + done.
    + by eapply struck_step.
    + constructor; [tauto|done].
    + constructor; [tauto|done].
    + simpl. lia.
    + simpl. lia.
    + exists ((r, c, best) :: picks), a'. split; [|split; [|split; [|split]]].
      * simpl. rewrite Harg. simpl. rewrite Hstrike. simpl. by rewrite Hrun.
      * simpl. lia.
      * eapply greedy_pick; eauto; try tauto.
        intros i j x Hi Hj Hx. apply (Hub i j). rewrite (Hst i j x Hx).
        rewrite decide_False; [done|]. tauto.
      * done.
      * eapply struck_equiv; [| |exact Hst'].
        -- intros i. unfold pick_rows. rewrite !fmap_cons. simpl.
           rewrite ?elem_of_app, ?elem_of_cons, ?elem_of_app. tauto.
        -- intros j. unfold pick_cols. rewrite !fmap_cons. simpl.
           rewrite ?elem_of_app, ?elem_of_cons, ?elem_of_app. tauto.
Qed.

Lemma greedy_from_NoDup J n R C picks :
  greedy_from J n R C picks -> NoDup R -> NoDup C ->
  NoDup (pick_rows picks ++ R) /\ NoDup (pick_cols picks ++ C) /\
  (forall r, r ∈ pick_rows picks -> r < n) /\ (forall c, c ∈ pick_cols picks -> c < n).
Proof.
  induction 1 as [R C|R C r c best v picks Hr Hc HrR HcC Hv Hb Hub Hrest IH];
    intros HR HC.
  - split; [done|]. split; [done|]. split; intros ? Hin; by apply elem_of_nil in Hin.
  - destruct IH as (IHR & IHC & IHr & IHc); [by constructor..|].
    unfold pick_rows, pick_cols in *. rewrite !fmap_cons. simpl.
    split; [|split; [|split]].
    + apply NoDup_app in IHR as (H1 & H2 & H3). apply NoDup_cons in H3 as [H3 H4].
      constructor.
      * rewrite elem_of_app. intros [Hin|Hin]; [|done]. apply (H2 r Hin). by left.
      * apply NoDup_app. split; [done|]. split; [|done].
        intros x Hx Hx'. apply (H2 x Hx). by right.
    + apply NoDup_app in IHC as (H1 & H2 & H3). apply NoDup_cons in H3 as [H3 H4].
      constructor.
      * rewrite elem_of_app. intros [Hin|Hin]; [|done]. apply (H2 c Hin). by left.
      * apply NoDup_app. split; [done|]. split; [|done].
        intros x Hx Hx'. apply (H2 x Hx). by right.
    + intros x [->|Hx]%elem_of_cons; [done|by apply IHr].
    + intros x [->|Hx]%elem_of_cons; [done|by apply IHc].
Qed.

Lemma NoDup_bounded_Permutation n (l : list nat) :
  NoDup l -> (forall x, x ∈ l -> x < n) -> length l = n -> l ≡ₚ seq 0 n.
Proof.
  intros Hnd Hlt Hlen. apply submseteq_length_Permutation.
  - apply NoDup_submseteq; [done|]. intros x Hx. apply elem_of_seq. split; [lia|].
    by apply Hlt.
  - rewrite length_seq. lia.
Qed.

(** The same, by position in the sequence of picks. *)
Lemma greedy_from_lookup J n R C picks t r c best :
  greedy_from J n R C picks -> picks !! t = Some (r, c, best) ->
  r < n /\ c < n /\
  (r ∉ pick_rows (take t picks) ++ R) /\ (c ∉ pick_cols (take t picks) ++ C) /\
  (exists v, entry J r c = Some v /\ feqb v best = true) /\
  forall i j x, i ∉ pick_rows (take t picks) ++ R -> j ∉ pick_cols (take t picks) ++ C ->
                entry J i j = Some x -> fle x best = true.
Proof.
  intros Hg. revert t.
  induction Hg as [R C|R C r0 c0 best0 v picks Hr Hc HrR HcC Hv Hb Hub Hrest IH];
    intros t Ht; [done|].
  destruct t as [|t]; simpl in Ht.
  - injection Ht as -> -> ->. simpl. eauto 10.
  - destruct (IH t Ht) as (Hr' & Hc' & HrR' & HcC' & Hv' & Hub').
    unfold pick_rows, pick_cols in *. simpl. rewrite ?fmap_cons. simpl.
    assert (forall (x y : nat) (l k : list nat), x ∉ l ++ y :: k <-> x ∉ (y :: l) ++ k) as E.
    { intros x y l k. rewrite ?elem_of_app, ?elem_of_cons, ?elem_of_app. tauto. }
    split; [done|]. split; [done|]. split; [by apply E|]. split; [by apply E|].
    split; [done|]. intros i j x Hi Hj. apply Hub'; by apply E.
Qed.

Lemma rbind_inv_Ok {A B} (r : res A) (k : A -> res B) b :
  rbind r k = Ok b -> exists a, r = Ok a /\ k a = Ok b.
Proof. destruct r as [a|e]; simpl; [|done]. by exists a. Qed.

Lemma credit_all (clusters : list nat) :
  NoDup clusters ->
  forall picks (ipc : gmap nat float64),
    NoDup (pick_rows picks) ->
    (forall r, r ∈ pick_rows picks -> r < length clusters) ->
    (forall c, c ∈ clusters -> is_Some (ipc !! c)) ->
    exists ipc',
      foldR (fun p d => credit clusters d p) picks ipc = Ok ipc' /\
      (forall c, c ∈ clusters -> is_Some (ipc' !! c)) /\
      (forall t r c best oc total,
         picks !! t = Some (r, c, best) -> clusters !! r = Some oc ->
         ipc !! oc = Some total -> ipc' !! oc = Some (fadd total best)) /\
      (forall oc, (forall r, r ∈ pick_rows picks -> clusters !! r <> Some oc) ->
                  ipc' !! oc = ipc !! oc).
Proof.
  intros Hnd. induction picks as [|[[r c] best] picks IH]; intros ipc Hrows Hlt Hkeys.
  - exists ipc. simpl. split; [done|]. split; [done|]. split; [done|]. done.
  - unfold pick_rows in *. rewrite !fmap_cons in *. simpl in *.
    apply NoDup_cons in Hrows as [Hr Hrows].
    destruct (lookup_lt_is_Some_2 clusters r) as [oc Hoc]; [apply Hlt; by left|].
    destruct (Hkeys oc) as [total Htotal]; [by eapply list_elem_of_lookup_2|].
    set (ipc1 := <[oc := fadd total best]> ipc).
    destruct (IH ipc1) as (ipc' & Hrun & Hkeys' & Hcred & Hother).
    + done.
    + intros r' Hr'. apply Hlt. by right.
    + intros c' Hc'. unfold ipc1. rewrite lookup_insert. destruct (decide (oc = c')); [done|].
      by apply Hkeys.
    + exists ipc'. split; [|split; [|split]].
      * unfold credit at 1. simpl. unfold index, dict_get. rewrite Hoc. simpl.
        rewrite Htotal. simpl. exact Hrun.
      * done.
      * intros t r' c' best' oc' total' Ht Hoc' Htot'. destruct t as [|t]; simpl in Ht.
        -- injection Ht as <- <- <-. rewrite Hoc in Hoc'. injection Hoc' as <-.
           rewrite Htotal in Htot'. injection Htot' as <-.
           rewrite Hother; [apply lookup_insert_eq|].
           intros r' Hr' Hoc'.
           assert (r' = r) as -> by (eapply (NoDup_lookup clusters); eauto). done.
        -- assert (r' ∈ picks.*1.*1) as Hin.
           { apply list_elem_of_fmap. exists (r', c'). split; [done|].
             apply list_elem_of_fmap. exists (r', c', best'). split; [done|].
             by eapply list_elem_of_lookup_2. }
           assert (oc' <> oc) as Hne.
           { intros ->.
             assert (r' = r) as -> by (eapply (NoDup_lookup clusters); eauto). done. }
           eapply Hcred; [exact Ht|exact Hoc'|]. unfold ipc1.
           by rewrite lookup_insert_ne.
      * intros oc' Hoc'. rewrite Hother.
        -- unfold ipc1. apply lookup_insert_ne. intros ->. apply (Hoc' r); [by left|done].
        -- intros r' Hr'. apply Hoc'. by right.
Qed.

End MatchingFacts.

Section MatchingRun.
Context {G : Type} {RS : RandomState G}.
Implicit Types w : world G.

Lemma matching_step_run jm clusters ipc w a best r c a' ipc' :
  heap w !! jm = Some a ->
  argmax_entry a = Ok (best, r, c) ->
  strike r c a = Ok a' ->
  credit clusters ipc (r, c, best) = Ok ipc' ->
  matching_step jm clusters ipc w = (Ok ipc', with_heap (<[jm := a']> (heap w)) w).
Proof.
  intros Hjm Harg Hstrike Hcredit. unfold matching_step.
  rewrite (bind_Ok _ _ w a w) by (by apply np_read_run).
  rewrite (bind_Ok _ _ w (best, r, c) w) by (by rewrite lift_run, Harg).
  unfold strike in Hstrike. apply rbind_inv_Ok in Hstrike as (a1 & Hrow & Hcol).
  simpl.
  rewrite (bind_Ok _ _ w tt _ (np_update_run w jm a _ a1 Hjm Hrow)).
  erewrite bind_Ok; [|eapply np_update_run; [apply lookup_insert_eq|exact Hcol]].
  simpl. rewrite insert_insert_eq.
  unfold credit in Hcredit. simpl in Hcredit.
  apply rbind_inv_Ok in Hcredit as (oc & Hoc & Hcredit).
  apply rbind_inv_Ok in Hcredit as (total & Htotal & Hcredit).
  injection Hcredit as <-.
  erewrite bind_Ok; [|by rewrite lift_run, Hoc].
  erewrite bind_Ok; [|by rewrite lift_run, Htotal].
  done.
Qed.

Lemma matching_loop_run jm clusters :
  forall m s a w ipc picks a' ipc',
    heap w !! jm = Some a ->
    matching_replay m a = Ok (picks, a') ->
    foldR (fun p d => credit clusters d p) picks ipc = Ok ipc' ->
    for_each (seq s m) (fun _ d => matching_step jm clusters d) ipc w
      = (Ok ipc', with_heap (<[jm := a']> (heap w)) w).
Proof.
  induction m as [|m IH]; intros s a w ipc picks a' ipc' Hjm Hreplay Hcredit; simpl in *.
  - injection Hreplay as <- <-. simpl in Hcredit. injection Hcredit as <-.
    by rewrite with_heap_id.
  - apply rbind_inv_Ok in Hreplay as ([[best r] c] & Harg & Hreplay).
    apply rbind_inv_Ok in Hreplay as (a1 & Hstrike & Hreplay).
    apply rbind_inv_Ok in Hreplay as ([rest a2] & Hrest & Hreplay).
    simpl in Hreplay. injection Hreplay as <- <-.
    simpl in Hcredit. apply rbind_inv_Ok in Hcredit as (ipc1 & Hc1 & Hcredit).
    rewrite (bind_Ok _ _ w ipc1 _
               (matching_step_run jm clusters ipc w a best r c a1 ipc1 Hjm Harg Hstrike Hc1)).
    erewrite IH; [|apply lookup_insert_eq|exact Hrest|exact Hcredit].
    simpl. by rewrite insert_insert_eq.
Qed.

Lemma greedy_matching_run jm clusters w a ipc picks a' ipc' :
  heap w !! jm = Some a ->
  matching_replay (length a) a = Ok (picks, a') ->
  foldR (fun p d => credit clusters d p) picks ipc = Ok ipc' ->
  greedy_matching jm clusters ipc w = (Ok ipc', with_heap (<[jm := a']> (heap w)) w).
Proof.
  intros Hjm Hreplay Hcredit. unfold greedy_matching.
  rewrite (bind_Ok _ _ w a w) by (by apply np_read_run).
  by eapply matching_loop_run.
Qed.

End MatchingRun.

Section JaccardFacts.

Lemma elem_of_members labels c i : i ∈ members labels c <-> labels !! i = Some c.
Proof.
  unfold members. rewrite list_elem_of_filter, elem_of_seq. split; [tauto|].
  intros H. split; [done|]. apply lookup_lt_Some in H. lia.
Qed.

Lemma members_nonempty labels c :
  c ∈ labels -> size (list_to_set (members labels c) : gset nat) <> 0.
Proof.
  intros [i Hi]%list_elem_of_lookup Hsize. apply size_empty_iff in Hsize.
  assert (i ∈ (list_to_set (members labels c) : gset nat)) as Hin.
  { apply elem_of_list_to_set, elem_of_members, Hi. }
  rewrite Hsize in Hin. by apply not_elem_of_empty in Hin.
Qed.

Lemma members_disjoint labels c c' :
  c <> c' ->
  (list_to_set (members labels c) : gset nat) ∩ list_to_set (members labels c') = ∅.
Proof.
  intros Hne. apply set_eq. intros i.
  rewrite elem_of_intersection, !elem_of_list_to_set, !elem_of_members.
  split; [|by intros ?%not_elem_of_empty]. intros [H1 H2]. congruence.
Qed.

Lemma foldR_insert_inv {V} (f : nat -> res V) cs : forall (d0 d' : gmap nat V),
  foldR (fun c d => v <-- f c ;; Ok (<[c := v]> d)) cs d0 = Ok d' ->
  (forall c, c ∈ cs -> exists v, f c = Ok v /\ d' !! c = Some v) /\
  (forall c, c ∉ cs -> d' !! c = d0 !! c).
Proof.
  induction cs as [|c0 cs IH]; intros d0 d' H; simpl in H.
  - injection H as <-. split; [by intros c ?%elem_of_nil|done].
  - apply rbind_inv_Ok in H as (d1 & H1 & H).
    apply rbind_inv_Ok in H1 as (v0 & Hv0 & H1). injection H1 as <-.
    destruct (IH _ _ H) as [Hin Hout]. split.
    + intros c [->|Hc]%elem_of_cons.
      * destruct (decide (c0 ∈ cs)) as [Hc|Hc]; [by apply Hin|].
        exists v0. split; [done|]. rewrite Hout by done. apply lookup_insert_eq.
      * by apply Hin.
    + intros c Hc. apply not_elem_of_cons in Hc as [Hne Hc].
      rewrite Hout by done. by apply lookup_insert_ne.
Qed.

Lemma foldR_insert_is_Ok {V} (f : nat -> res V) cs : forall (d0 : gmap nat V),
  (forall c, c ∈ cs -> exists v, f c = Ok v) ->
  exists d', foldR (fun c d => v <-- f c ;; Ok (<[c := v]> d)) cs d0 = Ok d'.
Proof.
  induction cs as [|c0 cs IH]; intros d0 H; simpl; [by eexists|].
  destruct (H c0) as [v0 ->]; [by left|]. simpl.
  apply IH. intros c Hc. apply H. by right.
Qed.

Lemma translate_original labels :
  exists io,
    _translate_cluster_labels_to_dictionary_of_index_sets_per_cluster labels None = Ok io /\
    forall c, c ∈ np_unique labels ->
              io !! c = Some (IdxSet (list_to_set (members labels c))).
Proof.
  unfold _translate_cluster_labels_to_dictionary_of_index_sets_per_cluster.
  destruct (foldR_insert_is_Ok
              (fun c => Ok (IdxSet (list_to_set (members labels c)))) (np_unique labels) ∅)
    as [io Hio]; [by eauto|].
  exists io. split; [exact Hio|]. intros c Hc.
  destruct (foldR_insert_inv _ _ _ _ Hio) as [Hin _].
  destruct (Hin c Hc) as (v & [= <-] & Hv). done.
Qed.

Lemma jaccard_index_set (so : gset nat) (b : indices) :
  size so <> 0 ->
  exists q, jaccard_index (IdxSet so) b = Ok (Num q) /\
            (q == inject_Z (Z.of_nat (size (so ∩ as_set b)))
                  / inject_Z (Z.of_nat (size (so ∪ as_set b))))%Q.
Proof.
  intros Hso. unfold jaccard_index.
  assert (size (so ∪ as_set b) <> 0) as Hu.
  { intros Hu. apply size_empty_iff in Hu. apply Hso, size_empty_iff.
    apply set_equiv. intros x. split; [|by intros ?%not_elem_of_empty].
    intros Hx. apply (proj1 (Hu x)). apply elem_of_union. by left. }
  rewrite decide_False by done. unfold of_nat. rewrite fdiv_Num.
  - eexists. split; [reflexivity|]. apply Qred_correct.
  - assert (0 < inject_Z (Z.of_nat (size (so ∪ as_set b))))%Q; [|lra].
    apply inject_nat_pos. lia.
Qed.

End JaccardFacts.

Section RoundFacts.
Context {G : Type} {RS : RandomState G}.
Implicit Types w : world G.

(** The Jaccard matrix of a round and the matching on it, when every
    original cluster id is a key of the bootstrap dictionary. *)
Lemma jaccard_round_run (labels : list nat) (ib io : gmap nat indices)
    (ipc : gmap nat float64) w :
  let clusters := np_unique labels in
  let k := length clusters in
  let jm := fresh (dom (heap w)) in
  _translate_cluster_labels_to_dictionary_of_index_sets_per_cluster labels None = Ok io ->
  (forall c, c ∈ clusters -> is_Some (ib !! c)) ->
  (forall c, c ∈ clusters -> is_Some (ipc !! c)) ->
  exists J picks a' ipc',
    _compute_jaccard_matrix clusters ib io w
      = (Ok jm, with_heap (<[jm := J]> (heap w)) w) /\
    square k J /\
    (forall i j ci cj, clusters !! i = Some ci -> clusters !! j = Some cj ->
       exists bj q,
         ib !! cj = Some bj /\ entry J i j = Some (Num q) /\
         (q == inject_Z (Z.of_nat (size (list_to_set (members labels ci) ∩ as_set bj)))
               / inject_Z (Z.of_nat (size (list_to_set (members labels ci) ∪ as_set bj))))%Q) /\
    greedy_matching jm clusters ipc (with_heap (<[jm := J]> (heap w)) w)
      = (Ok ipc', with_heap (<[jm := a']> (heap w)) w) /\
    matching_replay k J = Ok (picks, a') /\
    length picks = k /\
    greedy_from J k [] [] picks /\
    square k a' /\
    struck J (pick_rows picks) (pick_cols picks) a' /\
    (forall c, c ∈ clusters -> is_Some (ipc' !! c)) /\
    (forall t r c best oc total,
       picks !! t = Some (r, c, best) -> clusters !! r = Some oc ->
       ipc !! oc = Some total -> ipc' !! oc = Some (fadd total best)) /\
    (forall oc, oc ∉ clusters -> ipc' !! oc = ipc !! oc).
Proof.
  intros clusters k jm Hio Hib Hipc.
  destruct (translate_original labels) as (io' & Hio' & Hsets).
  rewrite Hio in Hio'. injection Hio' as <-.
  set (val := fun s t =>
    match clusters !! s, clusters !! t with
    | Some co, Some cb =>
        match io !! co, ib !! cb with
        | Some oi, Some bi =>
            match jaccard_index oi bi with Ok v => v | Raise _ => NaN end
        | _, _ => NaN
        end
    | _, _ => NaN
    end).
  assert (Hval : forall s co t cb, clusters !! s = Some co -> clusters !! t = Some cb ->
            exists bi q, ib !! cb = Some bi /\
              io !! co = Some (IdxSet (list_to_set (members labels co))) /\
              jaccard_index (IdxSet (list_to_set (members labels co))) bi = Ok (Num q) /\
              val s t = Num q /\
              (q == inject_Z (Z.of_nat (size (list_to_set (members labels co) ∩ as_set bi)))
                    / inject_Z (Z.of_nat (size (list_to_set (members labels co) ∪ as_set bi))))%Q).
  { intros s co t cb Hs Ht.
    assert (co ∈ clusters) as Hco by (by eapply list_elem_of_lookup_2).
    assert (cb ∈ clusters) as Hcb by (by eapply list_elem_of_lookup_2).
    destruct (Hib cb Hcb) as [bi Hbi].
    destruct (jaccard_index_set (list_to_set (members labels co)) bi) as (q & Hq & Hqv).
    { apply members_nonempty. by apply elem_of_np_unique. }
    exists bi, q. split; [done|]. split; [by apply Hsets|]. split; [done|]. split; [|done].
    unfold val. by rewrite Hs, Ht, (Hsets co Hco), Hbi, Hq. }
  destruct (jaccard_matrix_run clusters ib io val w) as (J & Hrun & HJ & Hent).
  { intros s co t cb Hs Ht. destruct (Hval s co t cb Hs Ht) as (bi & q & ? & ? & ? & E & _).
    exists bi, (IdxSet (list_to_set (members labels co))). rewrite E. done. }
  fold k jm in Hrun, HJ, Hent.
  assert (Hnum : forall i j v, entry J i j = Some v -> is_num v).
  { intros i j v Hv. destruct (entry_square_lt _ _ _ _ _ HJ Hv) as [Hi Hj].
    destruct (lookup_lt_is_Some_2 clusters i Hi) as [ci Hci].
    destruct (lookup_lt_is_Some_2 clusters j Hj) as [cj Hcj].
    destruct (Hval i ci j cj Hci Hcj) as (bi & q & _ & _ & _ & E & _).
    rewrite (Hent i j Hi Hj), E in Hv. by injection Hv as <-. }
  destruct (matching_replay_spec J k HJ Hnum k [] [] J) as (picks & a' & Hreplay & Hlen & Hg & Ha' & Hst).
  { done. }
  { intros i j v Hv. rewrite Hv. by rewrite decide_False by (rewrite !elem_of_nil; tauto). }
  { constructor. }
  { constructor. }
  { done. }
  { simpl. lia. }
  rewrite !app_nil_r in Hst.
  destruct (greedy_from_NoDup J k [] [] picks Hg) as (Hrows & _ & Hrlt & _);
    [constructor..|]. rewrite app_nil_r in Hrows.
  destruct (credit_all clusters (NoDup_np_unique labels) picks ipc Hrows Hrlt Hipc)
    as (ipc' & Hcredit & Hkeys & Hcred & Hother).
  exists J, picks, a', ipc'. split; [done|]. split; [done|]. split.
  { intros i j ci cj Hci Hcj.
    destruct (Hval i ci j cj Hci Hcj) as (bi & q & Hbi & _ & _ & E & Hq).
    exists bi, q. split; [done|]. split; [|done]. rewrite <- E. apply Hent.
    - by eapply lookup_lt_Some.
    - by eapply lookup_lt_Some. }
  split.
  { erewrite greedy_matching_run; [|apply lookup_insert_eq| |exact Hcredit].
    - simpl. by rewrite insert_insert_eq.
    - rewrite (proj1 HJ). exact Hreplay. }
  split; [done|]. split; [done|]. split; [done|]. split; [done|]. split; [done|].
  split; [done|]. split; [done|].
  intros oc Hoc. apply Hother. intros r _ Hr. apply Hoc. by eapply list_elem_of_lookup_2.
Qed.

End RoundFacts.

Section IdentityMatching.

Lemma feqb_sym x y : feqb x y = true -> feqb y x = true.
Proof.
  destruct x as [| |a|], y as [| |b|]; try done. rewrite !feqb_Num. by intros ->.
Qed.

(** On a matrix with ones on the diagonal and zeros elsewhere every pick is
    a one. *)
Lemma greedy_from_identity J k :
  (forall i, i < k -> exists q, entry J i i = Some (Num q) /\ (q == 1)%Q) ->
  (forall i j, i < k -> j < k -> i <> j ->
     exists q, entry J i j = Some (Num q) /\ (q == 0)%Q) ->
  forall R C picks,
    greedy_from J k R C picks ->
    NoDup R -> (forall i, i ∈ R <-> i ∈ C) -> length R + length picks <= k ->
    forall p, p ∈ picks -> feqb p.2 (Num 1) = true.
Proof.
  intros Hdiag Hoff R C picks Hg.
  induction Hg as [R C|R C r c best v picks Hr Hc HrR HcC Hv Hb Hub Hrest IH];
    intros HR HRC Hlen p Hp; [by apply elem_of_nil in Hp|].
  simpl in Hlen.
  destruct (free_index k R HR) as (i0 & Hi0 & Hi0R); [lia|].
  destruct (Hdiag i0 Hi0) as (q1 & Hq1 & Hq1v).
  assert (fle (Num q1) best = true) as Hle.
  { apply (Hub i0 i0); [done| |done]. by rewrite <- HRC. }
  assert (r = c /\ feqb best (Num 1) = true) as [-> Hbest].
  { destruct (decide (r = c)) as [->|Hne].
    - split; [done|]. destruct (Hdiag c Hc) as (q & Hq & Hqv).
      rewrite Hq in Hv. injection Hv as <-. apply feqb_sym.
      eapply feqb_trans; [|exact Hb]. apply feqb_Num. by rewrite Hqv.
    - exfalso. destruct (Hoff r c Hr Hc Hne) as (q & Hq & Hqv).
      rewrite Hq in Hv. injection Hv as <-.
      destruct best as [| |b|]; try done.
      apply feqb_Num in Hb. apply fle_Num in Hle. lra. }
  apply elem_of_cons in Hp as [->|Hp]; [done|].
  apply IH; [by constructor| |simpl; lia|done].
  intros i. rewrite !elem_of_cons, HRC. done.
Qed.

End IdentityMatching.

Section StabilityFacts.
Context {G : Type} {RS : RandomState G}.
Implicit Types w : world G.

Lemma bootstrap_round_run dm cm (labels : list nat) (io ib : gmap nat indices)
    (ipc : gmap nat float64) w d n :
  let clusters := np_unique labels in
  let k := length clusters in
  heap w !! dm = Some d -> square n d ->
  _translate_cluster_labels_to_dictionary_of_index_sets_per_cluster labels None = Ok io ->
  bootstrap_index_sets cm d (np_random w) = Ok ib ->
  (forall c, c ∈ clusters -> is_Some (ib !! c)) ->
  (forall c, c ∈ clusters -> is_Some (ipc !! c)) ->
  exists J picks a' ipc' w',
    bootstrap_round dm cm clusters io ipc w = (Ok ipc', w') /\
    heap w' !! dm = Some d /\
    np_random w' = next_generator n (np_random w) /\
    square k J /\
    (forall i j ci cj, clusters !! i = Some ci -> clusters !! j = Some cj ->
       exists bj q,
         ib !! cj = Some bj /\ entry J i j = Some (Num q) /\
         (q == inject_Z (Z.of_nat (size (list_to_set (members labels ci) ∩ as_set bj)))
               / inject_Z (Z.of_nat (size (list_to_set (members labels ci) ∪ as_set bj))))%Q) /\
    matching_replay k J = Ok (picks, a') /\
    length picks = k /\
    greedy_from J k [] [] picks /\
    (forall c, c ∈ clusters -> is_Some (ipc' !! c)) /\
    (forall t r c best oc total,
       picks !! t = Some (r, c, best) -> clusters !! r = Some oc ->
       ipc !! oc = Some total -> ipc' !! oc = Some (fadd total best)) /\
    (forall oc, oc ∉ clusters -> ipc' !! oc = ipc !! oc).
Proof.
  intros clusters k Hdm Hsq Hio Hib Hkeys Hipc.
  unfold bootstrap_index_sets in Hib.
  apply rbind_inv_Ok in Hib as (b & Hres & Hib).
  apply rbind_inv_Ok in Hib as (bootstrapped_labels & Hcm & Hib).
  unfold resample in Hres. apply rbind_inv_Ok in Hres as (cols & Hcols & Hrows).
  pose proof (bootstrap_matrix_run dm w d cols b Hdm Hcols Hrows) as Hboot.
  simpl in Hboot.
  set (l1 := fresh (dom (heap w))) in *.
  set (l2 := fresh (dom (<[l1 := cols]> (heap w)))) in *.
  set (w1 := World (<[l2 := b]> (<[l1 := cols]> (heap w)))
               (choice (np_random w) (length d)).2 (np_random_seed w) (stdout w)) in *.
  destruct (jaccard_round_run labels ib io ipc w1 Hio Hkeys Hipc)
    as (J & picks & a' & ipc' & Hjac & HJ & Hent & Hgreedy & Hreplay & Hlen & Hg & _ & _
        & Hkeys' & Hcred & Hother).
  assert (Hrun : bootstrap_round dm cm clusters io ipc w
                 = (Ok ipc', with_heap (<[fresh (dom (heap w1)) := a']> (heap w1)) w1)).
  { unfold bootstrap_round. rewrite (bind_Ok _ _ _ _ _ Hboot).
    rewrite (bind_Ok _ _ w1 b w1) by (apply np_read_run; apply lookup_insert_eq).
    rewrite (bind_Ok _ _ w1 bootstrapped_labels w1) by (by rewrite lift_run, Hcm).
    rewrite (bind_Ok _ _ w1 ib w1) by (by rewrite lift_run, Hib).
    fold clusters. rewrite (bind_Ok _ _ _ _ _ Hjac). exact Hgreedy. }
  eexists J, picks, a', ipc', _. split; [exact Hrun|].
  split.
  { pose proof (bootstrap_round_grows dm cm clusters io ipc w) as [Hsub _].
    rewrite Hrun in Hsub. simpl in Hsub. eapply lookup_weaken; [exact Hdm|exact Hsub]. }
  split.
  { simpl. unfold next_generator. by rewrite (proj1 Hsq). }
  done.
Qed.

Lemma pick_rows_lookup picks r :
  r ∈ pick_rows picks -> exists t c best, picks !! t = Some (r, c, best).
Proof.
  unfold pick_rows. intros ([r' c] & -> & ([[r'' c'] best] & [= <- <-] & Hin)%list_elem_of_fmap)%list_elem_of_fmap.
  apply list_elem_of_lookup in Hin as [t Ht]. simpl. eauto.
Qed.

Lemma round_without_noise dm cm (labels : list nat) (io ib : gmap nat indices)
    (ipc : gmap nat float64) w d n t :
  let clusters := np_unique labels in
  heap w !! dm = Some d -> square n d ->
  _translate_cluster_labels_to_dictionary_of_index_sets_per_cluster labels None = Ok io ->
  bootstrap_index_sets cm d (np_random w) = Ok ib ->
  same_index_sets clusters io ib ->
  totals_are clusters t ipc ->
  exists ipc' w',
    bootstrap_round dm cm clusters io ipc w = (Ok ipc', w') /\
    heap w' !! dm = Some d /\
    np_random w' = next_generator n (np_random w) /\
    totals_are clusters (S t) ipc'.
Proof.
  intros clusters Hdm Hsq Hio Hib Hsame Htot.
  destruct (translate_original labels) as (io' & Hio' & Hsets).
  rewrite Hio in Hio'. injection Hio' as <-.
  destruct (bootstrap_round_run dm cm labels io ib ipc w d n Hdm Hsq Hio Hib)
    as (J & picks & a' & ipc' & w' & Hrun & Hdm' & Hg' & HJ & Hent & _ & Hlen & Hgreedy
        & Hkeys' & Hcred & _).
  { intros c Hc. destruct (Hsame c Hc) as (o & b & _ & -> & _). done. }
  { intros c Hc. destruct (Htot c Hc) as (q & -> & _). done. }
  fold clusters in HJ, Hent, Hlen, Hgreedy, Hkeys', Hcred.
  set (k := length clusters) in *.
  exists ipc', w'. split; [done|]. split; [done|]. split; [done|].
  assert (Hset : forall j cj bj, clusters !! j = Some cj -> ib !! cj = Some bj ->
            as_set bj = list_to_set (members labels cj)).
  { intros j cj bj Hcj Hbj.
    destruct (Hsame cj) as (o & b & Ho & Hb & E); [by eapply list_elem_of_lookup_2|].
    rewrite (Hsets cj) in Ho by (by eapply list_elem_of_lookup_2).
    injection Ho as <-. rewrite Hbj in Hb. injection Hb as <-. done. }
  assert (Hdiag : forall i, i < k -> exists q, entry J i i = Some (Num q) /\ (q == 1)%Q).
  { intros i Hi. destruct (lookup_lt_is_Some_2 clusters i Hi) as [ci Hci].
    destruct (Hent i i ci ci Hci Hci) as (bj & q & Hbj & Hq & Hqv).
    exists q. split; [done|]. rewrite Hqv, (Hset i ci bj Hci Hbj).
    assert (list_to_set (members labels ci) ∩ list_to_set (members labels ci)
            = (list_to_set (members labels ci) : gset nat)) as -> by apply (idemp_L _).
    assert (list_to_set (members labels ci) ∪ list_to_set (members labels ci)
            = (list_to_set (members labels ci) : gset nat)) as -> by apply (idemp_L _).
    field.
    assert (0 < inject_Z (Z.of_nat (size (list_to_set (members labels ci) : gset nat))))%Q;
      [|lra].
    apply inject_nat_pos.
    assert (size (list_to_set (members labels ci) : gset nat) <> 0); [|lia].
    apply members_nonempty, elem_of_np_unique. by eapply list_elem_of_lookup_2. }
  assert (Hoff : forall i j, i < k -> j < k -> i <> j ->
            exists q, entry J i j = Some (Num q) /\ (q == 0)%Q).
  { intros i j Hi Hj Hne.
    destruct (lookup_lt_is_Some_2 clusters i Hi) as [ci Hci].
    destruct (lookup_lt_is_Some_2 clusters j Hj) as [cj Hcj].
    destruct (Hent i j ci cj Hci Hcj) as (bj & q & Hbj & Hq & Hqv).
    exists q. split; [done|]. rewrite Hqv, (Hset j cj bj Hcj Hbj).
    rewrite members_disjoint.
    - rewrite size_empty. simpl. unfold Qdiv. ring.
    - intros ->. apply Hne. eapply (NoDup_lookup clusters); eauto.
      apply NoDup_np_unique. }
  pose proof (greedy_from_identity J k Hdiag Hoff [] [] picks Hgreedy) as Hones.
  destruct (greedy_from_NoDup J k [] [] picks Hgreedy) as (Hrows & _ & Hrlt & _);
    [constructor..|]. rewrite app_nil_r in Hrows.
  pose proof (NoDup_bounded_Permutation k _ Hrows Hrlt) as Hperm.
  unfold pick_rows in Hperm at 1. rewrite !length_fmap in Hperm. specialize (Hperm Hlen).
  intros c [r Hr]%list_elem_of_lookup.
  assert (r ∈ pick_rows picks) as Hin.
  { rewrite Hperm. apply elem_of_seq. apply lookup_lt_Some in Hr. fold k in Hr. lia. }
  destruct (pick_rows_lookup picks r Hin) as (t' & c' & best & Hpick).
  destruct (Htot c) as (q & Hq & Hqv); [by eapply list_elem_of_lookup_2|].
  rewrite (Hcred t' r c' best c (Num q) Hpick Hr Hq).
  assert (feqb best (Num 1) = true) as Hbest.
  { apply (Hones (NoDup_nil_2) (fun i => conj (fun H => H) (fun H => H))
             ltac:(simpl; lia) (r, c', best)). by eapply list_elem_of_lookup_2. }
  destruct best as [| |b|]; try done. apply feqb_Num in Hbest.
  eexists. split; [reflexivity|]. rewrite Qred_correct, Hqv, Hbest.
  rewrite Nat2Z.inj_succ. unfold Z.succ. rewrite inject_Z_plus. reflexivity.
Qed.

Lemma rounds_without_noise dm cm (labels : list nat) (io : gmap nat indices) d n :
  let clusters := np_unique labels in
  square n d ->
  _translate_cluster_labels_to_dictionary_of_index_sets_per_cluster labels None = Ok io ->
  forall m s t w (ipc : gmap nat float64),
    heap w !! dm = Some d ->
    totals_are clusters t ipc ->
    (forall i, i < m ->
       exists ib,
         bootstrap_index_sets cm d (Nat.iter i (next_generator n) (np_random w)) = Ok ib /\
         same_index_sets clusters io ib) ->
    exists ipc' w',
      for_each (seq s m) (fun _ ipc => bootstrap_round dm cm clusters io ipc) ipc w
        = (Ok ipc', w') /\
      totals_are clusters (t + m) ipc'.
Proof.
  intros clusters Hsq Hio. induction m as [|m IH]; intros s t w ipc Hdm Htot Hrounds.
  - exists ipc, w. split; [done|]. by rewrite Nat.add_0_r.
  - destruct (Hrounds 0) as (ib & Hib & Hsame); [lia|]. simpl in Hib.
    destruct (round_without_noise dm cm labels io ib ipc w d n t Hdm Hsq Hio Hib Hsame Htot)
      as (ipc1 & w1 & Hrun1 & Hdm1 & Hg1 & Htot1).
    destruct (IH (S s) (S t) w1 ipc1 Hdm1 Htot1) as (ipc' & w' & Hrun & Htot').
    { intros i Hi. destruct (Hrounds (S i)) as (ib' & Hib' & Hsame'); [lia|].
      exists ib'. split; [|done]. rewrite Hg1. by rewrite <- Nat.iter_succ_r. }
    exists ipc', w'. split.
    + simpl. by rewrite (bind_Ok _ _ _ _ _ Hrun1).
    + by replace (t + S m) with (S t + m) by lia.
Qed.

Lemma foldR_ext {A S} (f g : A -> S -> res S) l s :
  (forall x s, f x s = g x s) -> foldR f l s = foldR g l s.
Proof.
  intros H. revert s. induction l as [|x l IH]; intros s; simpl; [done|].
  rewrite H. destruct (g x s); simpl; [apply IH|done].
Qed.

Lemma normalize_run (clusters : list nat) (ipc : gmap nat float64) (bootstraps : nat)
    (table : gmap nat float64) :
  foldR (fun cluster (normalized : gmap nat float64) =>
           total <-- dict_get ipc cluster ;;
           v <-- normalize_total total bootstraps ;;
           Ok (<[cluster := v]> normalized)) clusters ∅ = Ok table ->
  (forall c, c ∈ clusters ->
     exists total v, ipc !! c = Some total /\ normalize_total total bootstraps = Ok v /\
                     table !! c = Some v) /\
  (forall c, c ∉ clusters -> table !! c = None).
Proof.
  intros H.
  rewrite (foldR_ext _ (fun c d =>
             v <-- (total <-- dict_get ipc c ;; normalize_total total bootstraps) ;;
             Ok (<[c := v]> d))) in H.
  2:{ intros c s. by destruct (dict_get ipc c). }
  destruct (foldR_insert_inv _ _ _ _ H) as [Hin Hout]. split.
  - intros c Hc. destruct (Hin c Hc) as (v & Hv & Ht).
    apply rbind_inv_Ok in Hv as (total & Htot & Hv). unfold dict_get in Htot.
    destruct (ipc !! c) as [total'|] eqn:E; [|done]. injection Htot as ->.
    by exists total, v.
  - intros c Hc. rewrite Hout by done. apply lookup_empty.
Qed.

Lemma normalize_is_Ok (clusters : list nat) (ipc : gmap nat float64) (bootstraps : nat) :
  0 < bootstraps -> (forall c, c ∈ clusters -> is_Some (ipc !! c)) ->
  exists table,
    foldR (fun cluster (normalized : gmap nat float64) =>
             total <-- dict_get ipc cluster ;;
             v <-- normalize_total total bootstraps ;;
             Ok (<[cluster := v]> normalized)) clusters ∅ = Ok table.
Proof.
  intros Hb Hkeys.
  destruct (foldR_insert_is_Ok
              (fun c => total <-- dict_get ipc c ;; normalize_total total bootstraps)
              clusters ∅) as [table Htable].
  { intros c Hc. destruct (Hkeys c Hc) as [total Htot]. unfold dict_get. rewrite Htot.
    simpl. unfold normalize_total. rewrite decide_False by lia. by eexists. }
  exists table. rewrite <- Htable. apply foldR_ext. intros c s.
  by destruct (dict_get ipc c).
Qed.

Lemma initial_totals (clusters : list nat) :
  NoDup clusters ->
  totals_are clusters 0 (list_to_map ((fun cluster => (cluster, Num 0)) <$> clusters)).
Proof.
  intros Hnd c Hc. exists 0%Q. split; [|done].
  apply elem_of_list_to_map_1.
  - rewrite <- list_fmap_compose. by rewrite list_fmap_id.
  - apply list_elem_of_fmap. by exists c.
Qed.

Lemma square_shape n (d : ndarray) : square n d -> (shape d).1 = (shape d).2.
Proof.
  intros Hsq. destruct (decide (n = 0)) as [->|Hn].
  - destruct Hsq as [Hl _]. by destruct d.
  - rewrite (shape_square n d Hsq) by lia. apply Hsq.
Qed.

End StabilityFacts.

Section SelectionFacts.
Context {G : Type} {RS : RandomState G} {KM : KMedoidsLib}.
Implicit Types w : world G.

Lemma flt_fle_false x y : flt x y = true -> fle y x = false.
Proof.
  destruct x as [| |a|], y as [| |b|]; try done.
  rewrite flt_Num. intros H. destruct (fle (Num b) (Num a)) eqn:E; [|done].
  apply fle_Num in E. lra.
Qed.

Lemma fle_flt_false x y : fle x y = true -> flt y x = false.
Proof.
  intros H. destruct (flt y x) eqn:E; [|done]. apply flt_fle_false in E. congruence.
Qed.

Lemma flt_trans x y z : flt x y = true -> flt y z = true -> flt x z = true.
Proof.
  destruct x as [| |a|], y as [| |b|], z as [| |c|]; try done.
  rewrite !flt_Num. apply Qlt_trans.
Qed.

Lemma fle_flt_trans x y z : fle x y = true -> flt y z = true -> flt x z = true.
Proof.
  destruct x as [| |a|], y as [| |b|], z as [| |c|]; try done.
  rewrite fle_Num, !flt_Num. apply Qle_lt_trans.
Qed.

(** The pair kept after a run of candidates: either no score was below the
    initial one, or the first of the least scores was kept. *)
Lemma keep_best_spec (outcomes : list candidate_outcome) : forall score_min optimal_k,
  (foldl keep_best (score_min, optimal_k) outcomes = (score_min, optimal_k) /\
   forall o s, o ∈ outcomes -> cand_score o = Some s -> flt s score_min = false)
  \/
  (exists pre o post s,
     outcomes = pre ++ o :: post /\ cand_score o = Some s /\
     foldl keep_best (score_min, optimal_k) outcomes = (s, cand_k o) /\
     flt s score_min = true /\
     (forall o' s', o' ∈ pre -> cand_score o' = Some s' -> fle s' s = false) /\
     (forall o' s', o' ∈ post -> cand_score o' = Some s' -> flt s' s = false)).
Proof.
  induction outcomes as [|o0 rest IH]; intros sm ok.
  - left. split; [done|]. intros o s Ho. by apply elem_of_nil in Ho.
  - destruct (cand_score o0) as [s0|] eqn:E0; [destruct (flt s0 sm) eqn:Hlt|].
    + assert (Hk : keep_best (sm, ok) o0 = (s0, cand_k o0))
        by (unfold keep_best; simpl; by rewrite E0, Hlt).
      right.
      destruct (IH s0 (cand_k o0))
        as [[Hsame Hall]|(pre & o & post & s & -> & Hs & Hfold & Hlt' & Hpre & Hpost)].
      * exists [], o0, rest, s0. split; [done|]. split; [done|].
        split; [simpl; by rewrite Hk|].
        split; [done|]. split; [|done]. intros o' s' Ho'. by apply elem_of_nil in Ho'.
      * exists (o0 :: pre), o, post, s. split; [done|]. split; [done|].
        split; [simpl; by rewrite Hk|].
        split; [by eapply flt_trans|]. split; [|done].
        intros o' s' [->|Ho']%elem_of_cons Hs'.
        -- rewrite E0 in Hs'. injection Hs' as <-. by apply flt_fle_false.
        -- by eapply Hpre.
    + assert (Hk : keep_best (sm, ok) o0 = (sm, ok))
        by (unfold keep_best; simpl; by rewrite E0, Hlt).
      destruct (IH sm ok)
        as [[Hsame Hall]|(pre & o & post & s & -> & Hs & Hfold & Hlt' & Hpre & Hpost)].
      * left. split; [simpl; by rewrite Hk|]. intros o s [->|Ho]%elem_of_cons Hs.
        -- rewrite E0 in Hs. by injection Hs as <-.
        -- by eapply Hall.
      * right. exists (o0 :: pre), o, post, s. split; [done|]. split; [done|].
        split; [simpl; by rewrite Hk|]. split; [done|]. split; [|done].
        intros o' s' [->|Ho']%elem_of_cons Hs'.
        -- rewrite E0 in Hs'. injection Hs' as <-.
           destruct (fle s0 s) eqn:Hle; [|done].
           rewrite (fle_flt_trans _ _ _ Hle Hlt') in Hlt. done.
        -- by eapply Hpre.
    + assert (Hk : keep_best (sm, ok) o0 = (sm, ok))
        by (unfold keep_best; simpl; by rewrite E0).
      destruct (IH sm ok)
        as [[Hsame Hall]|(pre & o & post & s & -> & Hs & Hfold & Hlt' & Hpre & Hpost)].
      * left. split; [simpl; by rewrite Hk|].
        intros o s [->|Ho]%elem_of_cons Hs; [congruence|]. by eapply Hall.
      * right. exists (o0 :: pre), o, post, s. split; [done|]. split; [done|].
        split; [simpl; by rewrite Hk|]. split; [done|]. split; [|done].
        intros o' s' [->|Ho']%elem_of_cons Hs'; [congruence|]. by eapply Hpre.
Qed.

Lemma print_run e w :
  print e w = (Ok tt, World (heap w) (np_random w) (np_random_seed w) (stdout w ++ [e])).
Proof. done. Qed.

(** A call that returned has clustered the distance matrix. *)
Lemma returning_call_clustered dm cm bootstraps seed w table w' :
  compute_stability_indices dm cm bootstraps seed w = (Ok table, w') ->
  exists d labels, heap w !! dm = Some d /\ cm d = Ok labels.
Proof.
  intros H. unfold compute_stability_indices in H.
  apply bind_inv_Ok in H as (d & w0 & Hread & H).
  unfold np_read in Hread. destruct (heap w !! dm) as [d'|] eqn:Hdm; [|done].
  injection Hread as -> <-.
  apply bind_inv_Ok in H as ([] & w1 & _ & H).
  apply bind_inv_Ok in H as ([] & w2 & _ & H).
  apply bind_inv_Ok in H as (labels & w3 & Hcm & _).
  apply lift_inv_Ok in Hcm as [Hcm _]. by exists d, labels.
Qed.

(** One candidate, read back from a run that returned. *)
Lemma optimizeK_candidate_inv dm y rs dv bs mi method k best w best' w' :
  optimizeK_candidate dm y rs dv bs mi method k best w = (Ok best', w') ->
  exists o d labels table w1,
    cand_k o = k /\
    heap w !! dm = Some d /\
    KMedoids_fit_labels k rs mi d = Ok labels /\
    compute_stability_indices dm (KMedoids_fit_labels k rs mi) bs rs w = (Ok table, w1) /\
    py_min (dict_values table) = Ok (cand_min_index o) /\
    stdout w' = stdout w ++ outcome_events o /\
    best' = keep_best best o /\
    (cand_score o = None <-> flt dv (cand_min_index o) = false) /\
    (forall s, cand_score o = Some s -> quality_score method y labels = Ok s).
Proof.
  unfold optimizeK_candidate. destruct best as [score_min optimal_k]. intros H.
  apply bind_inv_Ok in H as (d & w0 & Hread & H).
  unfold np_read in Hread. destruct (heap w !! dm) as [d'|] eqn:Hdm; [|done].
  injection Hread as -> <-.
  apply bind_inv_Ok in H as (labels & w0 & Hfit & H).
  apply lift_inv_Ok in Hfit as [Hfit ->].
  apply bind_inv_Ok in H as (table & w1 & Hstab & H).
  pose proof (compute_stability_indices_grows dm (KMedoids_fit_labels k rs mi) bs rs w)
    as [_ Hout]. rewrite Hstab in Hout. simpl in Hout.
  apply bind_inv_Ok in H as (min_index & w2 & Hmin & H).
  apply lift_inv_Ok in Hmin as [Hmin ->].
  apply bind_inv_Ok in H as ([] & w2 & Hp & H). rewrite print_run in Hp.
  injection Hp as <-.
  destruct (flt dv min_index) eqn:Hstable.
  - apply bind_inv_Ok in H as (score & w3 & Hscore & H).
    apply lift_inv_Ok in Hscore as [Hscore ->].
    apply bind_inv_Ok in H as ([] & w3 & Hp & H). rewrite print_run in Hp.
    injection Hp as <-. injection H as <- <-.
    exists {| cand_k := k; cand_min_index := min_index; cand_score := Some score |},
      d, labels, table, w1.
    simpl. rewrite Hout, <- app_assoc. split; [done|]. split; [done|]. split; [done|].
    split; [done|]. split; [done|]. split; [done|].
    split; [done|]. split; [split; intros; congruence|]. by intros s [= <-].
  - apply bind_inv_Ok in H as ([] & w3 & Hp & H). rewrite print_run in Hp.
    injection Hp as <-. injection H as <- <-.
    exists {| cand_k := k; cand_min_index := min_index; cand_score := None |},
      d, labels, table, w1.
    simpl. rewrite Hout, <- app_assoc. split; [done|]. split; [done|]. split; [done|].
    split; [done|]. split; [done|]. split; [done|].
    split; [done|]. split; [done|]. done.
Qed.

(** The candidates of a run of the loop that returned: each was clustered
    on the distance matrix, its stability table was computed in some state
    of the run, and the minimum it printed is Python's [min] over that
    table. *)
Lemma optimizeK_loop_inv dm y rs dv bs mi method : forall ks best w best' w',
  for_each ks (optimizeK_candidate dm y rs dv bs mi method) best w = (Ok best', w') ->
  exists outcomes,
    cand_k <$> outcomes = ks /\
    stdout w' = stdout w ++ concat (outcome_events <$> outcomes) /\
    best' = foldl keep_best best outcomes /\
    forall o, o ∈ outcomes ->
      (cand_score o = None <-> flt dv (cand_min_index o) = false) /\
      exists d labels table w0 w1,
        heap w !! dm = Some d /\ heap w0 !! dm = Some d /\
        KMedoids_fit_labels (cand_k o) rs mi d = Ok labels /\
        compute_stability_indices dm (KMedoids_fit_labels (cand_k o) rs mi) bs rs w0
          = (Ok table, w1) /\
        py_min (dict_values table) = Ok (cand_min_index o) /\
        (forall s, cand_score o = Some s -> quality_score method y labels = Ok s).
Proof.
  induction ks as [|k ks IH]; intros best w best' w' H; simpl in H.
  - injection H as <- <-. exists []. simpl. rewrite app_nil_r. split; [done|].
    split; [done|]. split; [done|]. intros o Ho. by apply elem_of_nil in Ho.
  - apply bind_inv_Ok in H as (best1 & w1 & Hcand & H).
    pose proof (optimizeK_candidate_keeps_heap dm y rs dv bs mi method k best w) as Hheap.
    rewrite Hcand in Hheap. unfold keeps_heap in Hheap. simpl in Hheap.
    apply optimizeK_candidate_inv in Hcand
      as (o & d & labels & table & w2 & Hk & Hdm & Hfit & Hstab & Hmin & Hout & -> & Hrej
          & Hscore).
    destruct (IH _ _ _ _ H) as (outcomes & Hks & Hout' & -> & Hall).
    exists (o :: outcomes). split; [by rewrite fmap_cons, Hk, Hks|].
    split; [rewrite fmap_cons; simpl; by rewrite Hout', Hout, <- app_assoc|]. split; [done|].
    intros o' [->|Ho']%elem_of_cons.
    + split; [done|]. exists d, labels, table, w, w2. rewrite Hk. done.
    + destruct (Hall o' Ho') as [Hrej' Hrest]. split; [done|].
      destruct Hrest as (d' & labels' & table' & w0' & w1' & Hd' & Hd0 & Hfit' & Hstab'
                         & Hmin' & Hscore').
      assert (heap w1 !! dm = Some d) as Hd1 by (eapply lookup_weaken; eauto).
      assert (d' = d) as -> by congruence.
      exists d, labels', table', w0', w1'. done.
Qed.

End SelectionFacts.

Section SeedFacts.
Context {G : Type} {RS : RandomState G}.
Implicit Types w : world G.

Lemma seed_blind_ret {A} (a : A) : seed_blind (ret (G := G) a).
Proof. by intros b w. Qed.

Lemma seed_blind_lift {A} (r : res A) : seed_blind (lift (G := G) r).
Proof. by intros b w. Qed.

Lemma seed_blind_bind {A B} (m : M G A) (k : A -> M G B) :
  seed_blind m -> (forall a, seed_blind (k a)) -> seed_blind (bind m k).
Proof.
  intros Hm Hk b w. unfold bind. rewrite Hm.
  destruct (m w) as [[a|e] w1]; simpl; [apply Hk|done].
Qed.

Lemma seed_blind_for_each {X S} (xs : list X) (body : X -> S -> M G S) s :
  (forall x s, seed_blind (body x s)) -> seed_blind (for_each xs body s).
Proof.
  intros Hb. revert s. induction xs as [|x xs IH]; intros s; simpl.
  - apply seed_blind_ret.
  - apply seed_blind_bind; [apply Hb|apply IH].
Qed.

Lemma seed_blind_np_read l : seed_blind (np_read (G := G) l).
Proof. intros b w. unfold np_read. simpl. by destruct (heap w !! l). Qed.

Lemma seed_blind_np_alloc a : seed_blind (np_alloc (G := G) a).
Proof. by intros b w. Qed.

Lemma seed_blind_np_update l f : seed_blind (np_update (G := G) l f).
Proof.
  intros b w. unfold np_update. simpl. destruct (heap w !! l) as [a|]; [|done].
  by destruct (f a).
Qed.

Lemma seed_blind_np_random_choice n : seed_blind (np_random_choice n).
Proof. intros b w. unfold np_random_choice. simpl. by destruct (choice _ _). Qed.

Ltac seed_blind_step :=
  first
    [ apply seed_blind_ret
    | apply seed_blind_lift
    | apply seed_blind_np_read
    | apply seed_blind_np_alloc
    | apply seed_blind_np_update
    | apply seed_blind_np_random_choice
    | apply seed_blind_for_each; intros
    | apply seed_blind_bind; [|intros]
    | match goal with |- context [let '(_, _) := ?p in _] => is_var p; destruct p end ].

Lemma seed_blind_bootstrap_round dm cm clusters io ipc :
  seed_blind (bootstrap_round (G := G) dm cm clusters io ipc).
Proof. unfold bootstrap_round. repeat seed_blind_step. Qed.

Lemma bind_fst_eq {A B} (m : M G A) (k k' : A -> M G B) w :
  (forall a w1, (k a w1).1 = (k' a w1).1) -> (bind m k w).1 = (bind m k' w).1.
Proof. intros Hk. unfold bind. destruct (m w) as [[a|e] w1]; simpl; auto. Qed.

Lemma assign_np_random_seed_bind {B} z (k : unit -> M G B) w :
  bind (assign_np_random_seed z) k w = k tt (set_seed (SeedValue z) w).
Proof. reflexivity. Qed.

(** The table does not depend on the [seed] argument. *)
Lemma compute_stability_indices_ignores_seed dm cm bootstraps (seed seed' : Z) w :
  (compute_stability_indices dm cm bootstraps seed w).1
  = (compute_stability_indices dm cm bootstraps seed' w).1.
Proof.
  unfold compute_stability_indices.
  apply bind_fst_eq. intros d w1. apply bind_fst_eq. intros [] w2.
  rewrite !assign_np_random_seed_bind.
  match goal with
  | |- (?m _).1 = _ => assert (Hblind : seed_blind m)
  end.
  { repeat first [apply seed_blind_bootstrap_round | seed_blind_step]. }
  by rewrite !Hblind.
Qed.

End SeedFacts.

Section MissingKey.
Context {G : Type} {RS : RandomState G}.
Implicit Types w : world G.

Lemma enumerate_from_app {A} (l1 l2 : list A) : forall n,
  enumerate_from n (l1 ++ l2) = enumerate_from n l1 ++ enumerate_from (n + length l1) l2.
Proof.
  induction l1 as [|x l1 IH]; intros n; simpl.
  - by rewrite Nat.add_0_r.
  - rewrite IH. do 3 f_equal. lia.
Qed.

Lemma for_each_app {X S} (xs ys : list X) (body : X -> S -> M G S) : forall s w,
  for_each (xs ++ ys) body s w = bind (for_each xs body s) (for_each ys body) w.
Proof.
  induction xs as [|x xs IH]; intros s w; simpl; [done|].
  unfold bind. destruct (body x s w) as [[s1|e] w1]; [|done].
  rewrite IH. reflexivity.
Qed.

(** The first key of [cs] that the dictionary lacks. *)
Lemma first_missing_key {V} (d : gmap nat V) (cs : list nat) c :
  c ∈ cs -> d !! c = None ->
  exists pre c' post,
    cs = pre ++ c' :: post /\ d !! c' = None /\ forall cb, cb ∈ pre -> is_Some (d !! cb).
Proof.
  induction cs as [|c0 cs IH]; intros Hc Hd; [by apply elem_of_nil in Hc|].
  destruct (d !! c0) as [v|] eqn:E.
  - apply elem_of_cons in Hc as [->|Hc]; [congruence|].
    destruct (IH Hc Hd) as (pre & c' & post & -> & Hc' & Hpre).
    exists (c0 :: pre), c', post. split; [done|]. split; [done|].
    intros cb [->|Hcb]%elem_of_cons; [by rewrite E|by apply Hpre].
  - exists [], c0, cs. split; [done|]. split; [done|]. by intros cb ?%elem_of_nil.
Qed.

(** The inner loop of [_compute_jaccard_matrix] stops at the first cluster
    id that is not a key of the bootstrap dictionary. *)
Lemma jaccard_row_missing_key (jm i co : nat) (ib io : gmap nat indices) so pre c post
    w a row :
  heap w !! jm = Some a -> a !! i = Some row ->
  length (pre ++ c :: post) <= length row ->
  io !! co = Some (IdxSet so) -> size so <> 0 ->
  (forall cb, cb ∈ pre -> is_Some (ib !! cb)) -> ib !! c = None ->
  (for_each (enumerate (pre ++ c :: post))
     (fun '(j, cluster_bootstrap) (_ : unit) =>
        indices_bootstrap <- lift (dict_get ib cluster_bootstrap) ;;
        indices_original <- lift (dict_get io co) ;;
        v <- lift (jaccard_index indices_original indices_bootstrap) ;;
        np_update jm (set_entry i j v)) tt w).1
  = Raise (KeyError c).
Proof.
  intros Hjm Hi Hlen Hio Hso Hpre Hc.
  set (val := fun t =>
    match pre !! t with
    | Some cb =>
        match ib !! cb with
        | Some bi => match jaccard_index (IdxSet so) bi with Ok v => v | Raise _ => NaN end
        | None => NaN
        end
    | None => NaN
    end).
  unfold enumerate. rewrite enumerate_from_app, for_each_app.
  rewrite length_app in Hlen.
  destruct (jaccard_row_run jm i co ib io val pre 0 w a row Hjm Hi) as (row' & Hrun & _).
  { simpl. lia. }
  { intros t cb Ht. simpl.
    destruct (Hpre cb) as [bi Hbi]; [by eapply list_elem_of_lookup_2|].
    destruct (jaccard_index_set so bi Hso) as (q & Hq & _).
    exists bi, (IdxSet so). unfold val. by rewrite Ht, Hbi, Hq. }
  rewrite (bind_Ok _ _ _ _ _ Hrun). simpl.
  erewrite bind_Raise; [done|]. erewrite bind_Raise; [done|].
  unfold lift, dict_get. by rewrite Hc.
Qed.

(** [_compute_jaccard_matrix] looks every original cluster id up in the
    bootstrap dictionary: a missing one is a [KeyError]. *)
Lemma _compute_jaccard_matrix_missing_key (clusters : list nat)
    (ib io : gmap nat indices) c w :
  (forall co, co ∈ clusters -> exists so, io !! co = Some (IdxSet so) /\ size so <> 0) ->
  c ∈ clusters -> ib !! c = None ->
  exists c', c' ∈ clusters /\ ib !! c' = None /\
             (_compute_jaccard_matrix clusters ib io w).1 = Raise (KeyError c').
Proof.
  intros Hio Hc Hib.
  destruct (first_missing_key ib clusters c Hc Hib) as (pre & c' & post & Hsplit & Hc' & Hpre).
  exists c'. split; [rewrite Hsplit, elem_of_app, elem_of_cons; tauto|]. split; [done|].
  destruct clusters as [|c0 rest] eqn:Ecl; [by apply elem_of_nil in Hc|].
  destruct (Hio c0) as (so & Hso & Hsize); [by left|].
  unfold _compute_jaccard_matrix.
  set (k := length (c0 :: rest)).
  set (jm := fresh (dom (heap w))).
  set (w0 := with_heap (<[jm := np_zeros k k]> (heap w)) w).
  rewrite (bind_Ok _ _ w jm w0) by done.
  unfold enumerate at 1. simpl enumerate_from.
  cbn [for_each].
  match goal with
  | |- (bind (bind ?m _) _ w0).1 = _ =>
      assert (Hrow : (m w0).1 = Raise (KeyError c'))
  end.
  { assert (Hjm : heap w0 !! jm = Some (np_zeros k k)) by (simpl; apply lookup_insert_eq).
    assert (Hfirst : np_zeros k k !! 0 = Some (replicate k (Num 0))) by done.
    assert (Hlen : length (pre ++ c' :: post) <= length (replicate k (Num 0))).
    { rewrite length_replicate, <- Hsplit. done. }
    rewrite Hsplit.
    exact (jaccard_row_missing_key jm 0 c0 ib io so pre c' post w0 _ _
             Hjm Hfirst Hlen Hso Hsize Hpre Hc'). }
  match goal with
  | |- (bind (bind ?m _) _ w0).1 = _ => destruct (m w0) as [r w1] eqn:Em
  end.
  simpl in Hrow. subst r.
  erewrite bind_Raise; [done|]. erewrite bind_Raise; [done|]. exact Em.
Qed.

(** A round whose bootstrap dictionary lacks an original cluster id raises
    [KeyError]. *)
Lemma bootstrap_round_missing_key dm cm (labels : list nat) (io ib : gmap nat indices)
    (ipc : gmap nat float64) w d c :
  let clusters := np_unique labels in
  heap w !! dm = Some d ->
  _translate_cluster_labels_to_dictionary_of_index_sets_per_cluster labels None = Ok io ->
  bootstrap_index_sets cm d (np_random w) = Ok ib ->
  c ∈ clusters -> ib !! c = None ->
  exists c', c' ∈ clusters /\ ib !! c' = None /\
             (bootstrap_round dm cm clusters io ipc w).1 = Raise (KeyError c').
Proof.
  intros clusters Hdm Hio Hib Hc Hmiss.
  destruct (translate_original labels) as (io' & Hio' & Hsets).
  rewrite Hio in Hio'. injection Hio' as <-.
  unfold bootstrap_index_sets in Hib.
  apply rbind_inv_Ok in Hib as (b & Hres & Hib).
  apply rbind_inv_Ok in Hib as (bootstrapped_labels & Hcm & Hib).
  unfold resample in Hres. apply rbind_inv_Ok in Hres as (cols & Hcols & Hrows).
  pose proof (bootstrap_matrix_run dm w d cols b Hdm Hcols Hrows) as Hboot.
  simpl in Hboot.
  set (l1 := fresh (dom (heap w))) in *.
  set (l2 := fresh (dom (<[l1 := cols]> (heap w)))) in *.
  set (w1 := World (<[l2 := b]> (<[l1 := cols]> (heap w)))
               (choice (np_random w) (length d)).2 (np_random_seed w) (stdout w)) in *.
  destruct (_compute_jaccard_matrix_missing_key clusters ib io c w1) as (c' & Hc' & Hib' & Hjac);
    [|done|done|].
  { intros co Hco. exists (list_to_set (members labels co)). split; [by apply Hsets|].
    apply members_nonempty. by apply elem_of_np_unique. }
  exists c'. split; [done|]. split; [done|].
  unfold bootstrap_round. rewrite (bind_Ok _ _ _ _ _ Hboot).
  rewrite (bind_Ok _ _ w1 b w1) by (apply np_read_run; apply lookup_insert_eq).
  rewrite (bind_Ok _ _ w1 bootstrapped_labels w1) by (by rewrite lift_run, Hcm).
  rewrite (bind_Ok _ _ w1 ib w1) by (by rewrite lift_run, Hib).
  fold clusters.
  destruct (_compute_jaccard_matrix clusters ib io w1) as [r w2] eqn:Em.
  simpl in Hjac. subst r. by erewrite bind_Raise.
Qed.

(** The rounds before the first one that misses a cluster complete, that
    one raises, and so does the loop. *)
Lemma rounds_missing_key dm cm (labels : list nat) (io ib : gmap nat indices) d n c :
  let clusters := np_unique labels in
  square n d ->
  _translate_cluster_labels_to_dictionary_of_index_sets_per_cluster labels None = Ok io ->
  c ∈ clusters -> ib !! c = None ->
  forall r rest s w (ipc : gmap nat float64),
    heap w !! dm = Some d ->
    (forall co, co ∈ clusters -> is_Some (ipc !! co)) ->
    (forall i, i < r ->
       exists ib',
         bootstrap_index_sets cm d (Nat.iter i (next_generator n) (np_random w)) = Ok ib' /\
         forall co, co ∈ clusters -> is_Some (ib' !! co)) ->
    bootstrap_index_sets cm d (Nat.iter r (next_generator n) (np_random w)) = Ok ib ->
    exists c', c' ∈ clusters /\ ib !! c' = None /\
      (for_each (seq s (r + S rest)) (fun _ ipc => bootstrap_round dm cm clusters io ipc)
         ipc w).1 = Raise (KeyError c').
Proof.
  intros clusters Hsq Hio Hc Hmiss.
  induction r as [|r IH]; intros rest s w ipc Hdm Hipc Hrounds Hib.
  - simpl in Hib.
    destruct (bootstrap_round_missing_key dm cm labels io ib ipc w d c Hdm Hio Hib Hc Hmiss)
      as (c' & Hc' & Hib' & Hrun).
    exists c'. split; [done|]. split; [done|]. simpl.
    fold clusters in Hrun.
    destruct (bootstrap_round dm cm clusters io ipc w) as [res w1] eqn:Em.
    simpl in Hrun. subst res. by erewrite bind_Raise.
  - destruct (Hrounds 0) as (ib0 & Hib0 & Hkeys0); [lia|]. simpl in Hib0.
    destruct (bootstrap_round_run dm cm labels io ib0 ipc w d n Hdm Hsq Hio Hib0 Hkeys0 Hipc)
      as (J & picks & a' & ipc1 & w1 & Hrun1 & Hdm1 & Hg1 & _ & _ & _ & _ & _ & Hipc1 & _).
    destruct (IH rest (S s) w1 ipc1 Hdm1 Hipc1) as (c' & Hc' & Hib' & Hrun).
    { intros i Hi. destruct (Hrounds (S i)) as (ib' & Hib1 & Hkeys1); [lia|].
      exists ib'. split; [|done]. rewrite Hg1. by rewrite <- Nat.iter_succ_r. }
    { rewrite Hg1. by rewrite <- Nat.iter_succ_r. }
    exists c'. split; [done|]. split; [done|].
    simpl. by rewrite (bind_Ok _ _ _ _ _ Hrun1).
Qed.

(** [compute_stability_indices] raises [KeyError] as soon as a bootstrap
    round leaves an original cluster without a member. *)
Lemma compute_stability_indices_missing_key dm (cm : ndarray -> res (list nat))
    (bootstraps : nat) (seed : Z) w (d : ndarray) (labels : list nat) (n r : nat)
    (ib : gmap nat indices) c :
  let clusters := np_unique labels in
  heap w !! dm = Some d -> square n d -> cm d = Ok labels -> r < bootstraps ->
  (forall i, i < r ->
     exists ib',
       bootstrap_index_sets cm d (Nat.iter i (next_generator n) (np_random w)) = Ok ib' /\
       forall co, co ∈ clusters -> is_Some (ib' !! co)) ->
  bootstrap_index_sets cm d (Nat.iter r (next_generator n) (np_random w)) = Ok ib ->
  c ∈ clusters -> ib !! c = None ->
  exists c', c' ∈ clusters /\ ib !! c' = None /\
    (compute_stability_indices dm cm bootstraps seed w).1 = Raise (KeyError c').
Proof.
  intros clusters Hdm Hsq Hcm Hr Hrounds Hib Hc Hmiss.
  destruct (translate_original labels) as (io & Hio & _).
  set (w0 := World (heap w) (np_random w) (SeedValue seed) (stdout w)).
  set (ipc := list_to_map ((fun cluster => (cluster, Num 0)) <$> clusters)
              : gmap nat float64).
  destruct (rounds_missing_key dm cm labels io ib d n c Hsq Hio Hc Hmiss
              r (bootstraps - S r) 0 w0 ipc) as (c' & Hc' & Hib' & Hloop); [done| |done|done|].
  { intros co Hco. unfold ipc. apply elem_of_dom.
    rewrite dom_list_to_map_L, <- list_fmap_compose. simpl.
    rewrite list_fmap_id. by apply elem_of_list_to_set. }
  exists c'. split; [done|]. split; [done|].
  replace (r + S (bootstraps - S r)) with bootstraps in Hloop by lia.
  unfold compute_stability_indices.
  rewrite (bind_Ok _ _ w d w) by (by apply np_read_run).
  rewrite (bind_Ok _ _ w tt w).
  2:{ rewrite (square_shape n d Hsq). by rewrite bool_decide_eq_true_2. }
  rewrite (bind_Ok _ _ w tt w0) by done.
  rewrite (bind_Ok _ _ w0 labels w0) by (by rewrite lift_run, Hcm).
  rewrite (bind_Ok _ _ w0 io w0) by (by rewrite lift_run, Hio).
  fold clusters ipc. fold clusters in Hloop.
  match goal with
  | |- (bind ?m _ w0).1 = _ => destruct (m w0) as [res w1] eqn:Em
  end.
  simpl in Hloop. subst res. by erewrite bind_Raise.
Qed.

End MissingKey.

Section JaccardIndex.

Lemma jaccard_spec (A B : gset nat) :
  size A <> 0 ->
  (0 <= jaccard A B)%Q /\ (jaccard A B <= 1)%Q /\
  ((jaccard A B == 1)%Q <-> A = B) /\ ((jaccard A B == 0)%Q <-> A ∩ B = ∅).
Proof.
  intros HA. unfold jaccard.
  assert (Hsub : A ∩ B ⊆ A ∪ B).
  { etrans; [apply intersection_subseteq_l|apply union_subseteq_l]. }
  pose proof (subseteq_size _ _ Hsub) as Hle.
  assert (HAU : size A <= size (A ∪ B)) by apply subseteq_size, union_subseteq_l.
  assert (Hpos : (0 < inject_Z (Z.of_nat (size (A ∪ B))))%Q) by (apply inject_nat_pos; lia).
  pose proof (inject_nat_nonneg (size (A ∩ B))) as H0.
  assert (Hq : (inject_Z (Z.of_nat (size (A ∩ B))) <= inject_Z (Z.of_nat (size (A ∪ B))))%Q).
  { rewrite <- Zle_Qle. lia. }
  destruct (Qratio_bounds _ _ H0 Hq Hpos) as (Hlo & Hhi & Hone & Hzero).
  split; [done|]. split; [done|]. split.
  - rewrite Hone. split.
    + intros E. unfold Qeq in E. simpl in E.
      assert (A ∩ B = A ∪ B) as Heq by (apply set_subseteq_size_eq; [done|lia]).
      apply set_eq. intros x. split; intros Hx.
      * assert (x ∈ A ∪ B) as Hu by (apply elem_of_union; by left).
        rewrite <- Heq in Hu. by apply elem_of_intersection in Hu as [_ ?].
      * assert (x ∈ A ∪ B) as Hu by (apply elem_of_union; by right).
        rewrite <- Heq in Hu. by apply elem_of_intersection in Hu as [? _].
    + intros <-. by rewrite (idemp_L (∩) A), (idemp_L (∪) A).
  - rewrite Hzero. split.
    + intros E. unfold Qeq in E. simpl in E.
      apply leibniz_equiv, size_empty_iff. lia.
    + intros ->. by rewrite size_empty.
Qed.

End JaccardIndex.

Section RoundCredits.
Context {G : Type} {RS : RandomState G}.
Implicit Types w : world G.

Lemma seed_blind_keeps_seed {A} (m : M G A) w :
  seed_blind m -> np_random_seed (m w).2 = np_random_seed w.
Proof.
  intros Hm. specialize (Hm (np_random_seed w) w).
  assert (set_seed (np_random_seed w) w = w) as E by (by destruct w).
  rewrite E in Hm. destruct (m w) as [r w']. simpl in *. by injection Hm as ->.
Qed.

(** The original index set of a cluster. *)
#[local] Abbreviation original labels c := (list_to_set (members labels c) : gset nat).

(** One round credits every original cluster with the Jaccard index of its
    index set and the set of one bootstrap cluster; a cluster whose own
    bootstrap set is its original set is credited 1. *)
Lemma round_credits dm cm (labels : list nat) (io ib : gmap nat indices)
    (ipc : gmap nat float64) w d n :
  let clusters := np_unique labels in
  heap w !! dm = Some d -> square n d ->
  _translate_cluster_labels_to_dictionary_of_index_sets_per_cluster labels None = Ok io ->
  bootstrap_index_sets cm d (np_random w) = Ok ib ->
  (forall c, c ∈ clusters -> is_Some (ib !! c)) ->
  (forall c, c ∈ clusters -> is_Some (ipc !! c)) ->
  exists ipc' w',
    bootstrap_round dm cm clusters io ipc w = (Ok ipc', w') /\
    heap w' !! dm = Some d /\
    np_random w' = next_generator n (np_random w) /\
    (forall oc, oc ∉ clusters -> ipc' !! oc = ipc !! oc) /\
    forall c total, c ∈ clusters -> ipc !! c = Some total ->
      exists cj bj best,
        cj ∈ clusters /\ ib !! cj = Some bj /\
        feqb (Num (jaccard (original labels c) (as_set bj))) best = true /\
        ipc' !! c = Some (fadd total best) /\
        (forall bc, ib !! c = Some bc -> as_set bc = original labels c ->
                    feqb best (Num 1) = true).
Proof.
  intros clusters Hdm Hsq Hio Hib Hkeys Hipc.
  destruct (bootstrap_round_run dm cm labels io ib ipc w d n Hdm Hsq Hio Hib Hkeys Hipc)
    as (J & picks & a' & ipc' & w' & Hrun & Hdm' & Hg' & HJ & Hent & _ & Hlen & Hgreedy
        & Hkeys' & Hcred & Hother).
  fold clusters in HJ, Hent, Hlen, Hgreedy, Hkeys', Hcred, Hother.
  set (k := length clusters) in *.
  exists ipc', w'. split; [done|]. split; [done|]. split; [done|]. split; [done|].
  destruct (greedy_from_NoDup J k [] [] picks Hgreedy) as (Hrows & _ & Hrlt & _);
    [constructor..|]. rewrite app_nil_r in Hrows.
  pose proof (NoDup_bounded_Permutation k _ Hrows Hrlt) as Hperm.
  unfold pick_rows in Hperm at 1. rewrite !length_fmap in Hperm. specialize (Hperm Hlen).
  intros c total [r Hr]%list_elem_of_lookup Htotal.
  assert (Hrk : r < k) by (by eapply lookup_lt_Some).
  assert (r ∈ pick_rows picks) as Hin.
  { rewrite Hperm. apply elem_of_seq. lia. }
  destruct (pick_rows_lookup picks r Hin) as (t & j & best & Hpick).
  destruct (greedy_from_lookup J k [] [] picks t r j best Hgreedy Hpick)
    as (_ & Hj & HrR & HjC & (v & Hv & Hbest) & Hub).
  rewrite app_nil_r in HrR, HjC. repeat rewrite app_nil_r in Hub.
  destruct (lookup_lt_is_Some_2 clusters j Hj) as [cj Hcj].
  destruct (Hent r j c cj Hr Hcj) as (bj & q & Hbj & Hq & Hqv).
  rewrite Hv in Hq. injection Hq as ->.
  exists cj, bj, best. split; [by eapply list_elem_of_lookup_2|]. split; [done|].
  split.
  { eapply feqb_trans; [|exact Hbest]. apply feqb_Num. unfold jaccard. by rewrite Hqv. }
  split; [by eapply Hcred|].
  intros bc Hbc Hsame.
  assert (Hc : c ∈ clusters) by (by eapply list_elem_of_lookup_2).
  assert (Hsize : size (original labels c) <> 0).
  { apply members_nonempty. by apply elem_of_np_unique. }
  (* the diagonal entry of the cluster is 1 *)
  destruct (Hent r r c c Hr Hr) as (bc' & q1 & Hbc' & Hq1 & Hq1v).
  rewrite Hbc in Hbc'. injection Hbc' as <-.
  assert (Hone : (q1 == 1)%Q).
  { rewrite Hq1v. apply (jaccard_spec (original labels c) (as_set bc) Hsize). by rewrite Hsame. }
  (* its column is still free when its row is picked *)
  assert (Hfree : r ∉ pick_cols (take t picks)).
  { intros Hcol. unfold pick_cols in Hcol.
    apply list_elem_of_fmap in Hcol as ([r' c'] & Hc' & Hcol). simpl in Hc'. subst c'.
    apply list_elem_of_fmap in Hcol as ([[r'' c''] best'] & E & Hcol). simpl in E.
    injection E as <- <-.
    apply list_elem_of_lookup in Hcol as [t' Ht'].
    assert (Htt : t' < t).
    { apply lookup_lt_Some in Ht'. rewrite length_take in Ht'. lia. }
    rewrite lookup_take_lt in Ht' by done.
    destruct (greedy_from_lookup J k [] [] picks t' r' r best' Hgreedy Ht')
      as (Hr' & _ & Hr'R & HrC & (v' & Hv' & Hbest') & Hub').
    rewrite app_nil_r in Hr'R, HrC. repeat rewrite app_nil_r in Hub'.
    assert (Hne : r' <> r).
    { intros ->. apply HrR. unfold pick_rows.
      apply list_elem_of_fmap. exists (r, r). split; [done|].
      apply list_elem_of_fmap. exists (r, r, best'). split; [done|].
      apply list_elem_of_lookup. exists t'. by rewrite lookup_take_lt. }
    assert (Hrfree : r ∉ pick_rows (take t' picks)).
    { intros Hrow. apply HrR. unfold pick_rows in *.
      apply list_elem_of_fmap in Hrow as ([r0 c0] & E0 & Hrow). simpl in E0. subst r0.
      apply list_elem_of_fmap in Hrow as ([[r1 c1] b1] & E1 & Hrow). simpl in E1.
      injection E1 as <- <-.
      apply list_elem_of_lookup in Hrow as [t0 Ht0].
      assert (t0 < t') by (apply lookup_lt_Some in Ht0; rewrite length_take in Ht0; lia).
      rewrite lookup_take_lt in Ht0 by done.
      apply list_elem_of_fmap. exists (r, c0). split; [done|].
      apply list_elem_of_fmap. exists (r, c0, b1). split; [done|].
      apply list_elem_of_lookup. exists t0. rewrite lookup_take_lt by lia. done. }
    pose proof (Hub' r r (Num q1) Hrfree HrC Hq1) as Hle.
    destruct (lookup_lt_is_Some_2 clusters r' Hr') as [c' Hc'].
    destruct (Hent r' r c' c Hc' Hr) as (bc' & q0 & Hbc' & Hq0 & Hq0v).
    rewrite Hbc in Hbc'. injection Hbc' as <-.
    assert (Hzero : (q0 == 0)%Q).
    { rewrite Hq0v.
      assert (Hs' : size (original labels c') <> 0).
      { apply members_nonempty, elem_of_np_unique. by eapply list_elem_of_lookup_2. }
      apply (jaccard_spec (original labels c') (as_set bc) Hs'). rewrite Hsame.
      apply members_disjoint. intros ->. apply Hne.
      eapply (NoDup_lookup clusters); eauto. apply NoDup_np_unique. }
    rewrite Hv' in Hq0. injection Hq0 as ->.
    destruct best' as [| |b'|]; try done.
    apply feqb_Num in Hbest'. apply fle_Num in Hle. lra. }
  pose proof (Hub r r (Num q1) HrR Hfree Hq1) as Hle.
  destruct best as [| |b|]; try done.
  apply feqb_Num in Hbest. apply fle_Num in Hle. apply feqb_Num.
  assert (Hq_le : (q <= 1)%Q).
  { rewrite Hqv. apply (jaccard_spec (original labels c) (as_set bj) Hsize). }
  lra.
Qed.

End RoundCredits.

Section StabilityRun.
Context {G : Type} {RS : RandomState G}.
Implicit Types w : world G.

#[local] Abbreviation original labels c := (list_to_set (members labels c) : gset nat).

(** [m] rounds starting with the totals [ipc]: every total grows by a
    number between 0 and [m], and by exactly [m] for a cluster whose
    bootstrap set is its original set in every round. *)
Lemma rounds_credits dm cm (labels : list nat) (io : gmap nat indices) d n :
  let clusters := np_unique labels in
  square n d ->
  _translate_cluster_labels_to_dictionary_of_index_sets_per_cluster labels None = Ok io ->
  forall m s w (ipc : gmap nat float64),
    heap w !! dm = Some d ->
    (forall c, c ∈ clusters -> exists t, ipc !! c = Some (Num t)) ->
    (forall i, i < m ->
       exists ib,
         bootstrap_index_sets cm d (Nat.iter i (next_generator n) (np_random w)) = Ok ib /\
         forall c, c ∈ clusters -> is_Some (ib !! c)) ->
    exists ipc' w',
      for_each (seq s m) (fun _ ipc => bootstrap_round dm cm clusters io ipc) ipc w
        = (Ok ipc', w') /\
      heap w' !! dm = Some d /\
      np_random w' = Nat.iter m (next_generator n) (np_random w) /\
      forall c t, c ∈ clusters -> ipc !! c = Some (Num t) ->
        exists t', ipc' !! c = Some (Num t') /\
          (t <= t')%Q /\ (t' <= t + inject_Z (Z.of_nat m))%Q /\
          ((forall i ib bc, i < m ->
              bootstrap_index_sets cm d (Nat.iter i (next_generator n) (np_random w)) = Ok ib ->
              ib !! c = Some bc -> as_set bc = original labels c) ->
           (t' == t + inject_Z (Z.of_nat m))%Q).
Proof.
  intros clusters Hsq Hio. induction m as [|m IH]; intros s w ipc Hdm Hipc Hrounds.
  - exists ipc, w. split; [done|]. split; [done|]. split; [done|].
    intros c t Hc Ht. exists t. split; [done|].
    change (inject_Z (Z.of_nat 0)) with 0%Q.
    split; [lra|]. split; [lra|]. intros _. ring.
  - destruct (Hrounds 0) as (ib & Hib & Hkeys); [lia|]. simpl in Hib.
    destruct (round_credits dm cm labels io ib ipc w d n Hdm Hsq Hio Hib Hkeys)
      as (ipc1 & w1 & Hrun1 & Hdm1 & Hg1 & _ & Hcred).
    { intros c Hc. destruct (Hipc c Hc) as [t ->]. done. }
    fold clusters in Hrun1, Hcred.
    assert (Hstep : forall c t, c ∈ clusters -> ipc !! c = Some (Num t) ->
              exists t1, ipc1 !! c = Some (Num t1) /\ (t <= t1)%Q /\ (t1 <= t + 1)%Q /\
                ((forall bc, ib !! c = Some bc -> as_set bc = original labels c) ->
                 (t1 == t + 1)%Q)).
    { intros c t Hc Ht.
      destruct (Hcred c (Num t) Hc Ht) as (cj & bj & best & Hcj & Hbj & Hbest & Hnew & Hone).
      assert (Hsize : size (original labels c) <> 0).
      { apply members_nonempty. by apply elem_of_np_unique. }
      destruct (jaccard_spec (original labels c) (as_set bj) Hsize) as (Hlo & Hhi & _).
      destruct best as [| |b|]; try done. apply feqb_Num in Hbest.
      exists (Qred (t + b)). split; [exact Hnew|]. rewrite Qred_correct.
      split; [lra|]. split; [lra|].
      intros Hsame. destruct (Hkeys c Hc) as [bc Hbc].
      specialize (Hone bc Hbc (Hsame bc Hbc)). apply feqb_Num in Hone. lra. }
    destruct (IH (S s) w1 ipc1 Hdm1) as (ipc' & w' & Hrun & Hdm' & Hg' & Hrest).
    { intros c Hc. destruct (Hipc c Hc) as [t Ht].
      destruct (Hstep c t Hc Ht) as (t1 & -> & _). by eexists. }
    { intros i Hi. destruct (Hrounds (S i)) as (ib' & Hib' & Hkeys'); [lia|].
      exists ib'. split; [|done]. rewrite Hg1. by rewrite <- Nat.iter_succ_r. }
    exists ipc', w'. split; [simpl; by rewrite (bind_Ok _ _ _ _ _ Hrun1)|].
    split; [done|]. split; [by rewrite Hg', Hg1, <- Nat.iter_succ_r|].
    intros c t Hc Ht.
    destruct (Hstep c t Hc Ht) as (t1 & Ht1 & Hlo1 & Hhi1 & Hone1).
    destruct (Hrest c t1 Hc Ht1) as (t' & Ht' & Hlo & Hhi & Hall).
    exists t'. split; [done|].
    assert (E : (inject_Z (Z.of_nat (S m)) == inject_Z (Z.of_nat m) + 1)%Q).
    { rewrite Nat2Z.inj_succ. unfold Z.succ. rewrite inject_Z_plus. reflexivity. }
    rewrite E. split; [lra|]. split; [lra|].
    intros Hsame.
    assert (H1 : (t1 == t + 1)%Q).
    { apply Hone1. intros bc Hbc. by apply (Hsame 0 ib bc); [lia| |]. }
    assert (H2 : (t' == t1 + inject_Z (Z.of_nat m))%Q).
    { apply Hall. intros i ib' bc Hi Hib' Hbc. apply (Hsame (S i) ib' bc); [lia| |done].
      rewrite Nat.iter_succ_r. by rewrite <- Hg1. }
    lra.
Qed.

(** A call whose every round finds all original clusters among the
    bootstrap labels. *)
Lemma compute_stability_indices_run dm (cm : ndarray -> res (list nat)) (bootstraps : nat)
    (seed : Z) w (d : ndarray) (labels : list nat) (n : nat) :
  let clusters := np_unique labels in
  heap w !! dm = Some d -> square n d -> cm d = Ok labels -> 0 < bootstraps ->
  (forall i, i < bootstraps ->
     exists ib,
       bootstrap_index_sets cm d (Nat.iter i (next_generator n) (np_random w)) = Ok ib /\
       forall c, c ∈ clusters -> is_Some (ib !! c)) ->
  exists table w',
    compute_stability_indices dm cm bootstraps seed w = (Ok table, w') /\
    np_random w' = Nat.iter bootstraps (next_generator n) (np_random w) /\
    (forall c, c ∉ clusters -> table !! c = None) /\
    forall c, c ∈ clusters ->
      exists q, table !! c = Some (Num q) /\ (0 <= q)%Q /\ (q <= 1)%Q /\
        ((forall i ib bc, i < bootstraps ->
            bootstrap_index_sets cm d (Nat.iter i (next_generator n) (np_random w)) = Ok ib ->
            ib !! c = Some bc -> as_set bc = original labels c) ->
         q = 1%Q).
Proof.
  intros clusters Hdm Hsq Hcm Hb Hrounds.
  destruct (translate_original labels) as (io & Hio & _).
  set (w0 := World (heap w) (np_random w) (SeedValue seed) (stdout w)).
  set (ipc := list_to_map ((fun cluster => (cluster, Num 0)) <$> clusters)
              : gmap nat float64).
  assert (Hipc : forall c, c ∈ clusters -> ipc !! c = Some (Num 0)).
  { intros c Hc. destruct (initial_totals clusters (NoDup_np_unique _) c Hc) as (q & Hq & Hqv).
    fold ipc in Hq. rewrite Hq. f_equal.
    apply elem_of_list_to_map_2 in Hq. apply list_elem_of_fmap in Hq as (c' & E & _).
    by injection E as _ ->. }
  destruct (rounds_credits dm cm labels io d n Hsq Hio bootstraps 0 w0 ipc Hdm)
    as (ipc' & w' & Hloop & Hdm' & Hg' & Htot).
  { intros c Hc. exists 0%Q. by apply Hipc. }
  { done. }
  fold clusters in Hloop, Htot.
  destruct (normalize_is_Ok clusters ipc' bootstraps Hb) as [table Htable].
  { intros c Hc. destruct (Htot c 0%Q Hc (Hipc c Hc)) as (t' & -> & _). done. }
  exists table, w'. split.
  { unfold compute_stability_indices.
    rewrite (bind_Ok _ _ w d w) by (by apply np_read_run).
    rewrite (bind_Ok _ _ w tt w).
    2:{ rewrite (square_shape n d Hsq). by rewrite bool_decide_eq_true_2. }
    rewrite (bind_Ok _ _ w tt w0) by done.
    rewrite (bind_Ok _ _ w0 labels w0) by (by rewrite lift_run, Hcm).
    rewrite (bind_Ok _ _ w0 io w0) by (by rewrite lift_run, Hio).
    fold clusters ipc. rewrite (bind_Ok _ _ _ _ _ Hloop). by rewrite lift_run, Htable. }
  split; [done|].
  apply normalize_run in Htable as [Hin Hout]. split; [done|].
  intros c Hc. destruct (Hin c Hc) as (total & v & Htotal & Hv & ->).
  destruct (Htot c 0%Q Hc (Hipc c Hc)) as (t' & Ht' & Hlo & Hhi & Hall).
  rewrite Ht' in Htotal. injection Htotal as <-.
  pose proof (inject_nat_pos bootstraps Hb) as Hpos.
  unfold normalize_total in Hv. rewrite decide_False in Hv by lia.
  unfold of_nat in Hv. rewrite fdiv_Num in Hv by lra. injection Hv as <-.
  unfold num. eexists. split; [reflexivity|].
  split; [rewrite Qred_correct; apply Qle_shift_div_l; lra|].
  split; [rewrite Qred_correct; apply Qle_shift_div_r; lra|].
  intros Hsame. change 1%Q with (Qred 1). apply Qred_complete.
  rewrite (Hall Hsame). field. lra.
Qed.

End StabilityRun.

Section ReturningCalls.
Context {G : Type} {RS : RandomState G}.
Implicit Types w : world G.

Lemma bootstrap_matrix_inv dm w (d : ndarray) l mapping w1 :
  heap w !! dm = Some d ->
  bootstrap_matrix dm w = (Ok (l, mapping), w1) ->
  let s := (choice (np_random w) (length d)).1 in
  exists b, resample d s = Ok b /\ mapping = map_seq 0 s /\ heap w1 !! l = Some b.
Proof.
  intros Hdm H s. unfold bootstrap_matrix in H.
  apply bind_inv_Ok in H as (a & w0 & Hread & H).
  rewrite (np_read_run w dm d Hdm) in Hread. injection Hread as <- <-.
  apply bind_inv_Ok in H as (s' & w2 & Hs & H).
  unfold np_random_choice in Hs.
  destruct (choice (np_random w) (length d)) as [s0 g0] eqn:E.
  injection Hs as <- <-. subst s. simpl.
  apply bind_inv_Ok in H as (cols & w3 & Hcols & H).
  apply lift_inv_Ok in Hcols as [Hcols ->].
  apply bind_inv_Ok in H as (l1 & w4 & Hl1 & H). injection Hl1 as <- <-.
  apply bind_inv_Ok in H as (rows & w5 & Hrows & H).
  apply lift_inv_Ok in Hrows as [Hrows ->].
  apply bind_inv_Ok in H as (l2 & w6 & Hl2 & H). injection Hl2 as <- <-.
  injection H as <- <- <-.
  exists rows. split; [|split; [done|]].
  - unfold resample. by rewrite Hcols.
  - simpl. apply lookup_insert_eq.
Qed.

(** A round that completes has found every original cluster among its
    bootstrap labels. *)
Lemma bootstrap_round_inv dm cm (labels : list nat) (io : gmap nat indices)
    (ipc ipc' : gmap nat float64) w w' (d : ndarray) :
  heap w !! dm = Some d ->
  _translate_cluster_labels_to_dictionary_of_index_sets_per_cluster labels None = Ok io ->
  bootstrap_round dm cm (np_unique labels) io ipc w = (Ok ipc', w') ->
  exists ib,
    bootstrap_index_sets cm d (np_random w) = Ok ib /\
    forall c, c ∈ np_unique labels -> is_Some (ib !! c).
Proof.
  intros Hdm Hio H.
  assert (Hib : exists ib, bootstrap_index_sets cm d (np_random w) = Ok ib).
  { unfold bootstrap_round in H.
    apply bind_inv_Ok in H as ([l mapping] & w1 & Hboot & H).
    destruct (bootstrap_matrix_inv dm w d l mapping w1 Hdm Hboot) as (b & Hres & -> & Hl).
    apply bind_inv_Ok in H as (b' & w2 & Hread & H).
    rewrite (np_read_run w1 l b Hl) in Hread. injection Hread as <- <-.
    apply bind_inv_Ok in H as (bootstrapped_labels & w3 & Hcm & H).
    apply lift_inv_Ok in Hcm as [Hcm ->].
    apply bind_inv_Ok in H as (ib & w3 & Hib & _).
    apply lift_inv_Ok in Hib as [Hib _].
    exists ib. unfold bootstrap_index_sets. rewrite Hres. simpl. by rewrite Hcm. }
  destruct Hib as [ib Hib]. exists ib. split; [done|].
  intros c Hc. destruct (ib !! c) as [bc|] eqn:E; [done|]. exfalso.
  destruct (bootstrap_round_missing_key dm cm labels io ib ipc w d c Hdm Hio Hib Hc E)
    as (c' & _ & _ & Hraise).
  by rewrite H in Hraise.
Qed.

Lemma rounds_inv dm cm (labels : list nat) (io : gmap nat indices) d n :
  let clusters := np_unique labels in
  square n d ->
  _translate_cluster_labels_to_dictionary_of_index_sets_per_cluster labels None = Ok io ->
  forall m s w (ipc ipc' : gmap nat float64) w',
    heap w !! dm = Some d ->
    (forall c, c ∈ clusters -> is_Some (ipc !! c)) ->
    for_each (seq s m) (fun _ ipc => bootstrap_round dm cm clusters io ipc) ipc w
      = (Ok ipc', w') ->
    forall i, i < m ->
      exists ib,
        bootstrap_index_sets cm d (Nat.iter i (next_generator n) (np_random w)) = Ok ib /\
        forall c, c ∈ clusters -> is_Some (ib !! c).
Proof.
  intros clusters Hsq Hio. induction m as [|m IH]; intros s w ipc ipc' w' Hdm Hipc H i Hi;
    [lia|].
  simpl in H. apply bind_inv_Ok in H as (ipc1 & w1 & Hround & H).
  destruct (bootstrap_round_inv dm cm labels io ipc ipc1 w w1 d Hdm Hio Hround)
    as (ib & Hib & Hkeys).
  destruct i as [|i]; [by exists ib|].
  destruct (bootstrap_round_run dm cm labels io ib ipc w d n Hdm Hsq Hio Hib Hkeys Hipc)
    as (J & picks & a' & ipc1' & w1' & Hrun1 & Hdm1 & Hg1 & _ & _ & _ & _ & _ & Hipc1 & _).
  fold clusters in Hrun1. rewrite Hround in Hrun1. injection Hrun1 as <- <-.
  destruct (IH (S s) w1 ipc1 ipc' w' Hdm1 Hipc1 H i) as (ib' & Hib' & Hkeys'); [lia|].
  exists ib'. split; [|done]. rewrite Nat.iter_succ_r. by rewrite <- Hg1.
Qed.

(** A call that returns was asked for at least one round, and each of
    its rounds found every original cluster. *)
Lemma returning_call_inv dm (cm : ndarray -> res (list nat)) (bootstraps : nat) (seed : Z)
    w (d : ndarray) (n : nat) table w' :
  heap w !! dm = Some d -> square n d ->
  compute_stability_indices dm cm bootstraps seed w = (Ok table, w') ->
  exists labels,
    cm d = Ok labels /\
    (labels <> [] -> 0 < bootstraps) /\
    (forall c, is_Some (table !! c) -> c ∈ np_unique labels) /\
    forall i, i < bootstraps ->
      exists ib,
        bootstrap_index_sets cm d (Nat.iter i (next_generator n) (np_random w)) = Ok ib /\
        forall c, c ∈ np_unique labels -> is_Some (ib !! c).
Proof.
  intros Hdm Hsq H.
  unfold compute_stability_indices in H.
  apply bind_inv_Ok in H as (d' & w0 & Hread & H).
  rewrite (np_read_run w dm d Hdm) in Hread. injection Hread as <- <-.
  apply bind_inv_Ok in H as ([] & w1 & Hassert & H).
  assert (w1 = w) as ->.
  { unfold py_assert in Hassert. destruct (bool_decide _); [by injection Hassert|done]. }
  apply bind_inv_Ok in H as ([] & w2 & Hseed & H). injection Hseed as <-.
  apply bind_inv_Ok in H as (labels & w3 & Hcm & H).
  apply lift_inv_Ok in Hcm as [Hcm ->].
  destruct (translate_original labels) as (io & Hio & _).
  apply bind_inv_Ok in H as (io' & w3 & Hio' & H).
  apply lift_inv_Ok in Hio' as [Hio' ->]. rewrite Hio in Hio'. injection Hio' as <-.
  apply bind_inv_Ok in H as (ipc' & w4 & Hloop & H).
  apply lift_inv_Ok in H as [Hnorm _].
  set (clusters := np_unique labels) in *.
  exists labels. split; [done|]. split; [|split].
  { intros Hne. destruct bootstraps as [|b]; [|lia]. exfalso.
    apply normalize_run in Hnorm as [Hin _].
    destruct labels as [|c0 rest]; [done|].
    destruct (Hin c0) as (total & v & _ & Hv & _).
    { apply elem_of_np_unique. by left. }
    unfold normalize_total in Hv. by rewrite decide_True in Hv. }
  { intros c [v Hv]. apply normalize_run in Hnorm as [_ Hout].
    destruct (decide (c ∈ clusters)) as [Hc|Hc]; [done|].
    rewrite (Hout c Hc) in Hv. done. }
  set (w0 := World (heap w) (np_random w) (SeedValue seed) (stdout w)) in *.
  set (ipc := list_to_map ((fun cluster => (cluster, Num 0)) <$> clusters)
              : gmap nat float64) in *.
  assert (Hipc : forall c, c ∈ clusters -> is_Some (ipc !! c)).
  { intros c Hc. apply elem_of_dom. unfold ipc.
    rewrite dom_list_to_map_L, <- list_fmap_compose. simpl.
    rewrite list_fmap_id. by apply elem_of_list_to_set. }
  exact (rounds_inv dm cm labels io d n Hsq Hio bootstraps 0 w0 ipc ipc' w4
           Hdm Hipc Hloop).
Qed.

End ReturningCalls.

Section StabilityTables.
Context {G : Type} {RS : RandomState G}.
Implicit Types w : world G.

Lemma foldl_py_min_spec (l : list float64) : forall x,
  comparable x -> Forall comparable l ->
  let m := foldl (fun least v => if flt v least then v else least) x l in
  comparable m /\ m ∈ x :: l /\ forall v, v ∈ x :: l -> fle m v = true.
Proof.
  induction l as [|y l IH]; intros x Hx Hl; simpl.
  - split; [done|]. split; [by left|]. intros v [->|Hv]%elem_of_cons;
      [by apply fle_refl|by apply elem_of_nil in Hv].
  - inversion Hl as [|? ? Hy Hl']; subst.
    destruct (flt y x) eqn:E.
    + destruct (IH y Hy Hl') as (Hm & Hin & Hle). split; [done|]. split.
      * apply elem_of_cons in Hin as [->|Hin]; [by right; left|by right; right].
      * intros v [->|[->|Hv]%elem_of_cons]%elem_of_cons.
        -- eapply fle_trans; [apply Hle; by left|by apply flt_fle].
        -- apply Hle. by left.
        -- apply Hle. by right.
    + destruct (IH x Hx Hl') as (Hm & Hin & Hle). split; [done|]. split.
      * apply elem_of_cons in Hin as [->|Hin]; [by left|by right; right].
      * intros v [->|[->|Hv]%elem_of_cons]%elem_of_cons.
        -- apply Hle. by left.
        -- eapply fle_trans; [apply Hle; by left|by apply flt_false_fle].
        -- apply Hle. by right.
Qed.

Lemma py_min_spec (l : list float64) m :
  Forall comparable l -> py_min l = Ok m ->
  m ∈ l /\ forall v, v ∈ l -> fle m v = true.
Proof.
  intros Hl H. destruct l as [|x l]; [done|]. simpl in H. injection H as <-.
  inversion Hl; subst. by apply foldl_py_min_spec.
Qed.

Lemma elem_of_dict_values (d : gmap nat float64) v :
  v ∈ dict_values d <-> exists c, d !! c = Some v.
Proof.
  unfold dict_values. rewrite list_elem_of_omap. split.
  - intros (c & _ & Hc). by exists c.
  - intros (c & Hc). exists c. split; [|done].
    rewrite merge_sort_Permutation. apply elem_of_elements, elem_of_dom. by rewrite Hc.
Qed.

Lemma flt_fle_trans x y z : flt x y = true -> fle y z = true -> flt x z = true.
Proof.
  destruct x as [| |a|], y as [| |b|], z as [| |c|]; try done.
  rewrite !flt_Num, fle_Num. lra.
Qed.

(** The scores of a table that a call returned are numbers between 0 and 1,
    one per cluster of the labels of the distance matrix. *)
Lemma returned_scores_between_0_and_1 dm (cm : ndarray -> res (list nat))
    (bootstraps : nat) (seed : Z) w (d : ndarray) (n : nat) table w' :
  heap w !! dm = Some d -> square n d ->
  compute_stability_indices dm cm bootstraps seed w = (Ok table, w') ->
  exists labels,
    cm d = Ok labels /\
    (forall c, is_Some (table !! c) <-> c ∈ labels) /\
    forall c v, table !! c = Some v -> between 0 1 v.
Proof.
  intros Hdm Hsq Hrun.
  destruct (returning_call_inv dm cm bootstraps seed w d n table w' Hdm Hsq Hrun)
    as (labels & Hcm & Hb & Hkeys & Hrounds).
  exists labels. split; [done|].
  destruct labels as [|c0 rest] eqn:El.
  { split.
    - intros c. split; [|by intros ?%elem_of_nil].
      intros Hc. apply Hkeys in Hc. by apply elem_of_nil in Hc.
    - intros c v Hv. assert (is_Some (table !! c)) as Hc by (by rewrite Hv).
      apply Hkeys in Hc. by apply elem_of_nil in Hc. }
  rewrite <- El in *. assert (Hne : labels <> []) by (by rewrite El).
  destruct (compute_stability_indices_run dm cm bootstraps seed w d labels n Hdm Hsq Hcm
              (Hb Hne) Hrounds) as (table' & w'' & Hrun' & _ & Hout & Hin).
  rewrite Hrun in Hrun'. injection Hrun' as <- <-. split.
  - intros c. rewrite <- elem_of_np_unique. split; [apply Hkeys|].
    intros Hc. destruct (Hin c Hc) as (q & -> & _). done.
  - intros c v Hv. destruct (decide (c ∈ np_unique labels)) as [Hc|Hc].
    + destruct (Hin c Hc) as (q & Hq & Hlo & Hhi & _). rewrite Hq in Hv.
      injection Hv as <-. by split.
    + rewrite (Hout c Hc) in Hv. done.
Qed.

End StabilityTables.

Section SearchTables.
Context {G : Type} {RS : RandomState G} {KM : KMedoidsLib}.
Implicit Types w : world G.

Lemma square_two_dimensional n (d : ndarray) : square n d -> two_dimensional d.
Proof.
  intros [Hlen Hrows]. unfold two_dimensional, shape. simpl.
  destruct d as [|row d]; [constructor|]. simpl.
  apply Forall_cons in Hrows as [Hrow Hrows].
  rewrite Hrow. by constructor.
Qed.

(** A call that passed the assertion was given a square matrix. *)
Lemma returning_call_square dm cm bootstraps seed w (d : ndarray) table w' :
  heap w !! dm = Some d -> two_dimensional d ->
  compute_stability_indices dm cm bootstraps seed w = (Ok table, w') ->
  square (length d) d.
Proof.
  intros Hdm Hrect H. unfold compute_stability_indices in H.
  apply bind_inv_Ok in H as (d' & w0 & Hread & H).
  rewrite (np_read_run w dm d Hdm) in Hread. injection Hread as <- <-.
  apply bind_inv_Ok in H as ([] & w1 & Hassert & _).
  unfold py_assert in Hassert.
  destruct (bool_decide ((shape d).1 = (shape d).2)) eqn:E; [|done].
  apply bool_decide_eq_true_1 in E. split; [done|].
  unfold two_dimensional in Hrect. rewrite <- E in Hrect. exact Hrect.
Qed.

(** What a run of the loop that returned did with each candidate: the
    minimum it printed is a least score of the table that
    [compute_stability_indices] returned for the candidate's clustering of
    the distance matrix, and the candidate was scored exactly when that
    minimum exceeds the threshold. *)
Lemma optimizeK_loop_tables dm y rs dv bs mi method : forall ks best w best' w',
  (forall d, heap w !! dm = Some d -> two_dimensional d) ->
  for_each ks (optimizeK_candidate dm y rs dv bs mi method) best w = (Ok best', w') ->
  exists outcomes,
    cand_k <$> outcomes = ks /\
    stdout w' = stdout w ++ concat (outcome_events <$> outcomes) /\
    best' = foldl keep_best best outcomes /\
    forall o, o ∈ outcomes ->
      exists d labels table w0 w1,
        heap w !! dm = Some d /\ heap w0 !! dm = Some d /\ square (length d) d /\
        KMedoids_fit_labels (cand_k o) rs mi d = Ok labels /\
        compute_stability_indices dm (KMedoids_fit_labels (cand_k o) rs mi) bs rs w0
          = (Ok table, w1) /\
        (forall c, is_Some (table !! c) <-> c ∈ labels) /\
        (forall c v, table !! c = Some v -> between 0 1 v) /\
        (exists c, table !! c = Some (cand_min_index o)) /\
        (forall c v, table !! c = Some v -> fle (cand_min_index o) v = true) /\
        (cand_score o = None <-> flt dv (cand_min_index o) = false) /\
        (is_Some (cand_score o) <-> forall c v, table !! c = Some v -> flt dv v = true) /\
        (forall s, cand_score o = Some s -> quality_score method y labels = Ok s).
Proof.
  intros ks best w best' w' Hrect H.
  destruct (optimizeK_loop_inv dm y rs dv bs mi method ks best w best' w' H)
    as (outcomes & Hks & Hout & Hbest & Hall).
  exists outcomes. split; [done|]. split; [done|]. split; [done|].
  intros o Ho. destruct (Hall o Ho) as [Hrej Hrest].
  destruct Hrest as (d & labels & table & w0 & w1 & Hdm & Hdm0 & Hfit & Hstab & Hmin & Hscore).
  pose proof (returning_call_square _ _ _ _ _ _ _ _ Hdm0 (Hrect d Hdm) Hstab) as Hsq.
  destruct (returned_scores_between_0_and_1 _ _ _ _ _ _ _ _ _ Hdm0 Hsq Hstab)
    as (labels' & Hfit' & Hkeys & Hunit).
  rewrite Hfit in Hfit'. injection Hfit' as <-.
  assert (Hcmp : Forall comparable (dict_values table)).
  { apply Forall_forall. intros v [c Hc]%elem_of_dict_values.
    specialize (Hunit c v Hc). by destruct v. }
  destruct (py_min_spec _ _ Hcmp Hmin) as [Hin Hle].
  apply elem_of_dict_values in Hin.
  assert (Hleast : forall c v, table !! c = Some v -> fle (cand_min_index o) v = true).
  { intros c v Hc. apply Hle, elem_of_dict_values. by exists c. }
  exists d, labels, table, w0, w1.
  split; [done|]. split; [done|]. split; [done|]. split; [done|]. split; [done|].
  split; [done|]. split; [done|]. split; [done|]. split; [done|]. split; [done|].
  split; [|done]. split.
  - intros [s Hs] c v Hc.
    assert (Hlt : flt dv (cand_min_index o) = true).
    { destruct (flt dv (cand_min_index o)); [done|].
      destruct Hrej as [_ Hnone]. rewrite Hnone in Hs; done. }
    eapply flt_fle_trans; [exact Hlt|]. by eapply Hleast.
  - intros Hstable. destruct Hin as [c Hc]. specialize (Hstable c _ Hc).
    destruct (cand_score o) eqn:Hs; [done|].
    destruct Hrej as [Hnone _]. rewrite Hnone in Hstable; done.
Qed.

End SearchTables.

(** * The claims *)

Section Claims.
Context {G : Type} {RS : RandomState G} {KM : KMedoidsLib}.
Implicit Types w : world G.

(** C2, as the code has it. In a run of the search that returns, every
    candidate [k] of [range(2, max_K)] is clustered on the distance matrix
    and prints its minimum stability: a least score of the table that
    [compute_stability_indices] returns for that clustering, which has one
    score per cluster. A candidate whose minimum is at most the discard
    threshold prints that it is unstable and gets no score, every other
    candidate gets the score of the chosen method on its labels. If no
    score is below [+inf] (no candidate was scored, or every score is
    [nan]), the search returns 1. Otherwise it returns the first candidate
    with a least score: every earlier score is larger (or [nan]) and no
    later score is smaller, so the smallest such [k] wins a tie. *)
Theorem optimizeK_returns_first_least_score dm (x : ndarray) (y : list float64)
    max_K rs dv bs mi method w kopt w' :
  (forall d, heap w !! dm = Some d -> two_dimensional d) ->
  optimizeK dm x y max_K rs dv bs mi method w = (Ok kopt, w') ->
  exists outcomes : list candidate_outcome,
    cand_k <$> outcomes = seq 2 (max_K - 2) /\
    stdout w' = stdout w ++ concat (outcome_events <$> outcomes) /\
    (forall o, o ∈ outcomes ->
       exists d labels table w0 w1,
         heap w !! dm = Some d /\ heap w0 !! dm = Some d /\
         KMedoids_fit_labels (cand_k o) rs mi d = Ok labels /\
         compute_stability_indices dm (KMedoids_fit_labels (cand_k o) rs mi) bs rs w0
           = (Ok table, w1) /\
         (forall c, is_Some (table !! c) <-> c ∈ labels) /\
         (exists c, table !! c = Some (cand_min_index o)) /\
         (forall c v, table !! c = Some v -> fle (cand_min_index o) v = true) /\
         (fle (cand_min_index o) dv = true -> cand_score o = None) /\
         (cand_score o = None <-> flt dv (cand_min_index o) = false) /\
         (forall s, cand_score o = Some s -> quality_score method y labels = Ok s)) /\
    (((forall o s, o ∈ outcomes -> cand_score o = Some s -> flt s PInf = false) /\
      kopt = 1)
     \/
     (exists pre o post s,
        outcomes = pre ++ o :: post /\ cand_score o = Some s /\ kopt = cand_k o /\
        flt s PInf = true /\
        (forall o' s', o' ∈ pre -> cand_score o' = Some s' ->
                       fle s' s = false /\ cand_k o' < kopt) /\
        (forall o' s', o' ∈ post -> cand_score o' = Some s' ->
                       flt s' s = false /\ kopt < cand_k o'))).
Proof.
  unfold optimizeK. intros Hrect H.
  apply bind_inv_Ok in H as (best & w1 & Hloop & H). injection H as <- <-.
  apply optimizeK_loop_tables in Hloop as (outcomes & Hks & Hout & -> & Hall); [|done].
  exists outcomes. split; [done|]. split; [done|]. split.
  { intros o Ho.
    destruct (Hall o Ho) as (d & labels & table & w0 & w2 & Hdm & Hdm0 & _ & Hfit & Hstab
                             & Hkeys & _ & Hmin & Hleast & Hrej & _ & Hscore).
    exists d, labels, table, w0, w2.
    split; [done|]. split; [done|]. split; [done|]. split; [done|]. split; [done|].
    split; [done|]. split; [done|]. split; [|done].
    intros Hle. apply Hrej. by apply fle_flt_false. }
  destruct (keep_best_spec outcomes PInf 1)
    as [[Hsame Hnone]|(pre & o & post & s & E & Hs & Hfold & Hlt & Hpre & Hpost)].
  - left. split; [done|]. by rewrite Hsame.
  - right. exists pre, o, post, s. rewrite Hfold. simpl.
    split; [done|]. split; [done|]. split; [done|]. split; [done|].
    assert (Hsorted : forall i j ki kj, (seq 2 (max_K - 2)) !! i = Some ki ->
              (seq 2 (max_K - 2)) !! j = Some kj -> i < j -> ki < kj).
    { intros i j ki kj [-> _]%lookup_seq [-> _]%lookup_seq. lia. }
    rewrite <- Hks, E in Hsorted.
    assert (Hmid : (cand_k <$> pre ++ o :: post) !! length pre = Some (cand_k o)).
    { rewrite list_lookup_fmap, list_lookup_middle; done. }
    split.
    + intros o' s' [i Hi]%list_elem_of_lookup Hs'. split; [by eapply Hpre; [eapply list_elem_of_lookup_2|]|].
      apply (Hsorted i (length pre)); [|done|by eapply lookup_lt_Some].
      rewrite list_lookup_fmap, lookup_app_l by (by eapply lookup_lt_Some).
      by rewrite Hi.
    + intros o' s' [i Hi]%list_elem_of_lookup Hs'. split; [by eapply Hpost; [eapply list_elem_of_lookup_2|]|].
      apply (Hsorted (length pre) (length pre + S i)); [done| |lia].
      rewrite list_lookup_fmap, lookup_app_r by lia.
      replace (length pre + S i - length pre) with (S i) by lia. simpl. by rewrite Hi.
Qed.

(** C5, as the code has it. When the distance matrix is square, at least
    one bootstrap round is run, and in every round the bootstrap index sets
    are the original ones, the call returns a table that maps every
    original cluster to exactly 1 (and nothing else). *)
Theorem stability_is_one_without_resampling_noise dm (cm : ndarray -> res (list nat))
    (bootstraps : nat) (seed : Z) w (d : ndarray) (labels : list nat) (n : nat)
    (io : gmap nat indices) :
  let clusters := np_unique labels in
  heap w !! dm = Some d -> square n d -> 0 < bootstraps ->
  cm d = Ok labels ->
  _translate_cluster_labels_to_dictionary_of_index_sets_per_cluster labels None = Ok io ->
  (forall i, i < bootstraps ->
     exists ib,
       bootstrap_index_sets cm d (Nat.iter i (next_generator n) (np_random w)) = Ok ib /\
       same_index_sets clusters io ib) ->
  exists table w',
    compute_stability_indices dm cm bootstraps seed w = (Ok table, w') /\
    (forall c, c ∈ clusters -> table !! c = Some (Num 1)) /\
    (forall c, c ∉ clusters -> table !! c = None).
Proof.
  intros clusters Hdm Hsq Hb Hcm Hio Hrounds.
  set (w0 := World (heap w) (np_random w) (SeedValue seed) (stdout w)).
  destruct (rounds_without_noise dm cm labels io d n Hsq Hio bootstraps 0 0 w0
              (list_to_map ((fun cluster => (cluster, Num 0)) <$> clusters)))
    as (ipc' & w' & Hloop & Htot).
  { done. }
  { apply initial_totals, NoDup_np_unique. }
  { done. }
  destruct (normalize_is_Ok clusters ipc' bootstraps Hb) as [table Htable].
  { intros c Hc. destruct (Htot c Hc) as (q & -> & _). done. }
  exists table, w'. split.
  - unfold compute_stability_indices.
    rewrite (bind_Ok _ _ w d w) by (by apply np_read_run).
    rewrite (bind_Ok _ _ w tt w).
    2:{ rewrite (square_shape n d Hsq). by rewrite bool_decide_eq_true_2. }
    rewrite (bind_Ok _ _ w tt w0) by done.
    rewrite (bind_Ok _ _ w0 labels w0) by (by rewrite lift_run, Hcm).
    rewrite (bind_Ok _ _ w0 io w0) by (by rewrite lift_run, Hio).
    fold clusters. rewrite (bind_Ok _ _ _ _ _ Hloop). by rewrite lift_run, Htable.
  - apply normalize_run in Htable as [Hin Hout]. split; [|done].
    intros c Hc. destruct (Hin c Hc) as (total & v & Htotal & Hv & ->).
    destruct (Htot c Hc) as (q & Hq & Hqv). rewrite Hq in Htotal. injection Htotal as <-.
    pose proof (inject_nat_pos bootstraps Hb).
    unfold normalize_total in Hv. rewrite decide_False in Hv by lia.
    unfold of_nat in Hv. rewrite fdiv_Num in Hv by lra.
    injection Hv as <-. f_equal. apply num_one. rewrite Hqv. simpl. field. lra.
Qed.

(** C6. For a square [n] by [n] array, [bootstrap_matrix] returns a new
    [n] by [n] array and a mapping defined on [0..n-1] with
    [M'[p, q] = M[mapping[p], mapping[q]]] for all [p, q < n]; a symmetric
    input gives a symmetric output. *)
Theorem bootstrap_matrix_resamples_rows_and_columns dm w (a : ndarray) (n : nat) :
  heap w !! dm = Some a -> square n a ->
  exists l mapping b w',
    bootstrap_matrix dm w = (Ok (l, mapping), w') /\
    heap w' !! l = Some b /\
    square n b /\
    (forall p q, p < n -> q < n ->
       exists mp mq v,
         mapping !! p = Some mp /\ mapping !! q = Some mq /\
         entry b p q = Some v /\ entry a mp mq = Some v) /\
    (symmetric a -> symmetric b).
Proof.
  intros Hdm Hsq.
  set (s := (choice (np_random w) (length a)).1).
  assert (Hlen : length s = n) by (unfold s; rewrite choice_length; apply Hsq).
  assert (Hrange : forall i, i ∈ s -> i < n).
  { intros i Hi. apply choice_range in Hi. by rewrite (proj1 Hsq) in Hi. }
  destruct (take_cols_is_Ok n a s Hsq Hrange) as [cols Hcols].
  destruct (take_rows_is_Ok cols s) as [b Hrows].
  { intros i Hi. rewrite (take_cols_length _ _ _ Hcols), (proj1 Hsq). by apply Hrange. }
  eexists _, _, b, _. split; [by apply (bootstrap_matrix_run dm w a cols b)|].
  split; [apply lookup_insert_eq|]. split; [by eapply resample_square|]. split.
  - intros p q Hp Hq.
    destruct (lookup_lt_is_Some_2 s p) as [mp Hmp]; [lia|].
    destruct (lookup_lt_is_Some_2 s q) as [mq Hmq]; [lia|].
    destruct (square_entry n a mp mq Hsq) as [v Hv].
    { apply Hrange. by eapply list_elem_of_lookup_2. }
    { apply Hrange. by eapply list_elem_of_lookup_2. }
    exists mp, mq, v. rewrite !lookup_map_seq_0. split; [done|]. split; [done|].
    split; [|done]. rewrite (resample_entry a s cols b p q Hcols Hrows).
    fold s. rewrite Hmp. simpl. rewrite Hmq. done.
  - intros Hsym p q. rewrite !(resample_entry a s cols b _ _ Hcols Hrows).
    destruct (s !! p) as [i|], (s !! q) as [j|]; simpl; first [apply Hsym | done].
Qed.

(** C9. A run of the search writes to no array that existed before it: the
    distance matrix, like every array allocated before the call, has the
    same contents afterwards, whether the run returns or raises. Every
    bootstrap round works on an array that [bootstrap_matrix] allocates
    anew. *)
Theorem optimizeK_leaves_the_distance_matrix dm (x : ndarray) (y : list float64)
    max_K rs dv bs mi method w (d : ndarray) :
  heap w !! dm = Some d ->
  heap (optimizeK dm x y max_K rs dv bs mi method w).2 !! dm = Some d /\
  (forall l a, heap w !! l = Some a ->
               heap (optimizeK dm x y max_K rs dv bs mi method w).2 !! l = Some a) /\
  (forall w0 l mapping w1,
     bootstrap_matrix dm w0 = (Ok (l, mapping), w1) ->
     l <> dm /\ (l ∉ dom (heap w0)) /\ heap w0 ⊆ heap w1).
Proof.
  intros Hdm.
  pose proof (optimizeK_keeps_heap dm x y max_K rs dv bs mi method w) as Hheap.
  unfold keeps_heap in Hheap.
  split; [by eapply lookup_weaken|]. split; [intros l a Hl; by eapply lookup_weaken|].
  intros w0 l mapping w1 Hboot.
  destruct (bootstrap_matrix_fresh dm w0 l mapping w1 Hboot) as [Hfresh Hne].
  split; [done|]. split; [done|].
  pose proof (bootstrap_matrix_grows dm w0) as [Hsub _]. by rewrite Hboot in Hsub.
Qed.

End Claims.

Section QualityClaims.

(** C8. For a binary target with both labels present, every value appended
    to [balanced_purities] lies in [0, 4]; when every cluster holds one
    class only, the averaged score is 0; and with 90 zeros and 10 ones the
    up-scaling factor is exactly 9. *)
Theorem balanced_purity_bounds_and_scenarios (y : list float64) (labels : list nat) :
  binary y -> length y = length labels ->
  0 < count_equal (Num 0) y -> 0 < count_equal (Num 1) y ->
  (exists ps, balanced_purities y labels = Ok ps /\
              length ps = length (np_unique labels) /\
              Forall (between 0 4) ps) /\
  ((forall cluster y_cluster,
      cluster ∈ np_unique labels -> mask_select y labels cluster = Ok y_cluster ->
      count_equal (Num 0) y_cluster = 0 \/ count_equal (Num 1) y_cluster = 0) ->
   compute_balanced_average_purity y labels = Ok (Num 0)) /\
  (count_equal (Num 0) y = 90 -> count_equal (Num 1) y = 10 ->
   (up_scaling (count_equal (Num 0) y) (count_equal (Num 1) y)).2 = Num 9).
Proof.
  intros Hbin Hlen H0 H1.
  destruct (balanced_purities_defined y labels Hbin Hlen H0 H1)
    as (ps & Hps & Hlps & Hne & Hunit & Hsep).
  split; [|split].
  - exists ps. split; [done|]. split.
    + done.
    + eapply Forall_impl; [exact Hunit|]. intros [| |q|]; simpl; try done.
      intros [Hq0 Hq1]. split; [done|]. lra.
  - intros Hpure. unfold compute_balanced_average_purity.
    destruct y as [|v y]; [by apply count_equal_pos in H0|].
    rewrite Hps. simpl. f_equal. apply np_mean_zeros; [done|]. apply Hsep.
    intros cluster Hc. apply (Hpure cluster); [done|]. by apply mask_select_Ok.
  - intros -> ->. reflexivity.
Qed.


End QualityClaims.

(** * Concrete runs *)

Section Runs.

#[local] Abbreviation cluster_in_two := (KMedoids_fit_labels 2 42%Z 300).

(** The caller's [max_K] is not used. *)
Lemma forest_guided_clustering_max_K_unused {G : Type} {RS : RandomState G}
    {KM : KMedoidsLib} model data target_column output (m m' : nat) thr_pvalue
    random_state bootstraps max_iter_clustering number_of_clusters (w : world G) :
  forest_guided_clustering model data target_column output m thr_pvalue random_state
    bootstraps max_iter_clustering number_of_clusters w
  = forest_guided_clustering model data target_column output m' thr_pvalue random_state
      bootstraps max_iter_clustering number_of_clusters w.
Proof. reflexivity. Qed.

(** C1. One round of the matching for the original labeling
    [[0, 0, 1, 1]] and a bootstrap labeling over the same two cluster ids
    that leaves the id 1 unused: on the sample [[0, 0, 0, 0]] every
    bootstrap label is 0. The bootstrap dictionary has the key 0 only;
    building the Jaccard matrix looks the key 1 up and the round raises
    [KeyError] after the first entry. No pass of the matching loop is run
    and no cluster is credited. *)
Theorem matching_round_raises_on_unused_cluster_id :
  let w := world0 0 0 two_pairs in
  let labels := [0; 0; 1; 1] in
  let clusters := np_unique labels in
  let totals : gmap nat float64 := {[ 0 := Num 0; 1 := Num 0 ]} in
  exists io ib,
    cluster_in_two two_pairs = Ok labels /\
    _translate_cluster_labels_to_dictionary_of_index_sets_per_cluster labels None = Ok io /\
    (choice (np_random w) 4).1 = [0; 0; 0; 0] /\
    bootstrap_index_sets cluster_in_two two_pairs (np_random w) = Ok ib /\
    ib !! 0 = Some (IdxList [0; 0; 0; 0]) /\ ib !! 1 = None /\
    (jaccard_matrix <- _compute_jaccard_matrix clusters ib io ;;
     greedy_matching jaccard_matrix clusters totals) w
    = (Raise (KeyError 1),
       with_heap (<[1 := [[Num (1 # 2); Num 0]; [Num 0; Num 0]]]> (heap w)) w) /\
    (bootstrap_round 0 cluster_in_two clusters io totals w).1 = Raise (KeyError 1).
Proof.
  eexists _, _. split; [reflexivity|]. split; [vm_compute; reflexivity|].
  split; [reflexivity|]. split; [vm_compute; reflexivity|].
  vm_compute. done.
Qed.

(** C3. Called with [max_K = 3] and no fixed number of clusters, the search
    does not stop after the candidate 2, the only one of the range
    [[2, 3)]: it evaluates 3 and 4 as well and then asks the estimator for
    5 medoids of the 4 samples, which raises [ValueError]. The call passes
    the constant 6 to [optimizeK]. *)
Theorem forest_guided_clustering_searches_up_to_6 :
  let run :=
    forest_guided_clustering two_pairs_forest two_pairs_table "target" "out.png"
      3 (Num (1 # 20)) 42%Z 1 300 None (World ∅ (1, 0) SeedFunction []) in
  (exists msg, run.1 = Raise (ValueError msg)) /\
  evaluated_candidates (stdout run.2) = [2; 3; 4] /\
  evaluated_candidates (stdout run.2) <> seq 2 (3 - 2).
Proof. vm_compute. split; [by eexists|]. split; [done|]. discriminate. Qed.

(** C4. A bootstrap round whose labeling leaves the original cluster 1
    without a member does not complete: the Jaccard matrix looks the
    cluster up in the bootstrap dictionary and the call raises
    [KeyError]. *)
Theorem empty_bootstrap_cluster_raises_KeyError :
  let w := world0 0 0 two_pairs in
  cluster_in_two two_pairs = Ok [0; 0; 1; 1] /\
  (choice (np_random w) 4).1 = [0; 0; 0; 0] /\
  (b <-- resample two_pairs [0; 0; 0; 0] ;; cluster_in_two b) = Ok [0; 0; 0; 0] /\
  (compute_stability_indices 0 cluster_in_two 1 42%Z w).1 = Raise (KeyError 1).
Proof. vm_compute. done. Qed.

(** C7. Two calls with the same arguments, one after the other, return
    different tables: the draws come from the global generator, which the
    assignment [np.random.seed = seed] does not seed. The table is the same
    for every [seed]. *)
Theorem same_seed_different_tables :
  let w := world0 1 1 two_pairs in
  let first := compute_stability_indices 0 cluster_in_two 1 42%Z w in
  let second := compute_stability_indices 0 cluster_in_two 1 42%Z first.2 in
  heap first.2 !! 0 = Some two_pairs /\
  np_random_seed first.2 = SeedValue 42 /\
  np_random first.2 = (2, 1) /\
  first.1 = Ok {[ 0 := Num 1; 1 := Num 1 ]} /\
  second.1 = Ok {[ 0 := Num (1 # 2); 1 := Num (1 # 2) ]} /\
  first.1 <> second.1 /\
  forall seed, (compute_stability_indices 0 cluster_in_two 1 seed w).1 = first.1.
Proof.
  intros w first second.
  split; [vm_compute; reflexivity|]. split; [vm_compute; reflexivity|].
  split; [vm_compute; reflexivity|]. split; [vm_compute; reflexivity|].
  split; [vm_compute; reflexivity|]. split; [vm_compute; discriminate|].
  intros seed. apply compute_stability_indices_ignores_seed.
Qed.

(** The claim C2 fails where every score is [nan]: the candidate 2 is
    stable and is scored, and the search returns 1, which was not scored. *)
Lemma optimizeK_returns_1_after_scoring :
  let run :=
    optimizeK 0 [] [Num 1; Num 1; Num 1; Num 1] 3 42%Z (Num (3 # 5)) 2 300 "clustering"
      (world0 1 0 two_pairs) in
  run.1 = Ok 1 /\
  stdout run.2 = [PrintJaccard 2 (Num 1); PrintScore 2 NaN] /\
  scored_candidates (stdout run.2) = [(2, NaN)] /\
  1 ∉ (scored_candidates (stdout run.2)).*1.
Proof.
  vm_compute. split; [done|]. split; [done|]. split; [done|].
  intros H. repeat (apply elem_of_cons in H as [H|H]; [discriminate|]).
  by apply elem_of_nil in H.
Qed.


(** The claim C5 fails without a round: the premise about the rounds holds
    and the call raises. *)
Lemma stability_of_zero_rounds_raises :
  let w := world0 1 0 two_pairs in
  let labels := [0; 0; 1; 1] in
  cluster_in_two two_pairs = Ok labels /\
  (forall i, i < 0 ->
     exists io ib,
       _translate_cluster_labels_to_dictionary_of_index_sets_per_cluster labels None
         = Ok io /\
       bootstrap_index_sets cluster_in_two two_pairs
         (Nat.iter i (next_generator 4) (np_random w)) = Ok ib /\
       same_index_sets (np_unique labels) io ib) /\
  (compute_stability_indices 0 cluster_in_two 0 42%Z w).1 = Raise ZeroDivisionError.
Proof. split; [reflexivity|]. split; [intros i Hi; lia|]. vm_compute. done. Qed.

End Runs.

(** * The theorems at concrete inputs *)

Section Witnesses.

#[local] Abbreviation cluster_in_two := (KMedoids_fit_labels 2 42%Z 300).

Lemma optimizeK_returns_first_least_score_witness :
  let y := [Num 0; Num 0; Num 1; Num 1] in
  let w := world0 1 0 two_pairs in
  let run := optimizeK 0 [] y 5 42%Z (Num (3 # 5)) 2 300 "clustering" w in
  run.1 = Ok 2 /\
  exists outcomes : list candidate_outcome,
    cand_k <$> outcomes = [2; 3; 4] /\
    stdout run.2 = concat (outcome_events <$> outcomes).
Proof.
  intros y w run.
  assert (Hrun : optimizeK 0 [] y 5 42%Z (Num (3 # 5)) 2 300 "clustering" w = (Ok 2, run.2))
    by (vm_compute; reflexivity).
  split; [exact (f_equal fst Hrun)|].
  destruct (optimizeK_returns_first_least_score 0 [] y 5 42%Z (Num (3 # 5)) 2 300
              "clustering" w 2 run.2) as (outcomes & Hks & Hout & _).
  - intros d Hd. vm_compute in Hd. injection Hd as <-. repeat constructor.
  - exact Hrun.
  - exists outcomes. split; [exact Hks|exact Hout].
Defined.

Lemma stability_is_one_without_resampling_noise_witness :
  let w := world0 1 0 two_pairs in
  0 < 2 /\ square 4 two_pairs /\
  exists table w',
    compute_stability_indices 0 cluster_in_two 2 42%Z w = (Ok table, w') /\
    table !! 0 = Some (Num 1) /\ table !! 1 = Some (Num 1).
Proof.
  intros w.
  assert (Hsq : square 4 two_pairs) by (split; [reflexivity|repeat constructor]).
  split; [lia|]. split; [exact Hsq|].
  set (io := {[ 0 := IdxSet {[ 0; 1 ]}; 1 := IdxSet {[ 2; 3 ]} ]} : gmap nat indices).
  destruct (stability_is_one_without_resampling_noise 0 cluster_in_two 2 42%Z w
              two_pairs [0; 0; 1; 1] 4 io) as (table & w' & Hrun & Hin & _).
  - vm_compute. reflexivity.
  - exact Hsq.
  - lia.
  - reflexivity.
  - vm_compute. reflexivity.
  - intros i Hi. exists {[ 0 := IdxList [0; 1]; 1 := IdxList [2; 3] ]}.
    split.
    + destruct i as [|[|i]]; [vm_compute; reflexivity..|lia].
    + intros c Hc. vm_compute in Hc.
      apply elem_of_cons in Hc as [->|Hc];
        [eexists _, _; split; [vm_compute; reflexivity|];
         split; [vm_compute; reflexivity|]; vm_compute; reflexivity|].
      apply elem_of_cons in Hc as [->|Hc];
        [eexists _, _; split; [vm_compute; reflexivity|];
         split; [vm_compute; reflexivity|]; vm_compute; reflexivity|].
      by apply elem_of_nil in Hc.
  - exists table, w'. split; [exact Hrun|].
    split; apply Hin; vm_compute; [by left|by right; left].
Defined.

Lemma bootstrap_matrix_resamples_rows_and_columns_witness :
  let w := world0 3 1 two_pairs in
  heap w !! 0 = Some two_pairs /\ square 4 two_pairs /\
  exists l mapping b w',
    bootstrap_matrix 0 w = (Ok (l, mapping), w') /\
    heap w' !! l = Some b /\ square 4 b /\ symmetric b.
Proof.
  intros w.
  assert (Hdm : heap w !! 0 = Some two_pairs) by (vm_compute; reflexivity).
  assert (Hsq : square 4 two_pairs) by (split; [reflexivity|repeat constructor]).
  split; [exact Hdm|]. split; [exact Hsq|].
  destruct (bootstrap_matrix_resamples_rows_and_columns 0 w two_pairs 4 Hdm Hsq)
    as (l & mapping & b & w' & Hrun & Hl & Hb & _ & Hsym).
  exists l, mapping, b, w'. split; [exact Hrun|]. split; [exact Hl|].
  split; [exact Hb|]. apply Hsym. intros i j.
  destruct i as [|[|[|[|i]]]], j as [|[|[|[|j]]]]; reflexivity.
Defined.

Lemma optimizeK_leaves_the_distance_matrix_witness :
  let y := [Num 0; Num 0; Num 1; Num 1] in
  let w := world0 2 3 two_pairs in
  heap w !! 0 = Some two_pairs /\
  heap (optimizeK 0 [] y 6 42%Z (Num (3 # 5)) 2 300 "clustering" w).2 !! 0
    = Some two_pairs.
Proof.
  intros y w.
  assert (Hdm : heap w !! 0 = Some two_pairs) by (vm_compute; reflexivity).
  split; [exact Hdm|].
  destruct (optimizeK_leaves_the_distance_matrix 0 [] y 6 42%Z (Num (3 # 5)) 2 300
              "clustering" w two_pairs Hdm) as [Hkept _].
  exact Hkept.
Defined.

Lemma binary_ninety_ten : binary ninety_ten.
Proof.
  apply Forall_app. split; apply Forall_replicate; [left|right]; reflexivity.
Defined.

Lemma balanced_purity_bounds_and_scenarios_witness :
  let labels := replicate 100 0 in
  binary ninety_ten /\ length ninety_ten = length labels /\
  0 < count_equal (Num 0) ninety_ten /\ 0 < count_equal (Num 1) ninety_ten /\
  (exists ps, balanced_purities ninety_ten labels = Ok ps /\ Forall (between 0 4) ps) /\
  (up_scaling (count_equal (Num 0) ninety_ten) (count_equal (Num 1) ninety_ten)).2 = Num 9.
Proof.
  intros labels.
  assert (H0 : 0 < count_equal (Num 0) ninety_ten) by (vm_compute; lia).
  assert (H1 : 0 < count_equal (Num 1) ninety_ten) by (vm_compute; lia).
  assert (Hlen : length ninety_ten = length labels) by reflexivity.
  split; [exact binary_ninety_ten|]. split; [exact Hlen|].
  split; [exact H0|]. split; [exact H1|].
  destruct (balanced_purity_bounds_and_scenarios ninety_ten labels binary_ninety_ten
              Hlen H0 H1) as ((ps & Hps & _ & Hbound) & _ & Hfactor).
  split; [exists ps; split; [exact Hps|exact Hbound]|].
  apply Hfactor; vm_compute; reflexivity.
Defined.


End Witnesses.

(** * Further properties of the code *)

Section MatchingRound.
Context {G : Type} {RS : RandomState G}.
Implicit Types w : world G.

(** X22. For an original labeling with [k] clusters and a bootstrap
    dictionary that has every original cluster id as a key, one round of
    the matching builds a [k] by [k] Jaccard matrix and runs exactly [k]
    passes. Each pass picks an entry that is largest among the rows and
    columns not picked before, credits it to the original cluster of its
    row, and strikes its row and column. At the end the picked rows and the
    picked columns are each a permutation of [0..k-1]: every original
    cluster was credited exactly once and no bootstrap cluster was used
    twice; the whole matrix is [-inf]. *)
Theorem greedy_matching_is_one_to_one (labels : list nat) (ib io : gmap nat indices)
    (ipc : gmap nat float64) w :
  let clusters := np_unique labels in
  let k := length clusters in
  _translate_cluster_labels_to_dictionary_of_index_sets_per_cluster labels None = Ok io ->
  (forall c, c ∈ clusters -> is_Some (ib !! c)) ->
  (forall c, c ∈ clusters -> is_Some (ipc !! c)) ->
  exists jm J w1 picks a' ipc' w2,
    _compute_jaccard_matrix clusters ib io w = (Ok jm, w1) /\
    heap w1 !! jm = Some J /\ square k J /\
    greedy_matching jm clusters ipc w1 = (Ok ipc', w2) /\
    heap w2 !! jm = Some a' /\
    matching_replay k J = Ok (picks, a') /\
    length picks = k /\
    (forall t r c best, picks !! t = Some (r, c, best) ->
       r < k /\ c < k /\
       (r ∉ pick_rows (take t picks)) /\ (c ∉ pick_cols (take t picks)) /\
       (exists v, entry J r c = Some v /\ feqb v best = true) /\
       (forall i j x, i ∉ pick_rows (take t picks) -> j ∉ pick_cols (take t picks) ->
                      entry J i j = Some x -> fle x best = true) /\
       (forall oc total, clusters !! r = Some oc -> ipc !! oc = Some total ->
                         ipc' !! oc = Some (fadd total best))) /\
    pick_rows picks ≡ₚ seq 0 k /\
    pick_cols picks ≡ₚ seq 0 k /\
    (forall i j, i < k -> j < k -> entry a' i j = Some NInf).
Proof.
  intros clusters k Hio Hib Hipc.
  destruct (jaccard_round_run labels ib io ipc w Hio Hib Hipc)
    as (J & picks & a' & ipc' & Hjac & HJ & _ & Hgreedy & Hreplay & Hlen & Hg & Ha'
        & Hst & _ & Hcred & _).
  fold clusters k in Hjac, HJ, Hgreedy, Hreplay, Hlen, Hg, Ha', Hcred.
  destruct (greedy_from_NoDup J k [] [] picks Hg) as (Hrows & Hcols & Hrlt & Hclt);
    [constructor..|]. rewrite app_nil_r in Hrows, Hcols.
  assert (Hprows : pick_rows picks ≡ₚ seq 0 k).
  { apply NoDup_bounded_Permutation; [done..|]. unfold pick_rows. by rewrite !length_fmap. }
  assert (Hpcols : pick_cols picks ≡ₚ seq 0 k).
  { apply NoDup_bounded_Permutation; [done..|]. unfold pick_cols. by rewrite !length_fmap. }
  eexists _, J, _, picks, a', ipc', _.
  split; [exact Hjac|]. split; [apply lookup_insert_eq|]. split; [done|].
  split; [exact Hgreedy|]. split; [apply lookup_insert_eq|]. split; [done|].
  split; [done|]. split; [|split; [done|split; [done|]]].
  - intros t r c best Ht.
    destruct (greedy_from_lookup J k [] [] picks t r c best Hg Ht)
      as (Hr & Hc & HrR & HcC & Hv & Hub).
    rewrite app_nil_r in HrR, HcC. repeat rewrite app_nil_r in Hub.
    split; [done|]. split; [done|]. split; [done|]. split; [done|]. split; [done|].
    split; [done|]. intros oc total Hoc Htot. by eapply Hcred.
  - intros i j Hi Hj. destruct (square_entry k J i j HJ Hi Hj) as [v Hv].
    rewrite (Hst i j v Hv). rewrite decide_True; [done|]. left.
    rewrite Hprows. apply elem_of_seq. lia.
Qed.

End MatchingRound.

Section ProximityFacts.

Lemma length_filter_all {A} (P : A -> Prop) `{!forall x, Decision (P x)} (l : list A) :
  length (filter P l) = length l <-> Forall P l.
Proof.
  induction l as [|x l IH]; [by split; [constructor|]|].
  destruct (decide (P x)) as [Hx|Hx].
  - rewrite filter_cons_True by done. simpl. rewrite Forall_cons. split.
    + intros Hlen. split; [done|]. apply IH. lia.
    + intros [_ Hl]. f_equal. by apply IH.
  - rewrite filter_cons_False by done. simpl. split.
    + intros Hlen. pose proof (length_filter P l). lia.
    + by intros [? _]%Forall_cons.
Qed.

Lemma length_filter_none {A} (P : A -> Prop) `{!forall x, Decision (P x)} (l : list A) :
  length (filter P l) = 0 <-> Forall (fun x => ~ P x) l.
Proof.
  induction l as [|x l IH]; [by split; [constructor|]|].
  destruct (decide (P x)) as [Hx|Hx].
  - rewrite filter_cons_True by done. simpl. split; [lia|].
    by intros [? _]%Forall_cons.
  - rewrite filter_cons_False by done. rewrite Forall_cons, IH. tauto.
Qed.

Lemma shared_leaves_le a b n : shared_leaves a b n <= n.
Proof.
  unfold shared_leaves. etrans; [apply length_filter|]. by rewrite length_seq.
Qed.

Lemma shared_leaves_sym a b n : shared_leaves a b n = shared_leaves b a n.
Proof. unfold shared_leaves. f_equal. apply list_filter_iff. intros t. split; congruence. Qed.

Lemma shared_leaves_all a b n :
  shared_leaves a b n = n <-> forall t, t < n -> a !! t = b !! t.
Proof.
  unfold shared_leaves. split.
  - intros Hlen t Ht.
    assert (Hall : Forall (fun t => a !! t = b !! t) (seq 0 n)).
    { apply (proj1 (length_filter_all _ _)). by rewrite length_seq. }
    rewrite Forall_forall in Hall. apply Hall, elem_of_seq. lia.
  - intros Hall. etrans; [|apply (length_seq n 0)].
    apply (proj2 (length_filter_all _ _)), Forall_forall.
    intros t Ht%elem_of_seq. apply Hall. lia.
Qed.

Lemma shared_leaves_none a b n :
  shared_leaves a b n = 0 <-> forall t, t < n -> a !! t <> b !! t.
Proof.
  unfold shared_leaves. rewrite (length_filter_none _ _), Forall_forall. split.
  - intros H t Ht. apply H, elem_of_seq. lia.
  - intros H t Ht%elem_of_seq. apply H. lia.
Qed.

(** [s/n] for counts [s <= n], [0 < n]. *)
Lemma count_ratio s n :
  0 < n -> s <= n ->
  exists q, fdiv (of_nat s) (of_nat n) = Num q /\ (0 <= q)%Q /\ (q <= 1)%Q /\
            ((q == 1)%Q <-> s = n) /\ ((q == 0)%Q <-> s = 0).
Proof.
  intros Hn Hs. pose proof (inject_nat_pos n Hn) as Hpos.
  pose proof (inject_nat_nonneg s) as Hs0.
  assert (Hsn : (inject_Z (Z.of_nat s) <= inject_Z (Z.of_nat n))%Q).
  { rewrite <- Zle_Qle. lia. }
  unfold of_nat. rewrite fdiv_Num by lra. unfold num.
  destruct (Qratio_bounds _ _ Hs0 Hsn Hpos) as (H0 & H1 & Hone & Hzero).
  eexists. split; [reflexivity|]. rewrite !Qred_correct.
  split; [done|]. split; [done|]. split.
  - rewrite Hone. split.
    + intros E. unfold Qeq in E. simpl in E. lia.
    + by intros ->.
  - rewrite Hzero. split.
    + intros E. unfold Qeq in E. simpl in E. lia.
    + by intros ->.
Qed.

End ProximityFacts.

Section ProximityMatrix.
Context {G : Type} {RS : RandomState G}.
Implicit Types w : world G.

Lemma entry_outer {A} (f : A -> A -> float64) (rows : list A) p q :
  entry ((fun a => (fun b => f a b) <$> rows) <$> rows) p q
  = a ← rows !! p; b ← rows !! q; Some (f a b).
Proof.
  unfold entry. rewrite list_lookup_fmap. destruct (rows !! p) as [a|]; simpl; [|done].
  rewrite list_lookup_fmap. by destruct (rows !! q).
Qed.

Lemma square_outer {A} (f : A -> A -> float64) (rows : list A) :
  square (length rows) ((fun a => (fun b => f a b) <$> rows) <$> rows).
Proof.
  split; [by rewrite length_fmap|]. apply Forall_fmap, Forall_forall. intros a _. simpl.
  by rewrite length_fmap.
Qed.

Lemma Num_one_iff q : Num (Qred q) = Num 1 <-> (q == 1)%Q.
Proof.
  split.
  - intros [= H]. rewrite <- (Qred_correct q), H. reflexivity.
  - intros H. f_equal. by apply (Qred_complete q 1).
Qed.

Lemma Num_zero_iff q : Num (Qred q) = Num 0 <-> (q == 0)%Q.
Proof.
  split.
  - intros [= H]. rewrite <- (Qred_correct q), H. reflexivity.
  - intros H. f_equal. by apply (Qred_complete q 0).
Qed.

(** The array that [proximityMatrix] builds from the leaf identifiers. *)
Lemma proximity_array_spec (rows : list (list nat)) (nTrees : nat) :
  0 < nTrees ->
  Forall (fun r => length r = nTrees) rows ->
  let P := (fun a => (fun b => fdiv (of_nat (shared_leaves a b nTrees)) (of_nat nTrees))
                       <$> rows) <$> rows in
  square (length rows) P /\
  symmetric P /\
  (forall p, p < length rows -> entry P p p = Some (Num 1)) /\
  (forall p q a b, rows !! p = Some a -> rows !! q = Some b ->
     (exists v, entry P p q = Some v /\ between 0 1 v /\
                v = fdiv (of_nat (shared_leaves a b nTrees)) (of_nat nTrees)) /\
     (entry P p q = Some (Num 1) <-> a = b) /\
     (entry P p q = Some (Num 0) <-> forall t, t < nTrees -> a !! t <> b !! t)).
Proof.
  intros Htrees Hrows.
  set (f := fun a b : list nat => fdiv (of_nat (shared_leaves a b nTrees)) (of_nat nTrees)).
  intros P. change P with ((fun a => (fun b => f a b) <$> rows) <$> rows). clear P.
  split; [apply square_outer|].
  assert (Hf : forall a b, exists q, f a b = Num (Qred q) /\ (0 <= Qred q)%Q /\ (Qred q <= 1)%Q /\
            ((q == 1)%Q <-> shared_leaves a b nTrees = nTrees) /\
            ((q == 0)%Q <-> shared_leaves a b nTrees = 0)).
  { intros a b. unfold f, of_nat.
    pose proof (inject_nat_pos nTrees Htrees) as Hpos.
    pose proof (inject_nat_nonneg (shared_leaves a b nTrees)) as Hs0.
    assert (Hsn : (inject_Z (Z.of_nat (shared_leaves a b nTrees))
                   <= inject_Z (Z.of_nat nTrees))%Q).
    { rewrite <- Zle_Qle. pose proof (shared_leaves_le a b nTrees). lia. }
    rewrite fdiv_Num by lra. unfold num.
    destruct (Qratio_bounds _ _ Hs0 Hsn Hpos) as (H0 & H1 & Hone & Hzero).
    eexists. split; [reflexivity|]. rewrite !Qred_correct.
    split; [done|]. split; [done|]. split.
    - rewrite Hone. split.
      + intros E. unfold Qeq in E. simpl in E. lia.
      + by intros ->.
    - rewrite Hzero. split.
      + intros E. unfold Qeq in E. simpl in E. lia.
      + by intros ->. }
  split.
  { intros p q. rewrite !entry_outer.
    destruct (rows !! p) as [a|], (rows !! q) as [b|]; simpl; try done.
    unfold f. by rewrite shared_leaves_sym. }
  split.
  { intros p Hp. rewrite entry_outer.
    destruct (lookup_lt_is_Some_2 rows p Hp) as [a Ha]. rewrite Ha. simpl. f_equal.
    destruct (Hf a a) as (q & -> & _ & _ & Hone & _). apply Num_one_iff, Hone.
    by apply shared_leaves_all. }
  intros p q a b Ha Hb. rewrite entry_outer, Ha, Hb. simpl.
  destruct (Hf a b) as (v & Hv & H0 & H1 & Hone & Hzero).
  split; [|split].
  - exists (f a b). split; [done|]. split; [|done]. rewrite Hv. done.
  - rewrite Hv. split.
    + intros [= E]. assert (Num (Qred v) = Num 1) as E' by (by rewrite E).
      apply Num_one_iff in E'. apply Hone in E'.
      pose proof (proj1 (shared_leaves_all a b nTrees) E') as Hall.
      rewrite Forall_forall in Hrows.
      apply list_eq. intros t. destruct (decide (t < nTrees)) as [Ht|Ht]; [by apply Hall|].
      rewrite !lookup_ge_None_2; [done|..].
      * rewrite (Hrows b) by (by eapply list_elem_of_lookup_2). lia.
      * rewrite (Hrows a) by (by eapply list_elem_of_lookup_2). lia.
    + intros ->. f_equal. apply Num_one_iff, Hone. by apply shared_leaves_all.
  - rewrite Hv. rewrite <- shared_leaves_none, <- Hzero, <- Num_zero_iff. split; congruence.
Qed.

(** X1. With at least one tree, [proximityMatrix] returns a new [n] by [n]
    array whose entry [(p, q)] is the fraction of trees in which the samples
    [p] and [q] fall into the same leaf: a number between 0 and 1, the same
    for [(q, p)], equal to 1 exactly when the two samples share the leaf in
    every tree (so the diagonal is 1) and to 0 exactly when they share it in
    none. Nothing else is written, drawn or printed. *)
Theorem proximityMatrix_is_a_similarity (model : Model) (X : ndarray) w :
  let terminals := apply model X in
  let rows := leaf_rows terminals in
  let nTrees := n_trees terminals in
  0 < nTrees ->
  Forall (fun r => length r = nTrees) rows ->
  exists P,
    proximityMatrix model X w
      = (Ok (fresh (dom (heap w))), with_heap (<[fresh (dom (heap w)) := P]> (heap w)) w) /\
    square (length rows) P /\
    symmetric P /\
    (forall p, p < length rows -> entry P p p = Some (Num 1)) /\
    (forall p q a b, rows !! p = Some a -> rows !! q = Some b ->
       (exists v, entry P p q = Some v /\ between 0 1 v /\
                  v = fdiv (of_nat (shared_leaves a b nTrees)) (of_nat nTrees)) /\
       (entry P p q = Some (Num 1) <-> a = b) /\
       (entry P p q = Some (Num 0) <-> forall t, t < nTrees -> a !! t <> b !! t)).
Proof.
  intros terminals rows nTrees Htrees Hrows.
  eexists. split.
  { unfold proximityMatrix. fold terminals nTrees rows.
    rewrite decide_False by lia. reflexivity. }
  exact (proximity_array_spec rows nTrees Htrees Hrows).
Qed.

End ProximityMatrix.

Lemma proximityMatrix_is_a_similarity_witness :
  exists P,
    proximityMatrix two_pairs_forest [] (world0 1 0 two_pairs)
      = (Ok 1, with_heap (<[1 := P]> (heap (world0 1 0 two_pairs))) (world0 1 0 two_pairs)) /\
    square 4 P /\ symmetric P /\ entry P 0 1 = Some (Num 1) /\ entry P 0 2 = Some (Num 0).
Proof.
  destruct (proximityMatrix_is_a_similarity two_pairs_forest [] (world0 1 0 two_pairs))
    as (P & Hrun & Hsq & Hsym & Hdiag & Hent).
  - simpl. lia.
  - repeat constructor.
  - exists P. split; [exact Hrun|]. split; [exact Hsq|]. split; [exact Hsym|].
    split.
    + apply (Hent 0 1 [0] [0]); reflexivity.
    + apply (Hent 0 2 [0] [1]); [reflexivity..|].
      intros [|t] Ht; [discriminate|simpl in Ht; lia].
Defined.

Section EntryPoint.
Context {G : Type} {RS : RandomState G} {KM : KMedoidsLib}.
Implicit Types w : world G.

Lemma column_missing (data : DataFrame) name :
  name ∉ data.*1 -> column data name = Raise (KeyErrorStr name).
Proof.
  intros Hname. unfold column.
  destruct (list_find (fun c : string * list float64 => c.1 = name) data)
    as [[i c]|] eqn:E; [|done].
  apply list_find_Some in E as (Hi & Hc & _). exfalso. apply Hname.
  apply list_elem_of_fmap. exists c. split; [done|]. by eapply list_elem_of_lookup_2.
Qed.

(** X2. [forest_guided_clustering] checks its inputs before it computes
    anything. A model whose type name contains neither
    [RandomForestRegressor] nor [RandomForestClassifier] is refused with a
    [ValueError] and the state is as before: nothing was printed, allocated
    or drawn. For a recognised model and a table without the target column
    the call raises [KeyError] for that column after the one line that
    names the kind of model; [model.apply] was not reached. *)
Theorem forest_guided_clustering_validates_inputs (model : Model) (data : DataFrame)
    (target_column output : string) max_K thr_pvalue random_state bootstraps
    max_iter_clustering number_of_clusters w :
  let run := forest_guided_clustering model data target_column output max_K thr_pvalue
               random_state bootstraps max_iter_clustering number_of_clusters w in
  (contains "RandomForestRegressor" (type_str model) = false ->
   contains "RandomForestClassifier" (type_str model) = false ->
   exists msg, run = (Raise (ValueError msg), w)) /\
  (contains "RandomForestRegressor" (type_str model) = true \/
   contains "RandomForestClassifier" (type_str model) = true ->
   target_column ∉ data.*1 ->
   exists kind,
     run = (Raise (KeyErrorStr target_column),
            World (heap w) (np_random w) (np_random_seed w)
              (stdout w ++ [PrintInterpreting kind])) /\
     (contains "RandomForestRegressor" (type_str model) = true ->
      kind = "RandomForestRegressor"%string) /\
     (contains "RandomForestRegressor" (type_str model) = false ->
      kind = "RandomForestClassifier"%string)).
Proof.
  intros run. subst run. unfold forest_guided_clustering. split.
  - intros -> ->. eexists. reflexivity.
  - intros Hkind Hmissing. rewrite (column_missing data target_column Hmissing).
    destruct (contains "RandomForestRegressor" (type_str model)) eqn:Hreg.
    + exists "RandomForestRegressor"%string. split; [reflexivity|]. by split.
    + destruct Hkind as [?|Hcls]; [done|]. rewrite Hcls.
      exists "RandomForestClassifier"%string. split; [reflexivity|]. by split.
Qed.

(** X3. With [number_of_clusters] given, [forest_guided_clustering] does not
    search: for a recognised model with at least one tree and a table that
    has the target column, no candidate is evaluated or scored, no bootstrap
    sample is drawn from the global generator and [numpy.random.seed] is
    not rebound; the only output is the line that names the kind of model,
    and the renderer is called with exactly the given number. Arrays that
    existed before are left as they were. *)
Theorem forest_guided_clustering_fixed_k_skips_search (model : Model) (data : DataFrame)
    (target_column output : string) max_K thr_pvalue random_state bootstraps
    max_iter_clustering (k : nat) (y : list float64) w :
  let run := forest_guided_clustering model data target_column output max_K thr_pvalue
               random_state bootstraps max_iter_clustering (Some k) w in
  let X := to_numpy (length y) (drop_column data target_column) in
  contains "RandomForestRegressor" (type_str model) = true \/
  contains "RandomForestClassifier" (type_str model) = true ->
  column data target_column = Ok y ->
  0 < n_trees (apply model X) ->
  exists kind,
    stdout run.2 = stdout w ++ [PrintInterpreting kind; SaveFigure k output] /\
    np_random run.2 = np_random w /\
    np_random_seed run.2 = np_random_seed w /\
    heap w ⊆ heap run.2.
Proof.
  intros run X Hkind Hy Htrees. subst run. unfold forest_guided_clustering.
  rewrite Hy. fold X.
  set (kind := if contains "RandomForestRegressor" (type_str model)
               then "RandomForestRegressor"%string else "RandomForestClassifier"%string).
  exists kind.
  set (w1 := World (heap w) (np_random w) (np_random_seed w)
               (stdout w ++ [PrintInterpreting kind])).
  match goal with
  | |- context [bind ?m _ w] =>
      assert (Hmethod : exists method, m w = (Ok method, w1))
  end.
  { unfold kind, w1. destruct (contains "RandomForestRegressor" (type_str model)).
    - by eexists.
    - destruct Hkind as [?|Hcls]; [done|]. rewrite Hcls. by eexists. }
  destruct Hmethod as [method Hmethod].
  rewrite (bind_Ok _ _ _ _ _ Hmethod).
  rewrite (bind_Ok _ _ w1 y w1) by done.
  assert (Hne : n_trees (apply model X) <> 0) by lia.
  unfold proximityMatrix. rewrite decide_False by exact Hne.
  unfold bind, np_alloc, np_read, plot_forest_guided_clustering, print, ret. simpl.
  rewrite lookup_insert_eq. simpl.
  split; [by rewrite <- app_assoc|]. split; [done|]. split; [done|].
  etrans; [|apply insert_subseteq, not_elem_of_dom, is_fresh].
  apply insert_subseteq, not_elem_of_dom, is_fresh.
Qed.

End EntryPoint.

Section SearchInput.
Context {G : Type} {RS : RandomState G} {KM : KMedoidsLib}.
Implicit Types w : world G.

Lemma entry_fmap (f : float64 -> float64) (a : ndarray) p q :
  entry ((fun row : list float64 => f <$> row) <$> a) p q = f <$> entry a p q.
Proof.
  unfold entry. rewrite list_lookup_fmap. destruct (a !! p) as [row|]; simpl; [|done].
  by rewrite list_lookup_fmap.
Qed.

Lemma one_minus_between v : between 0 1 v -> between 0 1 (fsub (Num 1) v).
Proof.
  destruct v as [| |q|]; try done. simpl. rewrite !Qred_correct. intros [H0 H1].
  split; lra.
Qed.

(** X20. For a recognised model with at least one tree and a table that
    has the target column, [forest_guided_clustering] without a fixed
    number of clusters runs [optimizeK] on the array [1 - proximityMatrix]
    and hands its result to the renderer. That array is a distance matrix:
    square with one row per sample, symmetric, zero on the diagonal, with
    entries between 0 and 1. The method is ["regression"] for a regressor
    and ["clustering"] otherwise, the threshold is the default 0.6, and no
    sample has been drawn before the search starts. *)
Theorem forest_guided_clustering_searches_on_a_distance_matrix (model : Model)
    (data : DataFrame) (target_column output : string) max_K thr_pvalue random_state
    bootstraps max_iter_clustering (y : list float64) w :
  let X := to_numpy (length y) (drop_column data target_column) in
  let rows := leaf_rows (apply model X) in
  let nTrees := n_trees (apply model X) in
  contains "RandomForestRegressor" (type_str model) = true \/
  contains "RandomForestClassifier" (type_str model) = true ->
  column data target_column = Ok y ->
  0 < nTrees ->
  Forall (fun r => length r = nTrees) rows ->
  exists method dm d w0 searched_K,
    forest_guided_clustering model data target_column output max_K thr_pvalue
      random_state bootstraps max_iter_clustering None w
    = bind (optimizeK dm X y searched_K random_state (Num (3 # 5)) bootstraps
              max_iter_clustering method)
        (fun k => bind (plot_forest_guided_clustering k output) (fun _ => ret k)) w0 /\
    method = (if contains "RandomForestRegressor" (type_str model)
              then "regression" else "clustering")%string /\
    heap w0 !! dm = Some d /\
    np_random w0 = np_random w /\
    square (length rows) d /\
    symmetric d /\
    (forall p, p < length rows -> entry d p p = Some (Num 0)) /\
    (forall p q v, entry d p q = Some v -> between 0 1 v).
Proof.
  intros X rows nTrees Hkind Hy Htrees Hrows.
  destruct (proximity_array_spec rows nTrees Htrees Hrows) as (Hsq & Hsym & Hdiag & Hent).
  set (P := (fun a => (fun b => fdiv (of_nat (shared_leaves a b nTrees)) (of_nat nTrees))
                        <$> rows) <$> rows) in *.
  set (d := (fun row : list float64 => (fun v => fsub (Num 1) v) <$> row) <$> P).
  set (kind := if contains "RandomForestRegressor" (type_str model)
               then "RandomForestRegressor"%string else "RandomForestClassifier"%string).
  set (method := (if contains "RandomForestRegressor" (type_str model)
                  then "regression" else "clustering")%string).
  set (w1 := World (heap w) (np_random w) (np_random_seed w)
               (stdout w ++ [PrintInterpreting kind])).
  set (l1 := fresh (dom (heap w1))).
  set (w2 := with_heap (<[l1 := P]> (heap w1)) w1).
  set (l2 := fresh (dom (heap w2))).
  set (w3 := with_heap (<[l2 := d]> (heap w2)) w2).
  exists method, l2, d, w3, 6. split.
  { unfold forest_guided_clustering. rewrite Hy. fold X.
    match goal with
    | |- bind ?m _ w = _ => assert (Hmethod : m w = (Ok method, w1))
    end.
    { unfold kind, method, w1. destruct (contains "RandomForestRegressor" (type_str model)).
      - reflexivity.
      - destruct Hkind as [?|Hcls]; [done|]. by rewrite Hcls. }
    rewrite (bind_Ok _ _ _ _ _ Hmethod).
    rewrite (bind_Ok _ _ w1 y w1) by done.
    assert (Hne : n_trees (apply model X) <> 0) by (fold nTrees; lia).
    unfold proximityMatrix. rewrite decide_False by exact Hne.
    fold nTrees rows P.
    rewrite (bind_Ok _ _ w1 l1 w2) by done.
    rewrite (bind_Ok _ _ w2 P w2) by (apply np_read_run; apply lookup_insert_eq).
    fold d. rewrite (bind_Ok _ _ w2 l2 w3) by done. reflexivity. }
  split; [done|]. split; [apply lookup_insert_eq|]. split; [done|].
  assert (Hd : forall p q, entry d p q = fsub (Num 1) <$> entry P p q).
  { intros p q. apply (entry_fmap (fsub (Num 1))). }
  split.
  { destruct Hsq as [Hlen Hrow]. split; [unfold d; by rewrite length_fmap|].
    unfold d. apply Forall_fmap. eapply Forall_impl; [exact Hrow|].
    intros row Hr. simpl. by rewrite length_fmap. }
  split; [intros p q; by rewrite !Hd, Hsym|]. split.
  - intros p Hp. by rewrite Hd, (Hdiag p Hp).
  - intros p q v. rewrite Hd.
    destruct (entry P p q) as [v0|] eqn:E; [|done]. simpl. intros [= <-].
    apply one_minus_between.
    apply entry_Some in E as (row & Hrow & Hv0).
    assert (Hp : p < length rows).
    { apply lookup_lt_Some in Hrow. unfold P in Hrow. by rewrite length_fmap in Hrow. }
    destruct (lookup_lt_is_Some_2 rows p Hp) as [a Ha].
    assert (Hq : q < length rows).
    { unfold P in Hrow. rewrite list_lookup_fmap, Ha in Hrow. injection Hrow as <-.
      apply lookup_lt_Some in Hv0. by rewrite length_fmap in Hv0. }
    destruct (lookup_lt_is_Some_2 rows q Hq) as [b Hb].
    destruct (Hent p q a b Ha Hb) as ((v1 & Hv1 & Hbetween & _) & _).
    assert (entry P p q = Some v0) as E by (apply entry_Some; eauto).
    rewrite E in Hv1. by injection Hv1 as <-.
Qed.

End SearchInput.

Section UnknownMethod.
Context {G : Type} {RS : RandomState G} {KM : KMedoidsLib}.
Implicit Types w : world G.

Lemma quality_score_unknown method y labels :
  method <> "clustering"%string -> method <> "regression"%string ->
  quality_score method y labels = Raise (UnboundLocalError "score").
Proof.
  intros Hc Hr. unfold quality_score.
  destruct (String.eqb_spec method "clustering"); [done|].
  destruct (String.eqb_spec method "regression"); [done|]. done.
Qed.

Lemma foldl_keep_best_unscored (outcomes : list candidate_outcome) best :
  (forall o, o ∈ outcomes -> cand_score o = None) ->
  foldl keep_best best outcomes = best.
Proof.
  revert best. induction outcomes as [|o outcomes IH]; intros best Hall; [done|].
  simpl. unfold keep_best at 2. rewrite (Hall o) by (by left).
  apply IH. intros o' Ho'. apply Hall. by right.
Qed.

Lemma scored_candidates_app l1 l2 :
  scored_candidates (l1 ++ l2) = scored_candidates l1 ++ scored_candidates l2.
Proof. unfold scored_candidates. apply omap_app. Qed.

Lemma scored_candidates_unscored (outcomes : list candidate_outcome) :
  (forall o, o ∈ outcomes -> cand_score o = None) ->
  scored_candidates (concat (outcome_events <$> outcomes)) = [].
Proof.
  induction outcomes as [|o outcomes IH]; intros Hall; [done|].
  rewrite fmap_cons, concat_cons, scored_candidates_app, IH.
  - unfold outcome_events. rewrite (Hall o) by (by left). done.
  - intros o' Ho'. apply Hall. by right.
Qed.

Lemma evaluated_candidates_app l1 l2 :
  evaluated_candidates (l1 ++ l2) = evaluated_candidates l1 ++ evaluated_candidates l2.
Proof. unfold evaluated_candidates. apply omap_app. Qed.

Lemma evaluated_candidates_outcomes (outcomes : list candidate_outcome) :
  evaluated_candidates (concat (outcome_events <$> outcomes)) = cand_k <$> outcomes.
Proof.
  induction outcomes as [|o outcomes IH]; [done|].
  rewrite !fmap_cons, concat_cons, evaluated_candidates_app, IH.
  unfold outcome_events. by destruct (cand_score o).
Qed.

(** X4. [optimizeK] with a [method] other than ["clustering"] and
    ["regression"] never selects a candidate. A run that returns returns 1,
    and it returns only when every candidate of [range(2, max_K)] was
    evaluated and found unstable: no score was printed. As soon as a candidate passes the stability filter the
    call raises [UnboundLocalError], since line 84 reads [score] and neither
    branch has bound it; in particular it does so when the first candidate,
    [k = 2], is stable. *)
Theorem optimizeK_unknown_method_selects_nothing dm (x : ndarray) (y : list float64)
    max_K rs dv bs mi (method : string) w :
  method <> "clustering"%string -> method <> "regression"%string ->
  (forall kopt w',
     optimizeK dm x y max_K rs dv bs mi method w = (Ok kopt, w') ->
     kopt = 1 /\
     evaluated_candidates (stdout w')
     = evaluated_candidates (stdout w) ++ seq 2 (max_K - 2) /\
     scored_candidates (stdout w') = scored_candidates (stdout w)) /\
  (forall table w1 m,
     2 < max_K ->
     compute_stability_indices dm (KMedoids_fit_labels 2 rs mi) bs rs w = (Ok table, w1) ->
     py_min (dict_values table) = Ok m ->
     flt dv m = true ->
     optimizeK dm x y max_K rs dv bs mi method w
     = (Raise (UnboundLocalError "score"),
        World (heap w1) (np_random w1) (np_random_seed w1)
          (stdout w ++ [PrintJaccard 2 m]))).
Proof.
  intros Hc Hr. split.
  - intros kopt w' H. unfold optimizeK in H.
    apply bind_inv_Ok in H as (best & w1 & Hloop & H). injection H as <- <-.
    apply optimizeK_loop_inv in Hloop as (outcomes & Hks & Hout & -> & Hall).
    assert (Hnone : forall o, o ∈ outcomes -> cand_score o = None).
    { intros o Ho. destruct (cand_score o) as [s|] eqn:Hs; [|done].
      destruct (Hall o Ho) as [_ (d & labels & table & w0 & w2 & _ & _ & _ & _ & _ & Hscore)].
      specialize (Hscore s Hs). by rewrite quality_score_unknown in Hscore. }
    rewrite foldl_keep_best_unscored by done. split; [done|].
    rewrite Hout, scored_candidates_app, scored_candidates_unscored by done.
    rewrite evaluated_candidates_app, evaluated_candidates_outcomes, Hks.
    split; [done|]. by rewrite app_nil_r.
  - intros table w1 m HK Hstab Hmin Hstable.
    pose proof (compute_stability_indices_grows dm (KMedoids_fit_labels 2 rs mi) bs rs w)
      as [_ Hout]. rewrite Hstab in Hout. simpl in Hout.
    destruct (returning_call_clustered _ _ _ _ _ _ _ Hstab) as (d & labels & Hd & Hfit).
    unfold optimizeK. destruct max_K as [|[|[|K]]]; [lia..|].
    simpl seq. cbn [for_each].
    erewrite bind_Raise; [reflexivity|]. erewrite bind_Raise; [reflexivity|].
    unfold optimizeK_candidate.
    rewrite (bind_Ok _ _ w d w) by (by apply np_read_run).
    rewrite (bind_Ok _ _ w labels w) by (by rewrite lift_run, Hfit).
    rewrite (bind_Ok _ _ _ _ _ Hstab).
    rewrite (bind_Ok _ _ w1 m w1) by (by rewrite lift_run, Hmin).
    rewrite (bind_Ok _ _ _ _ _ (print_run _ _)).
    rewrite Hstable.
    erewrite bind_Raise; [reflexivity|].
    rewrite lift_run, quality_score_unknown by done. simpl. by rewrite Hout.
Qed.

End UnknownMethod.


Section StabilityProperties.
Context {G : Type} {RS : RandomState G}.
Implicit Types w : world G.

(** X5. When the distance matrix is square, at least one round is run and
    every round finds all original clusters among its bootstrap labels,
    [compute_stability_indices] returns a table with exactly one entry per
    original cluster, and every stability score is a number between 0 and
    1: each round credits a cluster with one Jaccard index. *)
Theorem stability_scores_lie_between_0_and_1 dm (cm : ndarray -> res (list nat))
    (bootstraps : nat) (seed : Z) w (d : ndarray) (labels : list nat) (n : nat) :
  let clusters := np_unique labels in
  heap w !! dm = Some d -> square n d -> cm d = Ok labels -> 0 < bootstraps ->
  (forall i, i < bootstraps ->
     exists ib,
       bootstrap_index_sets cm d (Nat.iter i (next_generator n) (np_random w)) = Ok ib /\
       forall c, c ∈ clusters -> is_Some (ib !! c)) ->
  exists table w',
    compute_stability_indices dm cm bootstraps seed w = (Ok table, w') /\
    (forall c, is_Some (table !! c) <-> c ∈ clusters) /\
    (forall c v, table !! c = Some v -> between 0 1 v).
Proof.
  intros clusters Hdm Hsq Hcm Hb Hrounds.
  destruct (compute_stability_indices_run dm cm bootstraps seed w d labels n Hdm Hsq Hcm Hb
              Hrounds)
    as (table & w' & Hrun & _ & Hout & Hin).
  fold clusters in Hout, Hin.
  exists table, w'. split; [exact Hrun|]. split.
  - intros c. split.
    + intros [v Hv]. destruct (decide (c ∈ clusters)) as [Hc|Hc]; [done|].
      rewrite (Hout c Hc) in Hv. done.
    + intros Hc. destruct (Hin c Hc) as (q & -> & _). done.
  - intros c v Hv. destruct (decide (c ∈ clusters)) as [Hc|Hc].
    + destruct (Hin c Hc) as (q & Hq & Hlo & Hhi & _). rewrite Hq in Hv.
      injection Hv as <-. by split.
    + rewrite (Hout c Hc) in Hv. done.
Qed.

(** X6. The stability score of a cluster is exactly 1 as soon as that
    cluster is reproduced in every round (its bootstrap index set,
    translated to original indices, is its original index set), whatever
    happens to the other clusters: the matching picks its row while its own
    column is still free. *)
Theorem reproduced_cluster_scores_1 dm (cm : ndarray -> res (list nat))
    (bootstraps : nat) (seed : Z) w (d : ndarray) (labels : list nat) (n : nat) (c : nat) :
  let clusters := np_unique labels in
  heap w !! dm = Some d -> square n d -> cm d = Ok labels -> 0 < bootstraps ->
  (forall i, i < bootstraps ->
     exists ib,
       bootstrap_index_sets cm d (Nat.iter i (next_generator n) (np_random w)) = Ok ib /\
       forall c', c' ∈ clusters -> is_Some (ib !! c')) ->
  c ∈ clusters ->
  (forall i ib bc, i < bootstraps ->
     bootstrap_index_sets cm d (Nat.iter i (next_generator n) (np_random w)) = Ok ib ->
     ib !! c = Some bc -> as_set bc = list_to_set (members labels c)) ->
  exists table w',
    compute_stability_indices dm cm bootstraps seed w = (Ok table, w') /\
    table !! c = Some (Num 1).
Proof.
  intros clusters Hdm Hsq Hcm Hb Hrounds Hc Hsame.
  destruct (compute_stability_indices_run dm cm bootstraps seed w d labels n Hdm Hsq Hcm Hb
              Hrounds)
    as (table & w' & Hrun & _ & _ & Hin).
  exists table, w'. split; [exact Hrun|].
  destruct (Hin c Hc) as (q & Hq & _ & _ & Hone). by rewrite Hq, (Hone Hsame).
Qed.

(** X7. A call that returns has drawn exactly [bootstraps] samples of size
    [n] from the global generator, one per round, has printed nothing and
    has left every array that existed before the call as it was. *)
Theorem compute_stability_indices_draws_one_sample_per_round dm
    (cm : ndarray -> res (list nat)) (bootstraps : nat) (seed : Z) w (d : ndarray)
    (labels : list nat) (n : nat) :
  let clusters := np_unique labels in
  heap w !! dm = Some d -> square n d -> cm d = Ok labels -> 0 < bootstraps ->
  (forall i, i < bootstraps ->
     exists ib,
       bootstrap_index_sets cm d (Nat.iter i (next_generator n) (np_random w)) = Ok ib /\
       forall c, c ∈ clusters -> is_Some (ib !! c)) ->
  exists table w',
    compute_stability_indices dm cm bootstraps seed w = (Ok table, w') /\
    np_random w' = Nat.iter bootstraps (next_generator n) (np_random w) /\
    stdout w' = stdout w /\
    heap w ⊆ heap w'.
Proof.
  intros clusters Hdm Hsq Hcm Hb Hrounds.
  destruct (compute_stability_indices_run dm cm bootstraps seed w d labels n Hdm Hsq Hcm Hb
              Hrounds)
    as (table & w' & Hrun & Hg & _ & _).
  exists table, w'. split; [exact Hrun|]. split; [exact Hg|].
  pose proof (compute_stability_indices_grows dm cm bootstraps seed w) as [Hheap Hout].
  rewrite Hrun in Hheap, Hout. by split.
Qed.

End StabilityProperties.

Section IndexSets.

Lemma translate_keys labels mapping (d : gmap nat indices) :
  _translate_cluster_labels_to_dictionary_of_index_sets_per_cluster labels mapping = Ok d ->
  forall c, is_Some (d !! c) <-> c ∈ labels.
Proof.
  unfold _translate_cluster_labels_to_dictionary_of_index_sets_per_cluster. intros H c.
  destruct (foldR_insert_inv _ _ _ _ H) as [Hin Hout].
  rewrite <- elem_of_np_unique. split.
  - intros [v Hv]. destruct (decide (c ∈ np_unique labels)) as [Hc|Hc]; [done|].
    rewrite (Hout c Hc), lookup_empty in Hv. done.
  - intros Hc. destruct (Hin c Hc) as (v & _ & ->). done.
Qed.

(** X9. Without a mapping,
    [_translate_cluster_labels_to_dictionary_of_index_sets_per_cluster]
    never fails and returns a partition of the sample positions: the keys
    are the labels that occur, the value of a key is the set of positions
    that carry that label, so every set is non-empty, two different keys
    have disjoint sets and every position below [len(labels)] lies in the
    set of its own label. *)
Theorem original_index_sets_partition_the_samples (labels : list nat) :
  exists io,
    _translate_cluster_labels_to_dictionary_of_index_sets_per_cluster labels None = Ok io /\
    (forall c, is_Some (io !! c) <-> c ∈ labels) /\
    (forall c, c ∈ labels ->
       exists s, io !! c = Some (IdxSet s) /\ size s <> 0 /\
                 forall i, i ∈ s <-> labels !! i = Some c) /\
    (forall c c' s s', c <> c' -> io !! c = Some (IdxSet s) -> io !! c' = Some (IdxSet s') ->
                       s ∩ s' = ∅) /\
    (forall i, i < length labels ->
       exists c s, labels !! i = Some c /\ io !! c = Some (IdxSet s) /\ i ∈ s).
Proof.
  destruct (translate_original labels) as (io & Hio & Hsets).
  exists io. split; [exact Hio|]. split; [exact (translate_keys labels None io Hio)|].
  assert (Hval : forall c, c ∈ labels ->
            io !! c = Some (IdxSet (list_to_set (members labels c)))).
  { intros c Hc. apply Hsets. by apply elem_of_np_unique. }
  split; [|split].
  - intros c Hc. eexists. split; [by apply Hval|]. split; [by apply members_nonempty|].
    intros i. by rewrite elem_of_list_to_set, elem_of_members.
  - intros c c' s s' Hne Hs Hs'.
    assert (Hc : c ∈ labels) by (apply (translate_keys labels None io Hio); by rewrite Hs).
    assert (Hc' : c' ∈ labels) by (apply (translate_keys labels None io Hio); by rewrite Hs').
    rewrite (Hval c Hc) in Hs. rewrite (Hval c' Hc') in Hs'.
    injection Hs as <-. injection Hs' as <-. by apply members_disjoint.
  - intros i Hi. destruct (lookup_lt_is_Some_2 labels i Hi) as [c Hc].
    assert (Hin : c ∈ labels) by (by eapply list_elem_of_lookup_2).
    eexists c, _. split; [done|]. split; [by apply Hval|].
    by rewrite elem_of_list_to_set, elem_of_members.
Qed.

Lemma mapR_dict_get_map_seq (s : list nat) (positions : list nat) :
  (forall i, i ∈ positions -> i < length s) ->
  exists l, mapR (dict_get (map_seq 0 s)) positions = Ok l /\
            Forall2 (fun i x => s !! i = Some x) positions l.
Proof.
  induction positions as [|i positions IH]; intros Hlt; [by exists []|].
  destruct (lookup_lt_is_Some_2 s i) as [x Hx]; [apply Hlt; by left|].
  destruct IH as (l & Hl & Hall); [intros j Hj; apply Hlt; by right|].
  exists (x :: l). split; [|by constructor].
  simpl. unfold dict_get at 1. rewrite lookup_map_seq_0, Hx. simpl. by rewrite Hl.
Qed.

(** X10. With the mapping of a bootstrap sample [s] (position [i] of the
    sample stands for the original sample [s[i]]) and labels for the
    positions of that sample, the function never fails, its keys are the
    labels that occur, and the value of a key is a list whose elements are
    exactly the original samples drawn at the positions that carry the
    label. *)
Theorem bootstrap_index_sets_hold_the_drawn_samples (labels s : list nat) :
  length labels <= length s ->
  exists ib,
    _translate_cluster_labels_to_dictionary_of_index_sets_per_cluster
      labels (Some (map_seq 0 s)) = Ok ib /\
    (forall c, is_Some (ib !! c) <-> c ∈ labels) /\
    (forall c, c ∈ labels ->
       exists l, ib !! c = Some (IdxList l) /\
                 forall x, x ∈ as_set (IdxList l) <->
                           exists i, labels !! i = Some c /\ s !! i = Some x).
Proof.
  intros Hlen.
  assert (Hf : forall c, exists l,
            mapR (dict_get (map_seq 0 s)) (members labels c) = Ok l /\
            Forall2 (fun i x => s !! i = Some x) (members labels c) l).
  { intros c. apply mapR_dict_get_map_seq. intros i Hi%elem_of_members.
    apply lookup_lt_Some in Hi. lia. }
  unfold _translate_cluster_labels_to_dictionary_of_index_sets_per_cluster.
  destruct (foldR_insert_is_Ok
              (fun c => l <-- mapR (dict_get (map_seq 0 s)) (members labels c) ;;
                        Ok (IdxList l)) (np_unique labels) ∅) as [ib Hib].
  { intros c _. destruct (Hf c) as (l & -> & _). by eexists. }
  exists ib. split; [exact Hib|].
  split; [exact (translate_keys labels (Some (map_seq 0 s)) ib Hib)|].
  intros c Hc. destruct (foldR_insert_inv _ _ _ _ Hib) as [Hin _].
  destruct (Hin c) as (v & Hv & Hlook); [by apply elem_of_np_unique|].
  destruct (Hf c) as (l & Hl & Hall). rewrite Hl in Hv. injection Hv as <-.
  exists l. split; [done|]. intros x. simpl. rewrite elem_of_list_to_set. split.
  - intros [j Hj]%list_elem_of_lookup.
    destruct (Forall2_lookup_r _ _ _ _ _ Hall Hj) as (i & Hi & Hix).
    exists i. split; [|done]. apply elem_of_members. by eapply list_elem_of_lookup_2.
  - intros (i & Hi & Hix). apply elem_of_members, list_elem_of_lookup in Hi as [j Hj].
    destruct (Forall2_lookup_l _ _ _ _ _ Hall Hj) as (x' & Hx' & Hix').
    rewrite Hix in Hix'. injection Hix' as <-. by eapply list_elem_of_lookup_2.
Qed.

End IndexSets.

Section NonSquare.
Context {G : Type} {RS : RandomState G} {KM : KMedoidsLib}.
Implicit Types w : world G.

(** X8. A distance matrix that is not square is refused by the assertion
    of [compute_stability_indices] before anything else happens: the
    cluster method is not called and the state is as before the call (no
    sample drawn, nothing allocated or printed, [numpy.random.seed] not
    rebound). [optimizeK] clusters the matrix first (line 66): when the fit
    of its first candidate, [k = 2], returns, the search hits that
    assertion and raises the same error without having printed a line. A
    matrix with fewer than two rows does not get that far: the fit raises
    [ValueError]. *)
Theorem non_square_matrix_is_refused dm (cm : ndarray -> res (list nat))
    (bootstraps : nat) (seed : Z) (x : ndarray) (y : list float64) max_K rs dv mi method w
    (d : ndarray) :
  heap w !! dm = Some d -> (shape d).1 <> (shape d).2 ->
  compute_stability_indices dm cm bootstraps seed w
    = (Raise (AssertionError "error distance matrix is not square"), w) /\
  (2 < max_K ->
   (forall labels, KMedoids_fit_labels 2 rs mi d = Ok labels ->
      optimizeK dm x y max_K rs dv bootstraps mi method w
      = (Raise (AssertionError "error distance matrix is not square"), w)) /\
   (length d < 2 ->
      exists msg,
        optimizeK dm x y max_K rs dv bootstraps mi method w = (Raise (ValueError msg), w))).
Proof.
  intros Hdm Hshape.
  assert (Hstab : forall cm' seed',
            compute_stability_indices dm cm' bootstraps seed' w
            = (Raise (AssertionError "error distance matrix is not square"), w)).
  { intros cm' seed'. unfold compute_stability_indices.
    rewrite (bind_Ok _ _ w d w) by (by apply np_read_run).
    erewrite bind_Raise; [reflexivity|].
    by rewrite bool_decide_eq_false_2. }
  split; [apply Hstab|].
  intros HK. unfold optimizeK. destruct max_K as [|[|[|K]]]; [lia..|].
  simpl seq. cbn [for_each]. split.
  - intros labels Hfit.
    erewrite bind_Raise; [reflexivity|]. erewrite bind_Raise; [reflexivity|].
    unfold optimizeK_candidate.
    rewrite (bind_Ok _ _ w d w) by (by apply np_read_run).
    rewrite (bind_Ok _ _ w labels w) by (by rewrite lift_run, Hfit).
    erewrite bind_Raise; [reflexivity|]. apply Hstab.
  - intros Hrows.
    destruct (KMedoids_more_medoids_than_samples 2 rs mi d Hrows) as [msg Hfit].
    exists msg.
    erewrite bind_Raise; [reflexivity|]. erewrite bind_Raise; [reflexivity|].
    unfold optimizeK_candidate.
    rewrite (bind_Ok _ _ w d w) by (by apply np_read_run).
    erewrite bind_Raise; [reflexivity|]. by rewrite lift_run, Hfit.
Qed.

End NonSquare.

Section JaccardMatrix.
Context {G : Type} {RS : RandomState G}.
Implicit Types w : world G.

(** X11. When every cluster id is a key of both dictionaries and the
    original sets are non-empty, [_compute_jaccard_matrix] returns a new
    [k] by [k] array and changes nothing else. Its entry [(i, j)] is the
    Jaccard index of the original set of cluster [i] and the bootstrap set
    of cluster [j]: a number between 0 and 1 that is 1 exactly when the two
    sets are equal and 0 exactly when they are disjoint. *)
Theorem jaccard_matrix_entries (clusters : list nat) (ib io : gmap nat indices) w :
  (forall c, c ∈ clusters -> exists so, io !! c = Some (IdxSet so) /\ size so <> 0) ->
  (forall c, c ∈ clusters -> is_Some (ib !! c)) ->
  exists J,
    _compute_jaccard_matrix clusters ib io w
      = (Ok (fresh (dom (heap w))), with_heap (<[fresh (dom (heap w)) := J]> (heap w)) w) /\
    square (length clusters) J /\
    forall i j ci cj so bj,
      clusters !! i = Some ci -> clusters !! j = Some cj ->
      io !! ci = Some (IdxSet so) -> ib !! cj = Some bj ->
      exists q, entry J i j = Some (Num q) /\
                (q == jaccard so (as_set bj))%Q /\
                (0 <= q)%Q /\ (q <= 1)%Q /\
                ((q == 1)%Q <-> so = as_set bj) /\
                ((q == 0)%Q <-> so ∩ as_set bj = ∅).
Proof.
  intros Hio Hib.
  set (val := fun s t =>
    match clusters !! s, clusters !! t with
    | Some co, Some cb =>
        match io !! co, ib !! cb with
        | Some oi, Some bi =>
            match jaccard_index oi bi with Ok v => v | Raise _ => NaN end
        | _, _ => NaN
        end
    | _, _ => NaN
    end).
  assert (Hval : forall s co t cb so bi,
            clusters !! s = Some co -> clusters !! t = Some cb ->
            io !! co = Some (IdxSet so) -> ib !! cb = Some bi ->
            exists q, jaccard_index (IdxSet so) bi = Ok (Num q) /\ val s t = Num q /\
                      (q == jaccard so (as_set bi))%Q /\ size so <> 0).
  { intros s co t cb so bi Hs Ht Hso Hbi.
    destruct (Hio co) as (so' & Hso' & Hsize); [by eapply list_elem_of_lookup_2|].
    rewrite Hso in Hso'. injection Hso' as <-.
    destruct (jaccard_index_set so bi Hsize) as (q & Hq & Hqv).
    exists q. split; [done|]. split; [|done].
    unfold val. by rewrite Hs, Ht, Hso, Hbi, Hq. }
  destruct (jaccard_matrix_run clusters ib io val w) as (J & Hrun & HJ & Hent).
  { intros s co t cb Hs Ht.
    destruct (Hio co) as (so & Hso & _); [by eapply list_elem_of_lookup_2|].
    destruct (Hib cb) as [bi Hbi]; [by eapply list_elem_of_lookup_2|].
    destruct (Hval s co t cb so bi Hs Ht Hso Hbi) as (q & Hq & E & _).
    exists bi, (IdxSet so). by rewrite E. }
  exists J. split; [exact Hrun|]. split; [exact HJ|].
  intros i j ci cj so bj Hi Hj Hso Hbj.
  destruct (Hval i ci j cj so bj Hi Hj Hso Hbj) as (q & _ & E & Hqv & Hsize).
  exists q. split.
  { rewrite <- E. apply Hent; by eapply lookup_lt_Some. }
  split; [done|].
  destruct (jaccard_spec so (as_set bj) Hsize) as (Hlo & Hhi & Hone & Hzero).
  rewrite Hqv. done.
Qed.

End JaccardMatrix.

Section ReturnsIff.
Context {G : Type} {RS : RandomState G}.
Implicit Types w : world G.


End ReturnsIff.

Section StabilityFilterLoop.
Context {G : Type} {RS : RandomState G} {KM : KMedoidsLib}.
Implicit Types w : world G.

(** X13. In a run of [optimizeK] that returns, the minimum stability
    printed for a candidate is the least score of the table that
    [compute_stability_indices] returned for it, and the candidate is
    scored exactly when every cluster of that table has a stability score
    above [discart_value]: one unstable cluster rejects the candidate. *)
Theorem candidate_is_scored_iff_every_cluster_is_stable dm (x : ndarray)
    (y : list float64) max_K rs dv bs mi method w kopt w' (d : ndarray) n :
  heap w !! dm = Some d -> square n d ->
  optimizeK dm x y max_K rs dv bs mi method w = (Ok kopt, w') ->
  exists outcomes : list candidate_outcome,
    cand_k <$> outcomes = seq 2 (max_K - 2) /\
    stdout w' = stdout w ++ concat (outcome_events <$> outcomes) /\
    forall o, o ∈ outcomes ->
      exists table w0 w1,
        heap w0 !! dm = Some d /\
        compute_stability_indices dm (KMedoids_fit_labels (cand_k o) rs mi) bs rs w0
          = (Ok table, w1) /\
        (exists c, table !! c = Some (cand_min_index o)) /\
        (forall c v, table !! c = Some v -> fle (cand_min_index o) v = true) /\
        (is_Some (cand_score o) <-> forall c v, table !! c = Some v -> flt dv v = true).
Proof.
  intros Hdm Hsq H. unfold optimizeK in H.
  apply bind_inv_Ok in H as (best & w1 & Hloop & H). injection H as _ <-.
  apply optimizeK_loop_tables in Hloop as (outcomes & Hks & Hout & _ & Hall).
  2:{ intros d' Hd'. rewrite Hdm in Hd'. injection Hd' as <-.
      by eapply square_two_dimensional. }
  exists outcomes. split; [done|]. split; [done|].
  intros o Ho.
  destruct (Hall o Ho) as (d' & labels & table & w0 & w2 & Hd' & Hdm0 & _ & _ & Hstab
                           & _ & _ & Hmin & Hleast & _ & Hiff & _).
  rewrite Hdm in Hd'. injection Hd' as <-.
  by exists table, w0, w2.
Qed.

End StabilityFilterLoop.

Section SearchReturns.
Context {G : Type} {RS : RandomState G} {KM : KMedoidsLib}.
Implicit Types w : world G.

Lemma quality_score_is_Ok (method : string) (y : list float64) (labels : list nat) :
  method = "clustering"%string \/ method = "regression"%string ->
  length y = length labels -> y <> [] ->
  exists s, quality_score method y labels = Ok s.
Proof.
  intros Hmethod Hlen Hy. unfold quality_score.
  assert (Hsel : forall c, mask_select y labels c = Ok (masked y labels c)).
  { intros c. by apply mask_select_Ok. }
  destruct Hmethod as [-> | ->]; simpl.
  - unfold compute_balanced_average_purity. destruct y as [|v y]; [done|].
    unfold balanced_purities. destruct (up_scaling _ _) as [[small large] u].
    rewrite (mapR_Ok_intro _ (fun cluster =>
      normalized_balanced_purity small large u (masked (v :: y) labels cluster))).
    + by eexists.
    + intros c _. by rewrite Hsel.
  - unfold compute_total_within_cluster_variation.
    generalize (Num 0). induction (np_unique labels) as [|c cs IH]; intros s0; simpl.
    + by eexists.
    + rewrite Hsel. simpl. apply IH.
Qed.

End SearchReturns.

Section SearchReturnsLoop.
Context {G : Type} {RS : RandomState G} {KM : KMedoidsLib}.
Implicit Types w : world G.

Lemma optimizeK_candidate_returns dm (y : list float64) rs dv bs mi method k best w
    (d : ndarray) (labels : list nat) (n : nat) :
  let cm := KMedoids_fit_labels k rs mi in
  heap w !! dm = Some d -> square n d -> 0 < bs -> y <> [] -> length y = n ->
  cm d = Ok labels ->
  method = "clustering"%string \/ method = "regression"%string ->
  (forall i, i < bs ->
     exists ib,
       bootstrap_index_sets cm d (Nat.iter i (next_generator n) (np_random w)) = Ok ib /\
       forall c, c ∈ np_unique labels -> is_Some (ib !! c)) ->
  exists best' w',
    optimizeK_candidate dm y rs dv bs mi method k best w = (Ok best', w') /\
    heap w ⊆ heap w' /\
    np_random w' = Nat.iter bs (next_generator n) (np_random w).
Proof.
  intros cm Hdm Hsq Hbs Hy Hlen Hfit Hmethod Hrounds.
  assert (Hlabels : length labels = length y).
  { rewrite (KMedoids_one_label_per_sample _ _ _ _ _ Hfit), Hlen. apply Hsq. }
  destruct (compute_stability_indices_run dm cm bs rs w d labels n Hdm Hsq Hfit Hbs Hrounds)
    as (table & w1 & Hstab & Hg & _ & Hin).
  pose proof (compute_stability_indices_grows dm cm bs rs w) as [Hheap Hout].
  rewrite Hstab in Hheap, Hout. simpl in Hheap, Hout.
  assert (Hmin : exists m, py_min (dict_values table) = Ok m).
  { destruct labels as [|c0 rest].
    - destruct y; [done|simpl in Hlabels; lia].
    - destruct (Hin c0) as (q & Hq & _); [apply elem_of_np_unique; by left|].
      assert (Num q ∈ dict_values table) as Hv by (apply elem_of_dict_values; eauto).
      destruct (dict_values table) as [|v vs]; [by apply elem_of_nil in Hv|].
      by eexists. }
  destruct Hmin as [m Hm].
  destruct (quality_score_is_Ok method y labels Hmethod (eq_sym Hlabels) Hy) as [s Hs].
  unfold optimizeK_candidate. destruct best as [score_min optimal_k]. fold cm.
  rewrite (bind_Ok _ _ w d w) by (by apply np_read_run).
  rewrite (bind_Ok _ _ w labels w) by (by rewrite lift_run, Hfit).
  rewrite (bind_Ok _ _ _ _ _ Hstab).
  rewrite (bind_Ok _ _ w1 m w1) by (by rewrite lift_run, Hm).
  rewrite (bind_Ok _ _ _ _ _ (print_run _ _)).
  destruct (flt dv m).
  - erewrite bind_Ok; [|by rewrite lift_run, Hs].
    rewrite (bind_Ok _ _ _ _ _ (print_run _ _)).
    eexists _, _. split; [reflexivity|]. by split.
  - rewrite (bind_Ok _ _ _ _ _ (print_run _ _)).
    eexists _, _. split; [reflexivity|]. by split.
Qed.

Lemma optimizeK_loop_returns dm (y : list float64) rs dv bs mi method (d : ndarray)
    (n : nat) :
  square n d -> 0 < bs -> y <> [] -> length y = n ->
  method = "clustering"%string \/ method = "regression"%string ->
  forall m s best w,
    heap w !! dm = Some d ->
    (forall j, j < m ->
       exists labels,
         KMedoids_fit_labels (s + j) rs mi d = Ok labels /\
         forall i, i < bs ->
           exists ib,
             bootstrap_index_sets (KMedoids_fit_labels (s + j) rs mi) d
               (Nat.iter (j * bs + i) (next_generator n) (np_random w)) = Ok ib /\
             forall c, c ∈ np_unique labels -> is_Some (ib !! c)) ->
    exists best' w',
      for_each (seq s m) (optimizeK_candidate dm y rs dv bs mi method) best w
        = (Ok best', w') /\
      heap w ⊆ heap w' /\
      np_random w' = Nat.iter (m * bs) (next_generator n) (np_random w).
Proof.
  intros Hsq Hbs Hy Hlen Hmethod. induction m as [|m IH]; intros s best w Hdm Hrounds.
  - exists best, w. by split.
  - destruct (Hrounds 0) as (labels & Hfit & Hfirst); [lia|].
    rewrite Nat.add_0_r in Hfit, Hfirst.
    destruct (optimizeK_candidate_returns dm y rs dv bs mi method s best w d labels n
                Hdm Hsq Hbs Hy Hlen Hfit Hmethod) as (best1 & w1 & Hrun1 & Hheap1 & Hg1).
    { intros i Hi. destruct (Hfirst i Hi) as (ib & Hib & Hkeys).
      simpl in Hib. by exists ib. }
    destruct (IH (S s) best1 w1) as (best' & w' & Hrun & Hheap & Hg).
    { by eapply lookup_weaken. }
    { intros j Hj. destruct (Hrounds (S j)) as (labels' & Hfit' & Hnext); [lia|].
      replace (s + S j) with (S s + j) in Hfit', Hnext by lia.
      exists labels'. split; [done|]. intros i Hi.
      destruct (Hnext i Hi) as (ib & Hib & Hkeys).
      exists ib. split; [|done]. rewrite Hg1, <- Nat.iter_add.
      replace (j * bs + i + bs) with (S j * bs + i) by lia. done. }
    exists best', w'. split; [simpl; by rewrite (bind_Ok _ _ _ _ _ Hrun1)|].
    split; [by etrans|].
    rewrite Hg, Hg1, <- Nat.iter_add. f_equal. lia.
Qed.

(** X19. [optimizeK] returns whenever the distance matrix is square with
    one row per target value, [bootstraps >= 1], the method is one of the
    two known ones, the target is not empty, and for every candidate of
    [range(2, max_K)] the clustering of the distance matrix returns and
    every bootstrap round finds all clusters of that candidate among its
    bootstrap labels: nothing else can make the search fail. It then has
    drawn [(max_K - 2) * bootstraps] samples of size [n] from the global
    generator, and every array that existed before is as it was. *)
Theorem optimizeK_returns_when_every_round_completes dm (x : ndarray) (y : list float64)
    max_K rs dv bs mi method w (d : ndarray) (n : nat) :
  heap w !! dm = Some d -> square n d -> 0 < bs -> y <> [] -> length y = n ->
  method = "clustering"%string \/ method = "regression"%string ->
  (forall j, j < max_K - 2 ->
     exists labels,
       KMedoids_fit_labels (2 + j) rs mi d = Ok labels /\
       forall i, i < bs ->
         exists ib,
           bootstrap_index_sets (KMedoids_fit_labels (2 + j) rs mi) d
             (Nat.iter (j * bs + i) (next_generator n) (np_random w)) = Ok ib /\
           forall c, c ∈ np_unique labels -> is_Some (ib !! c)) ->
  exists kopt w',
    optimizeK dm x y max_K rs dv bs mi method w = (Ok kopt, w') /\
    np_random w' = Nat.iter ((max_K - 2) * bs) (next_generator n) (np_random w) /\
    heap w ⊆ heap w'.
Proof.
  intros Hdm Hsq Hbs Hy Hlen Hmethod Hrounds.
  destruct (optimizeK_loop_returns dm y rs dv bs mi method d n Hsq Hbs Hy Hlen Hmethod
              (max_K - 2) 2 (PInf, 1) w Hdm Hrounds) as (best & w' & Hloop & Hheap & Hg).
  exists best.2, w'. split; [|by split].
  unfold optimizeK. by rewrite (bind_Ok _ _ _ _ _ Hloop).
Qed.

(** X21. [optimizeK] raises whenever [range(2, max_K)] holds a candidate
    larger than the number of samples: the estimator refuses more medoids
    than the distance matrix has rows, and the search handles no
    exception, so no such call returns a number of clusters. With the
    default [max_K = 6] the search needs at least five samples. *)
Theorem optimizeK_needs_as_many_samples_as_clusters dm (x : ndarray) (y : list float64)
    max_K rs dv bs mi method w (d : ndarray) :
  heap w !! dm = Some d -> 2 < max_K -> length d < max_K - 1 ->
  exists e w', optimizeK dm x y max_K rs dv bs mi method w = (Raise e, w').
Proof.
  intros Hdm HK Hrows.
  destruct (optimizeK dm x y max_K rs dv bs mi method w) as [[kopt|e] w'] eqn:H;
    [exfalso|by exists e, w'].
  unfold optimizeK in H.
  apply bind_inv_Ok in H as (best & w1 & Hloop & _).
  apply optimizeK_loop_inv in Hloop as (outcomes & Hks & _ & _ & Hall).
  assert (Hlast : max_K - 1 ∈ cand_k <$> outcomes).
  { rewrite Hks. apply elem_of_seq. lia. }
  apply list_elem_of_fmap in Hlast as (o & Hk & Ho).
  destruct (Hall o Ho) as [_ (d' & labels & table & w0 & w2 & Hd' & _ & Hfit & _)].
  rewrite Hdm in Hd'. injection Hd' as <-.
  destruct (KMedoids_more_medoids_than_samples (cand_k o) rs mi d) as [msg Hraise];
    [lia|].
  by rewrite Hraise in Hfit.
Qed.

End SearchReturnsLoop.

Section VariationFacts.

Lemma Qsum_cons q l : Qsum (q :: l) = (q + Qsum l)%Q.
Proof. reflexivity. Qed.

Lemma Qsum_nonneg (l : list Q) : Forall (fun q => (0 <= q)%Q) l -> (0 <= Qsum l)%Q.
Proof.
  induction 1 as [|q l Hq _ IH]; simpl; [lra|]. lra.
Qed.

Lemma Qsum_zero (l : list Q) :
  Forall (fun q => (0 <= q)%Q) l -> (Qsum l == 0)%Q <-> Forall (fun q => (q == 0)%Q) l.
Proof.
  induction 1 as [|q l Hq Hl IH]; simpl.
  - split; [constructor|reflexivity].
  - pose proof (Qsum_nonneg l Hl). rewrite Forall_cons, <- IH. split.
    + intros E. split; lra.
    + intros [E1 E2]. lra.
Qed.

Lemma foldl_fadd_spec (l : list float64) : forall q0,
  Forall is_num l ->
  exists q, foldl fadd (Num q0) l = Num q /\ (q == q0 + Qsum (rat <$> l))%Q.
Proof.
  induction l as [|x l IH]; intros q0 Hl.
  - exists q0. split; [done|]. change (Qsum (rat <$> [])) with 0%Q. ring.
  - inversion Hl as [|? ? Hx Hl']; subst. destruct x as [| |a|]; try done.
    destruct (IH (Qred (q0 + a)) Hl') as (q & Hq & Hqv).
    exists q. split; [exact Hq|]. rewrite Hqv, Qred_correct.
    rewrite fmap_cons, Qsum_cons. simpl rat. ring.
Qed.

Lemma fsum_spec (l : list float64) :
  Forall is_num l -> exists q, fsum l = Num q /\ (q == Qsum (rat <$> l))%Q.
Proof.
  intros Hl. destruct (foldl_fadd_spec l 0 Hl) as (q & Hq & Hqv).
  exists q. split; [exact Hq|]. rewrite Hqv. ring.
Qed.

Lemma np_mean_spec (l : list float64) :
  l <> [] -> Forall is_num l ->
  exists m, np_mean l = Num m /\
            (m == Qsum (rat <$> l) / inject_Z (Z.of_nat (length l)))%Q.
Proof.
  intros Hne Hl. unfold np_mean. destruct (fsum_spec l Hl) as (q & -> & Hq).
  assert (0 < inject_Z (Z.of_nat (length l)))%Q as Hpos.
  { apply inject_nat_pos. destruct l; [done|simpl; lia]. }
  unfold of_nat. rewrite fdiv_Num by lra. eexists. split; [reflexivity|].
  by rewrite Qred_correct, Hq.
Qed.

Lemma squares_spec (m : Q) (l : list float64) :
  Forall is_num l ->
  Forall is_num ((fun v => fmul (fsub v (Num m)) (fsub v (Num m))) <$> l) /\
  (Qsum (rat <$> ((fun v => fmul (fsub v (Num m)) (fsub v (Num m))) <$> l))
   == squared_deviations m l)%Q.
Proof.
  unfold squared_deviations.
  induction 1 as [|v l Hv Hl [IH1 IH2]]; [by split; [constructor|]|].
  destruct v as [| |a|]; try done. rewrite !fmap_cons. split.
  - constructor; [done|exact IH1].
  - rewrite !Qsum_cons, IH2. apply Qplus_comp; [|reflexivity].
    simpl. rewrite !Qred_correct. ring.
Qed.

Lemma squared_deviations_nonneg m l : (0 <= squared_deviations m l)%Q.
Proof.
  unfold squared_deviations. apply Qsum_nonneg, Forall_fmap, Forall_forall.
  intros v _. simpl. apply Qsquare_nonneg.
Qed.

(** [np.var(l) * len(l)] is the sum of the squared deviations from the
    mean. *)
Lemma variation_term_spec (l : list float64) :
  l <> [] -> Forall is_num l ->
  exists m t, np_mean l = Num m /\
    fmul (np_var l) (of_nat (length l)) = Num t /\
    (t == squared_deviations m l)%Q.
Proof.
  intros Hne Hl. destruct (np_mean_spec l Hne Hl) as (m & Hm & Hmv).
  exists m. unfold np_var. rewrite Hm.
  destruct (squares_spec m l Hl) as [Hsq Hsum].
  set (sq := (fun v => fmul (fsub v (Num m)) (fsub v (Num m))) <$> l) in *.
  assert (Hsqne : sq <> []) by (unfold sq; by destruct l).
  destruct (np_mean_spec sq Hsqne Hsq) as (v & -> & Hv).
  assert (length sq = length l) as Hlen by (unfold sq; by rewrite length_fmap).
  rewrite Hlen in Hv.
  assert (0 < inject_Z (Z.of_nat (length l)))%Q as Hpos.
  { apply inject_nat_pos. destruct l; [done|simpl; lia]. }
  eexists. split; [done|]. split; [reflexivity|].
  rewrite Qred_correct, Hv, Hsum. field. lra.
Qed.

End VariationFacts.

Section WithinClusterVariation.

Lemma elem_of_masked y labels c v :
  v ∈ masked y labels c <-> exists i, labels !! i = Some c /\ y !! i = Some v.
Proof.
  unfold masked. rewrite list_elem_of_fmap. split.
  - intros ([c' v'] & -> & [Hc Hin]%list_elem_of_filter). simpl in *. subst c'.
    apply list_elem_of_lookup in Hin as [i Hi].
    apply lookup_zip_with_Some in Hi as (a & b & [= <- <-] & Ha & Hb). by exists i.
  - intros (i & Hi & Hv). exists (c, v). split; [done|].
    apply list_elem_of_filter. split; [done|].
    apply list_elem_of_lookup. exists i. apply lookup_zip_with_Some. eauto.
Qed.

Lemma masked_numeric y labels c : Forall is_num y -> Forall is_num (masked y labels c).
Proof.
  rewrite !Forall_forall. intros H v Hv. eapply H, masked_subset, Hv.
Qed.

(** With one label per sample every cluster is a single value. *)
Lemma masked_absent y labels c : c ∉ labels -> masked y labels c = [].
Proof.
  intros Hc. destruct (masked y labels c) as [|v l] eqn:E; [done|]. exfalso.
  assert (v ∈ masked y labels c) as Hv by (rewrite E; by left).
  apply elem_of_masked in Hv as (i & Hi & _). apply Hc. by eapply list_elem_of_lookup_2.
Qed.

Lemma masked_singleton (labels : list nat) : forall (y : list float64) c,
  NoDup labels -> length y = length labels -> c ∈ labels ->
  exists v, v ∈ y /\ masked y labels c = [v].
Proof.
  induction labels as [|l labels IH]; intros y c Hnd Hlen Hc; [by apply elem_of_nil in Hc|].
  destruct y as [|v y]; [done|]. injection Hlen as Hlen.
  apply NoDup_cons in Hnd as [Hl Hnd].
  assert (Hcons : masked (v :: y) (l :: labels) c
                  = if decide (l = c) then v :: masked y labels c else masked y labels c).
  { unfold masked. simpl. rewrite filter_cons. simpl. by destruct (decide (l = c)). }
  rewrite Hcons. destruct (decide (l = c)) as [->|Hne].
  - exists v. split; [by left|]. by rewrite masked_absent.
  - apply elem_of_cons in Hc as [->|Hc]; [done|].
    destruct (IH y c Hnd Hlen Hc) as (v' & Hv' & E). exists v'. split; [by right|done].
Qed.

Lemma variation_fold (y : list float64) (labels : list nat) (cs : list nat) :
  Forall is_num y -> length y = length labels -> (forall c, c ∈ cs -> c ∈ labels) ->
  forall q0,
    exists q,
      foldR (fun cluster score =>
               y_cluster <-- mask_select y labels cluster ;;
               Ok (fadd score (fmul (np_var y_cluster) (of_nat (length y_cluster)))))
            cs (Num q0) = Ok (Num q) /\
      (q == q0 + Qsum (cluster_variation y labels <$> cs))%Q.
Proof.
  intros Hy Hlen. induction cs as [|c cs IH]; intros Hcs q0.
  - exists q0. split; [done|]. change (Qsum (cluster_variation y labels <$> [])) with 0%Q.
    ring.
  - assert (Hne : masked y labels c <> []).
    { pose proof (masked_nonempty y labels c Hlen (Hcs c ltac:(by left))) as Hpos.
      intros E. rewrite E in Hpos. simpl in Hpos. lia. }
    destruct (variation_term_spec (masked y labels c) Hne (masked_numeric y labels c Hy))
      as (m & t & Hm & Ht & Htv).
    destruct (IH (fun c' Hc' => Hcs c' ltac:(by right)) (Qred (q0 + t))) as (q & Hq & Hqv).
    exists q. split.
    + simpl. rewrite mask_select_Ok by done. simpl. rewrite Ht. exact Hq.
    + rewrite Hqv, Qred_correct, fmap_cons, Qsum_cons. unfold cluster_variation at 2.
      rewrite Hm. simpl rat. rewrite Htv. ring.
Qed.

(** X14. For a numeric target with one label per sample,
    [compute_total_within_cluster_variation] returns a score that is never
    negative. A cluster of a single sample adds nothing to it: when no two
    samples share a label the score is 0, whatever the target is. *)
Theorem within_cluster_variation_is_never_negative (y : list float64)
    (labels : list nat) :
  Forall is_num y -> length y = length labels ->
  exists s,
    compute_total_within_cluster_variation y labels = Ok s /\
    flt s (Num 0) = false /\
    (NoDup labels -> feqb s (Num 0) = true).
Proof.
  intros Hy Hlen.
  destruct (variation_fold y labels (np_unique labels) Hy Hlen) with (q0 := 0%Q)
    as (q & Hq & Hqv).
  { intros c. apply elem_of_np_unique. }
  assert (Hsum : (q == Qsum (cluster_variation y labels <$> np_unique labels))%Q)
    by (rewrite Hqv; ring).
  assert (Hnn : Forall (fun t => (0 <= t)%Q) (cluster_variation y labels <$> np_unique labels)).
  { apply Forall_fmap, Forall_forall. intros c _. apply squared_deviations_nonneg. }
  exists (Num q). split; [exact Hq|]. split.
  { pose proof (Qsum_nonneg _ Hnn) as H0. rewrite <- Hsum in H0.
    destruct (flt (Num q) (Num 0)) eqn:E; [|done]. apply flt_Num in E. lra. }
  intros Hnd. apply feqb_Num. rewrite Hsum. apply (Qsum_zero _ Hnn).
  apply Forall_fmap, Forall_forall. intros c Hc. rewrite elem_of_np_unique in Hc. simpl.
  destruct (masked_singleton labels y c Hnd Hlen Hc) as (v & Hv & E).
  unfold cluster_variation. rewrite E.
  rewrite Forall_forall in Hy. specialize (Hy v Hv). destruct v as [| |a|]; try done.
  destruct (np_mean_spec [Num a]) as (m & -> & Hm); [done|by repeat constructor|].
  unfold squared_deviations. simpl. simpl in Hm. rewrite Hm. field.
Qed.

End WithinClusterVariation.

Section PurityExtremes.

(** The value appended for one cluster is [4 p (1 - p)], where [p] is the
    up-scaled share of the minority label in the cluster. *)
Lemma purity_value small large (u : Q) y_cluster :
  (0 < u)%Q ->
  0 < count_equal small y_cluster + count_equal large y_cluster ->
  let qa := inject_Z (Z.of_nat (count_equal small y_cluster)) in
  let qb := inject_Z (Z.of_nat (count_equal large y_cluster)) in
  exists q, normalized_balanced_purity small large (Num u) y_cluster = Num q /\
            (0 <= q)%Q /\ (q <= 1)%Q /\
            ((q == 0)%Q <-> count_equal small y_cluster = 0 \/ count_equal large y_cluster = 0) /\
            ((q == 1)%Q <-> (qa * u == qb)%Q).
Proof.
  intros Hu Hab qa qb. unfold normalized_balanced_purity.
  set (a := count_equal small y_cluster) in *.
  set (b := count_equal large y_cluster) in *.
  pose proof (inject_nat_nonneg a) as Ha.
  pose proof (inject_nat_nonneg b) as Hb.
  fold qa in Ha. fold qb in Hb.
  assert (Ha0 : a = 0 <-> (qa == 0)%Q).
  { unfold qa. split; [by intros ->|]. intros E. unfold Qeq in E. simpl in E. lia. }
  assert (Hb0 : b = 0 <-> (qb == 0)%Q).
  { unfold qb. split; [by intros ->|]. intros E. unfold Qeq in E. simpl in E. lia. }
  assert (Hpos : (0 < qa * u + qb)%Q).
  { destruct (decide (a = 0)) as [Hz|Hz].
    - assert (0 < qb)%Q by (apply inject_nat_pos; lia). nra.
    - assert (0 < qa)%Q by (apply inject_nat_pos; lia). nra. }
  unfold of_nat. fold qa qb. simpl fmul at 2. simpl fadd.
  unfold num at 1 2 3.
  set (xs := Qred (qa * u)). set (xt := Qred (xs + qb)).
  assert (Hxs : (xs == qa * u)%Q) by apply Qred_correct.
  assert (Hxt : (xt == qa * u + qb)%Q) by (unfold xt; rewrite Qred_correct, Hxs; reflexivity).
  assert (Hxt0 : ~ (xt == 0)%Q) by (rewrite Hxt; lra).
  rewrite !fdiv_Num by done. unfold num. simpl fmul. unfold num. rewrite fdiv_Num by done.
  unfold num.
  eexists. split; [reflexivity|].
  set (p := (xs / xt)%Q). set (r := (qb / xt)%Q).
  assert (Hp : (0 <= p)%Q).
  { unfold p. apply Qle_shift_div_l; [rewrite Hxt; lra|]. rewrite Hxs. nra. }
  assert (Hr : (0 <= r)%Q).
  { unfold r. apply Qle_shift_div_l; [rewrite Hxt; lra|]. lra. }
  assert (Hsum : (p + r == 1)%Q).
  { unfold p, r. field_simplify_eq; [|done]. rewrite Hxt, Hxs. ring. }
  assert (Hval : (Qred (Qred p * Qred r) / (1 # 4) == 4 * (p * r))%Q).
  { rewrite !Qred_correct. field. }
  assert (Hpz : (p == 0)%Q <-> a = 0).
  { rewrite Ha0. unfold p. split.
    - intros E. assert (E' : (xs == xs / xt * xt)%Q) by (field; done).
      rewrite E, Qmult_0_l, Hxs in E'.
      destruct (Qmult_integral _ _ E'); [done|lra].
    - intros E. rewrite Hxs, E. field. done. }
  assert (Hrz : (r == 0)%Q <-> b = 0).
  { rewrite Hb0. unfold r. split.
    - intros E. assert (E' : (qb == qb / xt * xt)%Q) by (field; done).
      by rewrite E, Qmult_0_l in E'.
    - intros E. rewrite E. field. done. }
  assert (Heq : (p == r)%Q <-> (qa * u == qb)%Q).
  { unfold p, r. rewrite <- Hxs. split.
    - intros E. assert (E1 : (xs == xs / xt * xt)%Q) by (field; done).
      assert (E2 : (qb == qb / xt * xt)%Q) by (field; done).
      by rewrite E1, E2, E.
    - intros E. by rewrite E. }
  rewrite <- Heq, <- Hpz, <- Hrz.
  clearbody p r. clear -Hp Hr Hsum Hval.
  rewrite Qred_correct, Hval.
  split; [nra|]. split; [by apply four_pq_le_1|]. split.
  - split.
    + intros E. assert (E' : (p * r == 0)%Q) by lra.
      destruct (Qmult_integral _ _ E'); auto.
    + intros [E|E]; rewrite E; ring.
  - assert (E : ((p - r) * (p - r) == (p + r) * (p + r) - 4 * (p * r))%Q) by ring.
    rewrite Hsum in E. split.
    + intros H1. assert (E' : ((p - r) * (p - r) == 0)%Q) by lra.
      destruct (Qmult_integral _ _ E'); lra.
    + intros H1. assert (E' : ((p - r) * (p - r) == 0)%Q) by (rewrite H1; ring). lra.
Qed.

End PurityExtremes.

Section PurityScore.

Lemma mean_in_unit_interval (l : list float64) :
  l <> [] -> Forall (between 0 1) l ->
  exists q, np_mean l = Num q /\ (0 <= q)%Q /\ (q <= 1)%Q /\
            ((q == 0)%Q <-> forall v, v ∈ l -> (rat v == 0)%Q) /\
            ((q == 1)%Q <-> forall v, v ∈ l -> (rat v == 1)%Q).
Proof.
  intros Hne Hl.
  assert (Hnum : Forall is_num l).
  { eapply Forall_impl; [exact Hl|]. by intros [| |q|]. }
  assert (Hlo : Forall (fun q => (0 <= q)%Q) (rat <$> l)).
  { apply Forall_fmap. eapply Forall_impl; [exact Hl|]. intros [| |q|]; simpl; tauto. }
  assert (Hhi : Forall (fun q => (0 <= q)%Q) ((fun v => 1 - rat v)%Q <$> l)).
  { apply Forall_fmap. eapply Forall_impl; [exact Hl|]. intros [| |q|]; simpl; try tauto.
    intros [_ H]. lra. }
  assert (Hcompl : (Qsum ((fun v => 1 - rat v)%Q <$> l)
                    == inject_Z (Z.of_nat (length l)) - Qsum (rat <$> l))%Q).
  { clear. induction l as [|v l IH].
    - change (Qsum _) with 0%Q at 1. change (Qsum (rat <$> [])) with 0%Q. simpl. ring.
    - rewrite !fmap_cons, !Qsum_cons, IH. simpl length.
      rewrite Nat2Z.inj_succ. unfold Z.succ. rewrite inject_Z_plus. ring. }
  destruct (np_mean_spec l Hne Hnum) as (q & Hq & Hqv).
  assert (Hpos : (0 < inject_Z (Z.of_nat (length l)))%Q).
  { apply inject_nat_pos. destruct l; [done|simpl; lia]. }
  pose proof (Qsum_nonneg _ Hlo) as Hs0. pose proof (Qsum_nonneg _ Hhi) as Hs1.
  rewrite Hcompl in Hs1.
  pose proof (Qsum_zero _ Hlo) as Hz0. pose proof (Qsum_zero _ Hhi) as Hz1.
  rewrite Hcompl in Hz1. rewrite Forall_fmap, Forall_forall in Hz0, Hz1.
  set (S := Qsum (rat <$> l)) in *. set (n := inject_Z (Z.of_nat (length l))) in *.
  assert (E : (S == q * n)%Q) by (rewrite Hqv; field; lra).
  exists q. split; [exact Hq|].
  split; [rewrite Hqv; apply Qle_shift_div_l; lra|].
  split; [rewrite Hqv; apply Qle_shift_div_r; lra|]. split.
  - rewrite <- Hz0. split; intros H.
    + rewrite E, H. ring.
    + rewrite Hqv, H. field. lra.
  - etrans; [|etrans; [exact Hz1|]].
    + split; intros H.
      * rewrite E, H. ring.
      * rewrite Hqv. assert (S == n)%Q as -> by lra. field. lra.
    + split; intros H v Hv; specialize (H v Hv); simpl in *; lra.
Qed.

(** X15. For a binary target with both labels present,
    [compute_balanced_average_purity] returns a number that is never
    negative, and it is 0 exactly when every cluster holds one class only:
    a single cluster that mixes the two classes makes the score
    positive. *)
Theorem balanced_purity_is_0_exactly_on_pure_clusters (y : list float64)
    (labels : list nat) :
  binary y -> length y = length labels ->
  0 < count_equal (Num 0) y -> 0 < count_equal (Num 1) y ->
  exists q,
    compute_balanced_average_purity y labels = Ok (Num q) /\
    (0 <= q)%Q /\
    ((q == 0)%Q <->
     forall c, c ∈ labels ->
       count_equal (Num 0) (masked y labels c) = 0 \/
       count_equal (Num 1) (masked y labels c) = 0).
Proof.
  intros Hbin Hlen H0 H1.
  set (n0 := count_equal (Num 0) y) in *. set (n1 := count_equal (Num 1) y) in *.
  pose proof (inject_nat_pos n0 H0) as Hq0. pose proof (inject_nat_pos n1 H1) as Hq1.
  assert (Hup : exists small large u,
            up_scaling n0 n1 = (small, large, Num u) /\ (0 < u)%Q /\
            forall c, c ∈ labels ->
              0 < count_equal small (masked y labels c)
                  + count_equal large (masked y labels c) /\
              (count_equal small (masked y labels c) = 0 \/
               count_equal large (masked y labels c) = 0 <->
               count_equal (Num 0) (masked y labels c) = 0 \/
               count_equal (Num 1) (masked y labels c) = 0) /\
              ((inject_Z (Z.of_nat (count_equal small (masked y labels c))) * u
                == inject_Z (Z.of_nat (count_equal large (masked y labels c))))%Q <->
               count_equal (Num 0) (masked y labels c) * n1
               = count_equal (Num 1) (masked y labels c) * n0)).
  { assert (Hcounts : forall c, c ∈ labels ->
              0 < count_equal (Num 0) (masked y labels c)
                  + count_equal (Num 1) (masked y labels c)).
    { intros c Hc. pose proof (binary_counts _ (masked_binary y labels c Hbin)) as Hsum.
      pose proof (masked_nonempty y labels c Hlen Hc). lia. }
    assert (Hcross : forall a b m k : nat, 0 < k ->
              (inject_Z (Z.of_nat a) * (inject_Z (Z.of_nat m) / inject_Z (Z.of_nat k))
               == inject_Z (Z.of_nat b))%Q <-> a * m = b * k).
    { intros a b m k Hk. pose proof (inject_nat_pos k Hk) as Hkq.
      assert (E : (inject_Z (Z.of_nat a) * inject_Z (Z.of_nat m)
                   == inject_Z (Z.of_nat b) * inject_Z (Z.of_nat k))%Q <-> a * m = b * k).
      { rewrite <- !inject_Z_mult, <- !Nat2Z.inj_mul. split.
        - intros H. unfold Qeq in H. simpl in H. lia.
        - by intros ->. }
      rewrite <- E. split; intros H.
      - rewrite <- H. field. lra.
      - rewrite <- (Qmult_inj_r _ _ (inject_Z (Z.of_nat k))) by lra.
        rewrite <- H. field. lra. }
    unfold up_scaling, of_nat. destruct (decide (n0 <= n1)).
    - exists (Num 0), (Num 1). eexists. rewrite fdiv_Num by lra.
      split; [reflexivity|]. rewrite Qred_correct.
      split; [apply Qlt_shift_div_l; lra|].
      intros c Hc. split; [by apply Hcounts|]. split; [done|].
      rewrite Qred_correct. by apply Hcross.
    - exists (Num 1), (Num 0). eexists. rewrite fdiv_Num by lra.
      split; [reflexivity|]. rewrite Qred_correct.
      split; [apply Qlt_shift_div_l; lra|].
      intros c Hc. split; [specialize (Hcounts c Hc); lia|]. split; [tauto|].
      rewrite Qred_correct, (Hcross _ _ n0 n1 H1). split; intros H; lia. }
  destruct Hup as (small & large & u & Hup & Hu & Hc).
  set (ps := (fun c => normalized_balanced_purity small large (Num u) (masked y labels c))
               <$> np_unique labels).
  assert (Hps : balanced_purities y labels = Ok ps).
  { unfold balanced_purities. fold n0 n1. rewrite Hup.
    apply (mapR_Ok_intro _ (fun cluster =>
      normalized_balanced_purity small large (Num u) (masked y labels cluster))).
    intros c _. by rewrite mask_select_Ok. }
  assert (Hval : forall c, c ∈ labels ->
            exists q, normalized_balanced_purity small large (Num u) (masked y labels c) = Num q /\
              (0 <= q)%Q /\ (q <= 1)%Q /\
              ((q == 0)%Q <-> count_equal (Num 0) (masked y labels c) = 0 \/
                              count_equal (Num 1) (masked y labels c) = 0) /\
              ((q == 1)%Q <-> count_equal (Num 0) (masked y labels c) * n1
                              = count_equal (Num 1) (masked y labels c) * n0)).
  { intros c Hin. destruct (Hc c Hin) as (Hpos & Hz & Ho).
    destruct (purity_value small large u (masked y labels c) Hu Hpos)
      as (q & Hq & Hlo & Hhi & Hzero & Hone).
    exists q. split; [done|]. split; [done|]. split; [done|].
    split; [by rewrite Hzero|by rewrite Hone]. }
  assert (Hne : ps <> []).
  { unfold ps. destruct y as [|v y]; [done|]. destruct labels as [|c labels]; [done|].
    assert (c ∈ np_unique (c :: labels)) as Hin by (apply elem_of_np_unique; by left).
    destruct (np_unique (c :: labels)); [by apply elem_of_nil in Hin|done]. }
  assert (Hunit : Forall (between 0 1) ps).
  { apply Forall_fmap, Forall_forall. intros c Hin. rewrite elem_of_np_unique in Hin.
    simpl. destruct (Hval c Hin) as (q & -> & ? & ? & _). by split. }
  destruct (mean_in_unit_interval ps Hne Hunit) as (q & Hq & Hlo & Hhi & Hzero & Hone).
  exists q. split.
  { unfold compute_balanced_average_purity. destruct y as [|v y]; [done|].
    rewrite Hps. simpl. by rewrite Hq. }
  split; [done|].
  rewrite Hzero. split.
  - intros H c Hin. destruct (Hval c Hin) as (qc & Hqc & _ & _ & Hz & _).
    apply Hz. rewrite <- (H (Num qc)); [done|].
    rewrite <- Hqc. apply list_elem_of_fmap. exists c. split; [done|].
    by apply elem_of_np_unique.
  - intros H v [c [-> Hin]]%list_elem_of_fmap. rewrite elem_of_np_unique in Hin.
    destruct (Hval c Hin) as (qc & -> & _ & _ & Hz & _). simpl. by apply Hz, H.
Qed.

End PurityScore.

Section FlipFacts.

Lemma feq_refl x : feq x x.
Proof. destruct x; simpl; done. Qed.

Lemma feq_sym x y : feq x y -> feq y x.
Proof. destruct x, y; simpl; first [done | by intros ->]. Qed.

Lemma feq_num a b : (a == b)%Q -> feq (num a) (Num b).
Proof. intros H. simpl. by rewrite Qred_correct. Qed.

Lemma Qcompare_0_comp (a b : Q) : (a == b)%Q -> (a ?= 0)%Q = (b ?= 0)%Q.
Proof. intros H. by rewrite H. Qed.

Lemma signed_inf_comp (a b : Q) p n :
  (a == b)%Q -> signed_inf (a ?= 0)%Q p n = signed_inf (b ?= 0)%Q p n.
Proof. intros H. by rewrite (Qcompare_0_comp a b H). Qed.

(** The operations give the same result on equal arguments: results are
    kept in lowest terms. *)
Lemma fadd_feq x x' y y' : feq x x' -> feq y y' -> fadd x y = fadd x' y'.
Proof.
  destruct x, x', y, y'; simpl; try done.
  intros H1 H2. apply num_eq. by rewrite H1, H2.
Qed.

Lemma fmul_feq x x' y y' : feq x x' -> feq y y' -> fmul x y = fmul x' y'.
Proof.
  destruct x, x', y, y'; simpl; try done; intros H1 H2;
    try (by apply signed_inf_comp).
  apply num_eq. by rewrite H1, H2.
Qed.

Lemma fdiv_feq x x' y y' : feq x x' -> feq y y' -> fdiv x y = fdiv x' y'.
Proof.
  destruct x, x', y, y'; simpl; try done; intros H1 H2;
    rewrite ?(Qcompare_0_comp _ _ H1), ?(Qcompare_0_comp _ _ H2); try done.
  destruct (_ ?= 0)%Q; [done|..]; apply num_eq; by rewrite H1, H2.
Qed.

Lemma fadd_comm x y : fadd x y = fadd y x.
Proof. destruct x, y; simpl; try done. apply num_eq. ring. Qed.

Lemma fmul_comm x y : fmul x y = fmul y x.
Proof. destruct x, y; simpl; try done. apply num_eq. ring. Qed.

Lemma feqb_flip_0 v : feqb (fsub (Num 1) v) (Num 0) = feqb v (Num 1).
Proof.
  destruct v as [| |q|]; try done. simpl.
  apply eq_true_iff_eq. rewrite !Qeq_bool_iff, !Qred_correct. split; intros H; lra.
Qed.

Lemma feqb_flip_1 v : feqb (fsub (Num 1) v) (Num 1) = feqb v (Num 0).
Proof.
  destruct v as [| |q|]; try done. simpl.
  apply eq_true_iff_eq. rewrite !Qeq_bool_iff, !Qred_correct. split; intros H; lra.
Qed.

Lemma count_equal_flip_0 (l : list float64) :
  count_equal (Num 0) (fsub (Num 1) <$> l) = count_equal (Num 1) l.
Proof.
  unfold count_equal. induction l as [|v l IH]; [done|].
  rewrite fmap_cons, !filter_cons, feqb_flip_0.
  destruct (decide (feqb v (Num 1) = true)); simpl; by rewrite IH.
Qed.

Lemma count_equal_flip_1 (l : list float64) :
  count_equal (Num 1) (fsub (Num 1) <$> l) = count_equal (Num 0) l.
Proof.
  unfold count_equal. induction l as [|v l IH]; [done|].
  rewrite fmap_cons, !filter_cons, feqb_flip_1.
  destruct (decide (feqb v (Num 0) = true)); simpl; by rewrite IH.
Qed.

Lemma masked_fmap (f : float64 -> float64) y labels c :
  masked (f <$> y) labels c = f <$> masked y labels c.
Proof.
  unfold masked. revert labels. induction y as [|v y IH]; intros [|l labels]; try done.
  simpl. rewrite !filter_cons. simpl. destruct (decide (l = c)); simpl; by rewrite IH.
Qed.

(** The value of a cluster depends on the two counts only; swapping the
    roles of the labels together with the counts leaves it as it is when
    the factor is 1 or undefined. *)
Lemma purity_swap (a b n : nat) (s l s' l' : float64) (yc yc' : list float64) :
  count_equal s yc = a -> count_equal l yc = b ->
  count_equal s' yc' = b -> count_equal l' yc' = a ->
  normalized_balanced_purity s l (fdiv (of_nat n) (of_nat n)) yc
  = normalized_balanced_purity s' l' (fdiv (of_nat n) (of_nat n)) yc'.
Proof.
  intros Ha Hb Hb' Ha'. unfold normalized_balanced_purity. rewrite Ha, Hb, Hb', Ha'.
  destruct n as [|n]; [reflexivity|].
  assert (Hu : fdiv (of_nat (S n)) (of_nat (S n)) = Num 1).
  { unfold of_nat. pose proof (inject_nat_pos (S n) ltac:(lia)).
    rewrite fdiv_Num by lra. apply num_one. field. lra. }
  rewrite Hu.
  assert (E1 : forall k, feq (fmul (of_nat k) (Num 1)) (of_nat k)).
  { intros k. apply feq_num. ring. }
  set (xa := fmul (of_nat a) (Num 1)). set (xb := fmul (of_nat b) (Num 1)).
  assert (Et : fadd xa (of_nat b) = fadd xb (of_nat a)).
  { rewrite (fadd_comm xb). apply fadd_feq; [apply E1|apply feq_sym, E1]. }
  rewrite Et. f_equal. rewrite fmul_comm. f_equal.
  - apply fdiv_feq; [apply feq_sym, E1|apply feq_refl].
  - apply fdiv_feq; [apply E1|apply feq_refl].
Qed.

End FlipFacts.

Section LabelFlip.

Lemma mapR_ext {A B} (f g : A -> res B) l :
  (forall x, f x = g x) -> mapR f l = mapR g l.
Proof. intros H. induction l as [|x l IH]; [done|]. simpl. by rewrite H, IH. Qed.

(** X16. [compute_balanced_average_purity] does not depend on which class
    is called 0 and which 1: on the target [1 - y] it returns what it
    returns on [y], whether that is a score, [nan] or an exception. *)
Theorem balanced_purity_ignores_the_names_of_the_classes (y : list float64)
    (labels : list nat) :
  compute_balanced_average_purity (fsub (Num 1) <$> y) labels
  = compute_balanced_average_purity y labels.
Proof.
  unfold compute_balanced_average_purity. destruct y as [|v y]; [done|].
  rewrite fmap_cons. cbv iota. rewrite <- fmap_cons.
  set (y' := v :: y). clearbody y'. clear v y.
  assert (E : balanced_purities (fsub (Num 1) <$> y') labels = balanced_purities y' labels);
    [|by rewrite E].
  unfold balanced_purities. rewrite count_equal_flip_0, count_equal_flip_1.
  set (n0 := count_equal (Num 0) y'). set (n1 := count_equal (Num 1) y').
  assert (Hsel : forall c,
            mask_select (fsub (Num 1) <$> y') labels c
            = match mask_select y' labels c with
              | Ok m => Ok (fsub (Num 1) <$> m)
              | Raise e => Raise e
              end).
  { intros c. unfold mask_select. rewrite length_fmap.
    destruct (decide (length y' = length labels)); [|done].
    f_equal. apply (masked_fmap (fsub (Num 1))). }
  unfold up_scaling.
  destruct (decide (n1 <= n0)) as [H10|H10], (decide (n0 <= n1)) as [H01|H01];
    try lia; apply mapR_ext; intros c; rewrite Hsel;
    destruct (mask_select y' labels c) as [m|e]; try done; simpl; f_equal.
  - assert (n0 = n1) as -> by lia.
    apply (purity_swap (count_equal (Num 1) m) (count_equal (Num 0) m)).
    + apply count_equal_flip_0.
    + apply count_equal_flip_1.
    + done.
    + done.
  - unfold normalized_balanced_purity. by rewrite count_equal_flip_0, count_equal_flip_1.
  - unfold normalized_balanced_purity. by rewrite count_equal_flip_0, count_equal_flip_1.
Qed.

End LabelFlip.

Section BootstrapSample.
Context {G : Type} {RS : RandomState G}.
Implicit Types w : world G.

(** X17. [bootstrap_matrix] on a square [n] by [n] array draws exactly one
    sample of size [n] from the global generator and prints nothing; the
    mapping it returns is that sample, position by position. Every entry of
    the new array is an entry of the old one, and when the old array has a
    zero diagonal, two positions that stand for the same original sample
    are at distance 0 in the new one; in particular its diagonal is zero. *)
Theorem bootstrap_matrix_puts_copies_at_distance_0 dm w (a : ndarray) (n : nat) :
  heap w !! dm = Some a -> square n a ->
  exists l b w',
    bootstrap_matrix dm w = (Ok (l, map_seq 0 (choice (np_random w) n).1), w') /\
    heap w' !! l = Some b /\
    np_random w' = next_generator n (np_random w) /\
    stdout w' = stdout w /\
    (forall p q v, entry b p q = Some v -> exists i j, entry a i j = Some v) /\
    ((forall i, i < n -> entry a i i = Some (Num 0)) ->
     forall p q i,
       (choice (np_random w) n).1 !! p = Some i ->
       (choice (np_random w) n).1 !! q = Some i ->
       entry b p q = Some (Num 0)).
Proof.
  intros Hdm Hsq.
  assert (Hn : length a = n) by apply Hsq.
  set (s := (choice (np_random w) n).1).
  assert (Hlen : length s = n) by (unfold s; by rewrite choice_length).
  assert (Hrange : forall i, i ∈ s -> i < n).
  { intros i Hi. by apply choice_range in Hi. }
  destruct (take_cols_is_Ok n a s Hsq Hrange) as [cols Hcols].
  destruct (take_rows_is_Ok cols s) as [b Hrows].
  { intros i Hi. rewrite (take_cols_length _ _ _ Hcols), Hn. by apply Hrange. }
  pose proof (bootstrap_matrix_run dm w a cols b Hdm) as Hrun. simpl in Hrun.
  rewrite Hn in Hrun. fold s in Hrun. specialize (Hrun Hcols Hrows).
  eexists _, b, _. split; [exact Hrun|].
  split; [apply lookup_insert_eq|]. split; [done|]. split; [done|]. split.
  - intros p q v. rewrite (resample_entry a s cols b p q Hcols Hrows).
    destruct (s !! p) as [i|]; [|done]. simpl. destruct (s !! q) as [j|]; [|done]. simpl.
    intros Hv. by exists i, j.
  - intros Hdiag p q i Hp Hq. rewrite (resample_entry a s cols b p q Hcols Hrows).
    rewrite Hp. simpl. rewrite Hq. simpl. apply Hdiag, Hrange.
    by eapply list_elem_of_lookup_2.
Qed.

End BootstrapSample.

Section LengthMismatch.

(** X18. Both quality scores need one cluster label per target value: when
    the two lengths differ and there is at least one label, the Boolean
    mask of the first cluster does not fit the target and the call raises
    [IndexError]. *)
Theorem quality_scores_need_one_label_per_value (y : list float64) (labels : list nat) :
  length y <> length labels -> labels <> [] ->
  compute_total_within_cluster_variation y labels = Raise IndexError /\
  (y <> [] -> compute_balanced_average_purity y labels = Raise IndexError).
Proof.
  intros Hlen Hne.
  assert (Hsel : forall c, mask_select y labels c = Raise IndexError).
  { intros c. unfold mask_select. by rewrite decide_False. }
  assert (Hu : exists c cs, np_unique labels = c :: cs).
  { destruct labels as [|c labels]; [done|].
    assert (c ∈ np_unique (c :: labels)) as Hin by (apply elem_of_np_unique; by left).
    destruct (np_unique (c :: labels)) as [|c' cs]; [by apply elem_of_nil in Hin|eauto]. }
  destruct Hu as (c & cs & Hu). split.
  - unfold compute_total_within_cluster_variation. rewrite Hu. simpl. by rewrite Hsel.
  - intros Hy. unfold compute_balanced_average_purity. destruct y as [|v y]; [done|].
    unfold balanced_purities.
    destruct (up_scaling _ _) as [[small large] u]. rewrite Hu. simpl. by rewrite Hsel.
Qed.

End LengthMismatch.

Section FurtherWitnesses.

#[local] Abbreviation cluster_in_two := (KMedoids_fit_labels 2 42%Z 300).

Lemma square_two_pairs : square 4 two_pairs.
Proof. split; [reflexivity|repeat constructor]. Qed.

(** With the identity draw every round of [two_pairs] reproduces both
    clusters. *)
Lemma identity_rounds_of_two_pairs (i : nat) :
  i < 2 ->
  bootstrap_index_sets cluster_in_two two_pairs
    (Nat.iter i (next_generator 4) (np_random (world0 1 0 two_pairs)))
  = Ok {[ 0 := IdxList [0; 1]; 1 := IdxList [2; 3] ]}.
Proof. intros Hi. destruct i as [|[|i]]; [vm_compute; reflexivity..|lia]. Qed.

Lemma identity_rounds_have_all_clusters (i : nat) :
  i < 2 ->
  exists ib,
    bootstrap_index_sets cluster_in_two two_pairs
      (Nat.iter i (next_generator 4) (np_random (world0 1 0 two_pairs))) = Ok ib /\
    forall c, c ∈ np_unique [0; 0; 1; 1] -> is_Some (ib !! c).
Proof.
  intros Hi. eexists. split; [by apply identity_rounds_of_two_pairs|].
  intros c Hc. vm_compute in Hc.
  apply elem_of_cons in Hc as [->|Hc]; [vm_compute; eauto|].
  apply elem_of_cons in Hc as [->|Hc]; [vm_compute; eauto|].
  by apply elem_of_nil in Hc.
Qed.

Lemma greedy_matching_is_one_to_one_witness :
  let labels := [0; 0; 1; 1] in
  let io : gmap nat indices := {[ 0 := IdxSet {[ 0; 1 ]}; 1 := IdxSet {[ 2; 3 ]} ]} in
  let ib : gmap nat indices := {[ 0 := IdxList [2; 2]; 1 := IdxList [0; 1] ]} in
  let ipc : gmap nat float64 := {[ 0 := Num 0; 1 := Num 0 ]} in
  let w := world0 1 0 two_pairs in
  _translate_cluster_labels_to_dictionary_of_index_sets_per_cluster labels None = Ok io /\
  exists jm w1 picks ipc' w2,
    _compute_jaccard_matrix (np_unique labels) ib io w = (Ok jm, w1) /\
    greedy_matching jm (np_unique labels) ipc w1 = (Ok ipc', w2) /\
    length picks = 2 /\
    pick_rows picks ≡ₚ [0; 1] /\ pick_cols picks ≡ₚ [0; 1].
Proof.
  intros labels io ib ipc w.
  assert (Hio : _translate_cluster_labels_to_dictionary_of_index_sets_per_cluster
                  labels None = Ok io) by (vm_compute; reflexivity).
  split; [exact Hio|].
  destruct (greedy_matching_is_one_to_one labels ib io ipc w Hio)
    as (jm & J & w1 & picks & a' & ipc' & w2 & Hjac & _ & _ & Hgreedy & _ & _ & Hlen & _
        & Hrows & Hcols & _).
  - intros c Hc. vm_compute in Hc.
    apply elem_of_cons in Hc as [->|Hc]; [vm_compute; eauto|].
    apply elem_of_cons in Hc as [->|Hc]; [vm_compute; eauto|].
    by apply elem_of_nil in Hc.
  - intros c Hc. vm_compute in Hc.
    apply elem_of_cons in Hc as [->|Hc]; [vm_compute; eauto|].
    apply elem_of_cons in Hc as [->|Hc]; [vm_compute; eauto|].
    by apply elem_of_nil in Hc.
  - exists jm, w1, picks, ipc', w2. auto.
Defined.

Lemma forest_guided_clustering_validates_inputs_witness :
  let tree := {| type_str := "<class 'sklearn.tree._classes.DecisionTreeClassifier'>";
                 apply := apply two_pairs_forest |} in
  let w : world (nat * nat) := World ∅ (1, 0) SeedFunction [] in
  (exists msg,
     forest_guided_clustering tree two_pairs_table "target" "out.png" 6 (Num (1 # 20))
       42%Z 1 300 None w = (Raise (ValueError msg), w)) /\
  (exists kind,
     forest_guided_clustering two_pairs_forest two_pairs_table "label" "out.png" 6
       (Num (1 # 20)) 42%Z 1 300 None w
     = (Raise (KeyErrorStr "label"),
        World (heap w) (np_random w) (np_random_seed w)
          (stdout w ++ [PrintInterpreting kind]))).
Proof.
  intros tree w. split.
  - apply (forest_guided_clustering_validates_inputs tree two_pairs_table "target"
             "out.png" 6 (Num (1 # 20)) 42%Z 1 300 None w); reflexivity.
  - destruct (forest_guided_clustering_validates_inputs two_pairs_forest two_pairs_table
                "label" "out.png" 6 (Num (1 # 20)) 42%Z 1 300 None w) as [_ Hcol].
    destruct Hcol as (kind & Hrun & _).
    + right. reflexivity.
    + intros Hin. repeat (apply elem_of_cons in Hin as [Hin|Hin]; [discriminate|]).
      by apply elem_of_nil in Hin.
    + exists kind. exact Hrun.
Defined.

Lemma forest_guided_clustering_fixed_k_skips_search_witness :
  let w : world (nat * nat) := World ∅ (1, 0) SeedFunction [] in
  let run := forest_guided_clustering two_pairs_forest two_pairs_table "target" "out.png"
               6 (Num (1 # 20)) 42%Z 1 300 (Some 3) w in
  exists kind,
    stdout run.2 = stdout w ++ [PrintInterpreting kind; SaveFigure 3 "out.png"] /\
    np_random run.2 = np_random w /\
    np_random_seed run.2 = np_random_seed w /\
    heap w ⊆ heap run.2.
Proof.
  intros w run.
  apply (forest_guided_clustering_fixed_k_skips_search two_pairs_forest two_pairs_table
           "target" "out.png" 6 (Num (1 # 20)) 42%Z 1 300 3
           [Num 0; Num 0; Num 1; Num 1] w).
  - right. reflexivity.
  - reflexivity.
  - simpl. lia.
Defined.

Lemma optimizeK_unknown_method_selects_nothing_witness :
  let y := [Num 0; Num 0; Num 1; Num 1] in
  let w := world0 1 0 two_pairs in
  let strict := optimizeK 0 [] y 5 42%Z (Num 1) 1 300 "kmeans" w in
  (optimizeK 0 [] y 5 42%Z (Num (3 # 5)) 1 300 "kmeans" w).1
  = Raise (UnboundLocalError "score") /\
  strict.1 = Ok 1 /\
  evaluated_candidates (stdout strict.2) = [2; 3; 4] /\
  scored_candidates (stdout strict.2) = [].
Proof.
  intros y w strict.
  destruct (optimizeK_unknown_method_selects_nothing 0 [] y 5 42%Z (Num (3 # 5)) 1 300
              "kmeans" w) as [_ Hraise]; [discriminate..|].
  destruct (optimizeK_unknown_method_selects_nothing 0 [] y 5 42%Z (Num 1) 1 300
              "kmeans" w) as [Hreturn _]; [discriminate..|].
  set (r := compute_stability_indices 0 cluster_in_two 1 42%Z w).
  split.
  - rewrite (Hraise {[ 0 := Num 1; 1 := Num 1 ]} r.2 (Num 1)).
    + reflexivity.
    + lia.
    + vm_compute. reflexivity.
    + vm_compute. reflexivity.
    + reflexivity.
  - assert (Hrun : optimizeK 0 [] y 5 42%Z (Num 1) 1 300 "kmeans" w = (Ok 1, strict.2))
      by (vm_compute; reflexivity).
    destruct (Hreturn 1 strict.2 Hrun) as (_ & Heval & Hscored).
    split; [exact (f_equal fst Hrun)|]. split; [exact Heval|exact Hscored].
Defined.

Lemma stability_scores_lie_between_0_and_1_witness :
  let w := world0 1 0 two_pairs in
  exists table w',
    compute_stability_indices 0 cluster_in_two 2 42%Z w = (Ok table, w') /\
    (forall c, is_Some (table !! c) <-> c ∈ np_unique [0; 0; 1; 1]) /\
    (forall c v, table !! c = Some v -> between 0 1 v).
Proof.
  intros w.
  apply (stability_scores_lie_between_0_and_1 0 cluster_in_two 2 42%Z w two_pairs
           [0; 0; 1; 1] 4).
  - vm_compute. reflexivity.
  - exact square_two_pairs.
  - reflexivity.
  - lia.
  - exact identity_rounds_have_all_clusters.
Defined.

Lemma reproduced_cluster_scores_1_witness :
  let w := world0 1 0 two_pairs in
  exists table w',
    compute_stability_indices 0 cluster_in_two 2 42%Z w = (Ok table, w') /\
    table !! 0 = Some (Num 1).
Proof.
  intros w.
  apply (reproduced_cluster_scores_1 0 cluster_in_two 2 42%Z w two_pairs [0; 0; 1; 1] 4 0).
  - vm_compute. reflexivity.
  - exact square_two_pairs.
  - reflexivity.
  - lia.
  - exact identity_rounds_have_all_clusters.
  - vm_compute. by left.
  - intros i ib bc Hi Hib Hbc.
    assert (E : Ok {[ 0 := IdxList [0; 1]; 1 := IdxList [2; 3] ]} = Ok ib).
    { etrans; [symmetry; exact (identity_rounds_of_two_pairs i Hi)|exact Hib]. }
    injection E as <-. vm_compute in Hbc. injection Hbc as <-.
    vm_compute. reflexivity.
Defined.

Lemma compute_stability_indices_draws_one_sample_per_round_witness :
  let w := world0 1 0 two_pairs in
  exists table w',
    compute_stability_indices 0 cluster_in_two 2 42%Z w = (Ok table, w') /\
    np_random w' = Nat.iter 2 (next_generator 4) (np_random w) /\
    stdout w' = stdout w /\
    heap w ⊆ heap w'.
Proof.
  intros w.
  apply (compute_stability_indices_draws_one_sample_per_round 0 cluster_in_two 2 42%Z w
           two_pairs [0; 0; 1; 1] 4).
  - vm_compute. reflexivity.
  - exact square_two_pairs.
  - reflexivity.
  - lia.
  - exact identity_rounds_have_all_clusters.
Defined.

Lemma non_square_matrix_is_refused_witness :
  let d : ndarray := [[Num 0; Num 1; Num 1]; [Num 1; Num 0; Num 1]] in
  let w := world0 1 0 d in
  compute_stability_indices 0 cluster_in_two 1 42%Z w
    = (Raise (AssertionError "error distance matrix is not square"), w) /\
  optimizeK 0 [] [Num 0; Num 1] 3 42%Z (Num (3 # 5)) 1 300 "clustering" w
    = (Raise (AssertionError "error distance matrix is not square"), w).
Proof.
  intros d w.
  destruct (non_square_matrix_is_refused 0 cluster_in_two 1 42%Z [] [Num 0; Num 1] 3 42%Z
              (Num (3 # 5)) 300 "clustering" w d) as [Hstab Hopt].
  - vm_compute. reflexivity.
  - simpl. lia.
  - split; [exact Hstab|].
    destruct Hopt as [Hassert _]; [lia|]. apply (Hassert [0; 1]). reflexivity.
Defined.

Lemma bootstrap_index_sets_hold_the_drawn_samples_witness :
  exists ib,
    _translate_cluster_labels_to_dictionary_of_index_sets_per_cluster
      [0; 0; 1] (Some (map_seq 0 [2; 2; 0])) = Ok ib /\
    (forall c, is_Some (ib !! c) <-> c ∈ [0; 0; 1]) /\
    (forall c, c ∈ [0; 0; 1] ->
       exists l, ib !! c = Some (IdxList l) /\
                 forall x, x ∈ as_set (IdxList l) <->
                           exists i, [0; 0; 1] !! i = Some c /\ [2; 2; 0] !! i = Some x).
Proof.
  apply (bootstrap_index_sets_hold_the_drawn_samples [0; 0; 1] [2; 2; 0]). simpl. lia.
Defined.

Lemma jaccard_matrix_entries_witness :
  let io : gmap nat indices := {[ 0 := IdxSet {[ 0; 1 ]}; 1 := IdxSet {[ 2; 3 ]} ]} in
  let ib : gmap nat indices := {[ 0 := IdxList [2; 2]; 1 := IdxList [0; 1] ]} in
  let w := world0 1 0 two_pairs in
  exists J,
    _compute_jaccard_matrix [0; 1] ib io w
      = (Ok (fresh (dom (heap w))), with_heap (<[fresh (dom (heap w)) := J]> (heap w)) w) /\
    square 2 J /\
    exists q, entry J 0 1 = Some (Num q) /\ (q == 1)%Q.
Proof.
  intros io ib w.
  destruct (jaccard_matrix_entries [0; 1] ib io w) as (J & Hrun & Hsq & Hent).
  - intros c Hc.
    apply elem_of_cons in Hc as [->|Hc];
      [exists {[ 0; 1 ]}; split; [reflexivity|vm_compute; discriminate]|].
    apply elem_of_cons in Hc as [->|Hc];
      [exists {[ 2; 3 ]}; split; [reflexivity|vm_compute; discriminate]|].
    by apply elem_of_nil in Hc.
  - intros c Hc.
    apply elem_of_cons in Hc as [->|Hc]; [vm_compute; eauto|].
    apply elem_of_cons in Hc as [->|Hc]; [vm_compute; eauto|].
    by apply elem_of_nil in Hc.
  - exists J. split; [exact Hrun|]. split; [exact Hsq|].
    destruct (Hent 0 1 0 1 {[ 0; 1 ]} (IdxList [0; 1]))
      as (q & Hq & _ & _ & _ & Hone & _); [reflexivity..|].
    exists q. split; [exact Hq|]. apply Hone. vm_compute. reflexivity.
Defined.


Lemma candidate_is_scored_iff_every_cluster_is_stable_witness :
  let y := [Num 0; Num 0; Num 1; Num 1] in
  let w := world0 1 0 two_pairs in
  let run := optimizeK 0 [] y 5 42%Z (Num (3 # 5)) 2 300 "clustering" w in
  exists outcomes : list candidate_outcome,
    cand_k <$> outcomes = seq 2 (5 - 2) /\
    stdout run.2 = stdout w ++ concat (outcome_events <$> outcomes) /\
    forall o, o ∈ outcomes ->
      exists table w0 w1,
        heap w0 !! 0 = Some two_pairs /\
        compute_stability_indices 0 (KMedoids_fit_labels (cand_k o) 42%Z 300) 2 42%Z w0
          = (Ok table, w1) /\
        (exists c, table !! c = Some (cand_min_index o)) /\
        (forall c v, table !! c = Some v -> fle (cand_min_index o) v = true) /\
        (is_Some (cand_score o) <->
         forall c v, table !! c = Some v -> flt (Num (3 # 5)) v = true).
Proof.
  intros y w run.
  assert (Hrun : optimizeK 0 [] y 5 42%Z (Num (3 # 5)) 2 300 "clustering" w = (Ok 2, run.2))
    by (vm_compute; reflexivity).
  apply (candidate_is_scored_iff_every_cluster_is_stable 0 [] y 5 42%Z (Num (3 # 5)) 2 300
           "clustering" w 2 run.2 two_pairs 4).
  - vm_compute. reflexivity.
  - exact square_two_pairs.
  - exact Hrun.
Defined.

Lemma within_cluster_variation_is_never_negative_witness :
  let y := [Num 1; Num 3; Num 5; Num 5] in
  let labels := [0; 1; 2; 3] in
  exists s,
    compute_total_within_cluster_variation y labels = Ok s /\
    flt s (Num 0) = false /\ feqb s (Num 0) = true.
Proof.
  intros y labels.
  destruct (within_cluster_variation_is_never_negative y labels) as (s & Hs & Hnn & Hzero).
  - repeat constructor.
  - reflexivity.
  - exists s. split; [exact Hs|]. split; [exact Hnn|]. apply Hzero.
    repeat (apply NoDup_cons_2; [vm_compute; intros Hin;
      repeat (apply elem_of_cons in Hin as [Hin|Hin]; [discriminate|]);
      by apply elem_of_nil in Hin|]).
    apply NoDup_nil_2.
Defined.

Lemma balanced_purity_is_0_exactly_on_pure_clusters_witness :
  let y := [Num 0; Num 0; Num 1; Num 1] in
  let labels := [0; 0; 1; 1] in
  exists q,
    compute_balanced_average_purity y labels = Ok (Num q) /\
    (0 <= q)%Q /\ (q == 0)%Q.
Proof.
  intros y labels.
  destruct (balanced_purity_is_0_exactly_on_pure_clusters y labels)
    as (q & Hq & Hlo & Hzero).
  - repeat (apply Forall_cons; split;
              [first [left; reflexivity | right; reflexivity]|]).
    apply Forall_nil. exact I.
  - reflexivity.
  - vm_compute. lia.
  - vm_compute. lia.
  - exists q. split; [exact Hq|]. split; [exact Hlo|].
    apply Hzero. intros c Hc.
    apply elem_of_cons in Hc as [->|Hc]; [right; vm_compute; reflexivity|].
    apply elem_of_cons in Hc as [->|Hc]; [right; vm_compute; reflexivity|].
    apply elem_of_cons in Hc as [->|Hc]; [left; vm_compute; reflexivity|].
    apply elem_of_cons in Hc as [->|Hc]; [left; vm_compute; reflexivity|].
    by apply elem_of_nil in Hc.
Defined.

Lemma bootstrap_matrix_puts_copies_at_distance_0_witness :
  let w := world0 2 0 two_pairs in
  (choice (np_random w) 4).1 = [0; 2; 0; 2] /\
  exists l b w',
    bootstrap_matrix 0 w = (Ok (l, map_seq 0 (choice (np_random w) 4).1), w') /\
    heap w' !! l = Some b /\
    np_random w' = next_generator 4 (np_random w) /\
    entry b 0 2 = Some (Num 0).
Proof.
  intros w. split; [vm_compute; reflexivity|].
  destruct (bootstrap_matrix_puts_copies_at_distance_0 0 w two_pairs 4)
    as (l & b & w' & Hrun & Hl & Hg & _ & _ & Hcopies).
  - vm_compute. reflexivity.
  - exact square_two_pairs.
  - exists l, b, w'. split; [exact Hrun|]. split; [exact Hl|]. split; [exact Hg|].
    apply (Hcopies ltac:(intros [|[|[|[|i]]]] Hi; [reflexivity..|lia]) 0 2 0);
      vm_compute; reflexivity.
Defined.

Lemma quality_scores_need_one_label_per_value_witness :
  compute_total_within_cluster_variation [Num 0] [0; 1] = Raise IndexError /\
  compute_balanced_average_purity [Num 0] [0; 1] = Raise IndexError.
Proof.
  destruct (quality_scores_need_one_label_per_value [Num 0] [0; 1]) as [Hvar Hpur].
  - simpl. lia.
  - discriminate.
  - split; [exact Hvar|]. apply Hpur. discriminate.
Defined.

Lemma forest_guided_clustering_searches_on_a_distance_matrix_witness :
  let w : world (nat * nat) := World ∅ (1, 0) SeedFunction [] in
  let y := [Num 0; Num 0; Num 1; Num 1] in
  let X := to_numpy (length y) (drop_column two_pairs_table "target") in
  exists method dm d w0 searched_K,
    forest_guided_clustering two_pairs_forest two_pairs_table "target" "out.png" 3
      (Num (1 # 20)) 42%Z 1 300 None w
    = bind (optimizeK dm X y searched_K 42%Z (Num (3 # 5)) 1 300 method)
        (fun k => bind (plot_forest_guided_clustering k "out.png") (fun _ => ret k)) w0 /\
    method = "clustering"%string /\
    heap w0 !! dm = Some d /\
    square 4 d /\ symmetric d.
Proof.
  intros w y X.
  destruct (forest_guided_clustering_searches_on_a_distance_matrix two_pairs_forest
              two_pairs_table "target" "out.png" 3 (Num (1 # 20)) 42%Z 1 300 y w)
    as (method & dm & d & w0 & K & Hrun & Hmethod & Hdm & _ & Hsq & Hsym & _).
  - right. reflexivity.
  - reflexivity.
  - simpl. lia.
  - repeat constructor.
  - exists method, dm, d, w0, K. split; [exact Hrun|]. split; [exact Hmethod|].
    split; [exact Hdm|]. split; [exact Hsq|exact Hsym].
Defined.

End FurtherWitnesses.

Section SearchWitness.

Lemma every_candidate_completes_on_two_pairs (j : nat) :
  j < 5 - 2 ->
  exists labels,
    KMedoids_fit_labels (2 + j) 42%Z 300 two_pairs = Ok labels /\
    forall i, i < 1 ->
      exists ib,
        bootstrap_index_sets (KMedoids_fit_labels (2 + j) 42%Z 300) two_pairs
          (Nat.iter (j * 1 + i) (next_generator 4) (np_random (world0 1 0 two_pairs)))
        = Ok ib /\
        forall c, c ∈ np_unique labels -> is_Some (ib !! c).
Proof.
  intros Hj.
  destruct j as [|[|[|j]]]; [..|simpl in Hj; lia];
    (eexists; split; [vm_compute; reflexivity|];
     intros i Hi; destruct i as [|i]; [|lia];
     match goal with
     | |- exists ib, ?r = Ok ib /\ _ =>
         exists (match r with Ok ib => ib | Raise _ => ∅ end)
     end;
     split; [vm_compute; reflexivity|];
     intros c Hc; vm_compute in Hc;
     repeat (apply elem_of_cons in Hc as [->|Hc]; [vm_compute; eauto|]);
     by apply elem_of_nil in Hc).
Qed.

Lemma optimizeK_returns_when_every_round_completes_witness :
  let y := [Num 0; Num 0; Num 1; Num 1] in
  let w := world0 1 0 two_pairs in
  exists kopt w',
    optimizeK 0 [] y 5 42%Z (Num (3 # 5)) 1 300 "regression" w = (Ok kopt, w') /\
    np_random w' = Nat.iter ((5 - 2) * 1) (next_generator 4) (np_random w) /\
    heap w ⊆ heap w'.
Proof.
  intros y w.
  apply (optimizeK_returns_when_every_round_completes 0 [] y 5 42%Z (Num (3 # 5)) 1 300
           "regression" w two_pairs 4).
  - vm_compute. reflexivity.
  - exact square_two_pairs.
  - lia.
  - discriminate.
  - reflexivity.
  - right. reflexivity.
  - exact every_candidate_completes_on_two_pairs.
Defined.

Lemma optimizeK_needs_as_many_samples_as_clusters_witness :
  let y := [Num 0; Num 0; Num 1; Num 1] in
  let w := world0 1 0 two_pairs in
  length two_pairs < 6 - 1 /\
  exists e w', optimizeK 0 [] y 6 42%Z (Num (3 # 5)) 1 300 "clustering" w = (Raise e, w').
Proof.
  intros y w. split; [simpl; lia|].
  apply (optimizeK_needs_as_many_samples_as_clusters 0 [] y 6 42%Z (Num (3 # 5)) 1 300
           "clustering" w two_pairs).
  - vm_compute. reflexivity.
  - lia.
  - simpl. lia.
Defined.

End SearchWitness.
